(** * Browsedower: URL access control, pattern matcher, liveness tracker, hub

    A shallow embedding of the parts of the repository that carry the
    behaviour the specification talks about:

    - the browser agent's pattern matcher and policy evaluation
      (extension background script: [patternToRegex], [matchesPattern],
      [shouldBlockUrl], the snapshot handlers and the periodic timers);
    - the device, pattern and request tables of the backend with the
      statements the models package runs against them;
    - the device-facing and admin-facing HTTP handlers;
    - the in-memory WebSocket hub.

    JavaScript strings are lists of characters ([list ascii]); Go strings that
    are only compared for equality are [string]; Go [int64] ids and time
    instants are [Z]; the hub's nested Go maps are [gmap]/[gset]. *)

From Stdlib Require Import ZArith Lia Ascii String.
From stdpp Require Import base option list gmap sets strings.

Set Warnings "-clear-no-such-hyp".

Local Open Scope Z_scope.
Local Open Scope list_scope.

(** ** JavaScript string helpers *)

Module Js.

Abbreviation jsstring := (list ascii).

(** String literals of the source, as character lists. *)
Definition str (s : string) : jsstring := list_ascii_of_string s.

Fixpoint isPrefix (p s : jsstring) : bool :=
  match p, s with
  | [], _ => true
  | _ :: _, [] => false
  | a :: p', b :: s' => Ascii.eqb a b && isPrefix p' s'
  end.

(** [s.startsWith(p)] *)
Definition startsWith (s p : jsstring) : bool := isPrefix p s.

(** [s.endsWith(p)] *)
Definition endsWith (s p : jsstring) : bool := isPrefix (rev p) (rev s).

(** [s.slice(0, -n)] *)
Definition sliceEnd (s : jsstring) (n : nat) : jsstring :=
  take (length s - n)%nat s.

(** [s.replace(/pat/g, rep)] for a non-empty literal [pat]: the scan goes left
    to right, a match is replaced and the scan resumes after it; replaced text
    is never scanned again.  [skip] counts the characters of the current match
    that are still to be dropped. *)
Fixpoint replaceFrom (pat rep : jsstring) (skip : nat) (s : jsstring) : jsstring :=
  match s with
  | [] => []
  | c :: s' =>
      match skip with
      | S k => replaceFrom pat rep k s'
      | O =>
          if isPrefix pat s
          then rep ++ replaceFrom pat rep (pred (length pat)) s'
          else c :: replaceFrom pat rep 0 s'
      end
  end.

Definition replaceAll (pat rep s : jsstring) : jsstring := replaceFrom pat rep 0 s.

(** Truthiness of a string: non-empty. *)
Definition truthy (s : jsstring) : bool :=
  match s with [] => false | _ :: _ => true end.

End Js.

(** ** The regular expressions the agent builds

    [new RegExp(source, 'i')] and [regex.test(s)] are platform functions.  They
    are modelled for the fragment of the regular-expression syntax that
    [patternToRegex] can produce: literal characters, identity escapes of
    syntax characters, [.], negated classes of plain characters, non-capturing
    groups, the quantifiers [*] and [?], and the anchors [^] (first) and [$]
    (last).  Anything else is refused ([None]), which stands for the
    [SyntaxError] of the constructor.  Characters are 8-bit; case folding is
    the ASCII one. *)

Module Regex.
Import Js.

Inductive re : Type :=
| Void : re
| Eps : re
| Chr : ascii -> re
| Dot : re
| NotCls : list ascii -> re
| Cat : re -> re -> re
| Alt : re -> re -> re
| Star : re -> re
| Opt : re -> re.

(** Canonicalize of the specification of RegExp, without the unicode flag:
    upper case when [ignoreCase] is set. *)
Definition toUpper (c : ascii) : ascii :=
  let n := nat_of_ascii c in
  if ((97 <=? n) && (n <=? 122))%nat then ascii_of_nat (n - 32) else c.

Definition canon (ic : bool) (c : ascii) : ascii := if ic then toUpper c else c.

(** LineTerminator: [.] matches everything else. *)
Definition isLineTerminator (c : ascii) : bool :=
  Ascii.eqb c "010"%char || Ascii.eqb c "013"%char.

Fixpoint memb (c : ascii) (cs : list ascii) : bool :=
  match cs with
  | [] => false
  | d :: cs' => Ascii.eqb c d || memb c cs'
  end.

(** One character against a one-character atom. *)
Definition chrOk (ic : bool) (c x : ascii) : bool := Ascii.eqb (canon ic x) (canon ic c).
Definition dotOk (x : ascii) : bool := negb (isLineTerminator x).
Definition notClsOk (ic : bool) (cs : list ascii) (x : ascii) : bool :=
  negb (memb (canon ic x) (map (canon ic) cs)).

(** The language of an expression. *)
Inductive Matches (ic : bool) : re -> jsstring -> Prop :=
| MEps : Matches ic Eps []
| MChr c x : chrOk ic c x = true -> Matches ic (Chr c) [x]
| MDot x : dotOk x = true -> Matches ic Dot [x]
| MNotCls cs x : notClsOk ic cs x = true -> Matches ic (NotCls cs) [x]
| MCat r1 r2 s1 s2 : Matches ic r1 s1 -> Matches ic r2 s2 -> Matches ic (Cat r1 r2) (s1 ++ s2)
| MAltL r1 r2 s : Matches ic r1 s -> Matches ic (Alt r1 r2) s
| MAltR r1 r2 s : Matches ic r2 s -> Matches ic (Alt r1 r2) s
| MStarNil r : Matches ic (Star r) []
| MStarCons r s1 s2 : Matches ic r s1 -> Matches ic (Star r) s2 -> Matches ic (Star r) (s1 ++ s2)
| MOptNone r : Matches ic (Opt r) []
| MOptSome r s : Matches ic r s -> Matches ic (Opt r) s.

(** The executable matcher: Brzozowski derivatives. *)
Fixpoint nullable (r : re) : bool :=
  match r with
  | Void => false
  | Eps => true
  | Chr _ => false
  | Dot => false
  | NotCls _ => false
  | Cat r1 r2 => nullable r1 && nullable r2
  | Alt r1 r2 => nullable r1 || nullable r2
  | Star _ => true
  | Opt _ => true
  end.

Definition ofBool (b : bool) : re := if b then Eps else Void.

Fixpoint deriv (ic : bool) (x : ascii) (r : re) : re :=
  match r with
  | Void => Void
  | Eps => Void
  | Chr c => ofBool (chrOk ic c x)
  | Dot => ofBool (dotOk x)
  | NotCls cs => ofBool (notClsOk ic cs x)
  | Cat r1 r2 =>
      if nullable r1
      then Alt (Cat (deriv ic x r1) r2) (deriv ic x r2)
      else Cat (deriv ic x r1) r2
  | Alt r1 r2 => Alt (deriv ic x r1) (deriv ic x r2)
  | Star r1 => Cat (deriv ic x r1) (Star r1)
  | Opt r1 => deriv ic x r1
  end.

Fixpoint accepts (ic : bool) (r : re) (s : jsstring) : bool :=
  match s with
  | [] => nullable r
  | x :: s' => accepts ic (deriv ic x r) s'
  end.

(** Syntax characters of the pattern grammar. *)
Definition isSyntaxChar (c : ascii) : bool :=
  memb c (str "^$\.*+?()[]{}|").

(** Characters accepted inside a negated class: no escapes, ranges or
    nested brackets. *)
Definition isClassChar (c : ascii) : bool :=
  negb (memb c (str "\]-[")).

Fixpoint spanClass (s : jsstring) : list ascii * jsstring :=
  match s with
  | [] => ([], [])
  | c :: s' =>
      if isClassChar c
      then let '(cs, rest) := spanClass s' in (c :: cs, rest)
      else ([], s)
  end.

(** An optional quantifier after an atom. *)
Definition parseQuant (a : re) (s : jsstring) : re * jsstring :=
  match s with
  | c :: s' =>
      if Ascii.eqb c "*"%char then (Star a, s')
      else if Ascii.eqb c "?"%char then (Opt a, s')
      else (a, s)
  | [] => (a, s)
  end.

(** One atom; [seq] parses the inside of a group. *)
Definition parseAtom (seq : jsstring -> option (re * jsstring)) (s : jsstring)
  : option (re * jsstring) :=
  match s with
  | [] => None
  | c :: s1 =>
      if Ascii.eqb c "."%char then Some (Dot, s1)
      else if Ascii.eqb c "\"%char then
        match s1 with
        | d :: s2 => if isSyntaxChar d then Some (Chr d, s2) else None
        | [] => None
        end
      else if isPrefix (str "[^") s then
        let '(cs, rest) := spanClass (drop 2 s) in
        match rest with
        | e :: s2 => if Ascii.eqb e "]"%char then Some (NotCls cs, s2) else None
        | [] => None
        end
      else if isPrefix (str "(?:") s then
        match seq (drop 3 s) with
        | Some (g, e :: s2) => if Ascii.eqb e ")"%char then Some (g, s2) else None
        | _ => None
        end
      else if isSyntaxChar c then None
      else Some (Chr c, s1)
  end.

(** A sequence of quantified atoms, up to the end of the input, a closing
    parenthesis or a dollar sign (left in the rest for the caller). *)
Fixpoint parseSeq (fuel : nat) (s : jsstring) : option (re * jsstring) :=
  match fuel with
  | O => None
  | S f =>
      match s with
      | [] => Some (Eps, [])
      | c :: _ =>
          if Ascii.eqb c ")"%char || Ascii.eqb c "$"%char then Some (Eps, s)
          else
            match parseAtom (parseSeq f) s with
            | None => None
            | Some (a, s1) =>
                let '(q, s2) := parseQuant a s1 in
                match parseSeq f s2 with
                | None => None
                | Some (r, s3) => Some (Cat q r, s3)
                end
            end
      end
  end.

(** A compiled regular expression object. *)
Record regexp : Type := mkRegexp {
  body : re;
  anchoredStart : bool;
  anchoredEnd : bool;
  ignoreCase : bool
}.

(** [new RegExp(source, flags)], [flags] being ['i'] or empty. *)
Definition RegExp (source : jsstring) (icase : bool) : option regexp :=
  let '(bol, src) :=
    match source with
    | c :: s' => if Ascii.eqb c "^"%char then (true, s') else (false, source)
    | [] => (false, source)
    end in
  match parseSeq (S (length src)) src with
  | Some (r, []) => Some (mkRegexp r bol false icase)
  | Some (r, [d]) => if Ascii.eqb d "$"%char then Some (mkRegexp r bol true icase) else None
  | _ => None
  end.

(** Any run of characters, line terminators included. *)
Definition anything : re := Star (NotCls []).

(** [regex.test(s)]: some substring matches; an anchor pins the match to
    the corresponding end of the input. *)
Definition test (rx : regexp) (s : jsstring) : bool :=
  accepts (ignoreCase rx)
    (Cat (if anchoredStart rx then Eps else anything)
       (Cat (body rx) (if anchoredEnd rx then Eps else anything))) s.

End Regex.

(** ** The browser agent (extension background script) *)

Module Agent.
Import Js Regex.

(** [/[.+?^${}()|[\]\\]/]: the characters [patternToRegex] escapes. *)
Definition isEscaped (c : ascii) : bool :=
  memb c (str ".+?^${}()|[]\").

(** [.replace(/[.+?^${}()|[\]\\]/g, '\\$&')] *)
Definition escapeSpecial (s : jsstring) : jsstring :=
  flat_map (fun c => if isEscaped c then ["\"%char; c] else [c]) s.

Definition DOUBLE_STAR : jsstring := str "{{DOUBLE_STAR}}".

(** The [if]/[else if] on the trailing [/*] or [*]. *)
Definition trailingStep (regex : jsstring) : jsstring :=
  if endsWith regex (str "/*") then
    sliceEnd regex 2 ++ str "(?:/.*)?"
  else if endsWith regex (str "*") && negb (endsWith regex DOUBLE_STAR) then
    sliceEnd regex 1 ++ str ".*"
  else regex.

(** The source text of the expression, before [new RegExp]. *)
Definition regexSource (pattern : jsstring) : jsstring :=
  let regex := replaceAll (str "**") DOUBLE_STAR (escapeSpecial pattern) in
  let regex := trailingStep regex in
  let regex := replaceAll (str "*") (str "[^/]*") regex in
  let regex := replaceAll DOUBLE_STAR (str ".*") regex in
  regex.

(** [patternToRegex(pattern)]; [None] is the constructor throwing. *)
Definition patternToRegex (pattern : jsstring) : option regexp :=
  RegExp (str "^" ++ regexSource pattern ++ str "$") true.

(** *** The pattern language, token by token

    The same compilation read off the pattern instead of the intermediate
    strings: a pattern is a sequence of literal characters, single stars and
    double stars, and its last tokens may form a trailing [/*] or a trailing
    [*]. *)

Inductive ptoken : Type :=
| TLit (c : ascii)
| TStar
| TDStar.

Definition isStar (c : ascii) : bool := Ascii.eqb c "*"%char.

(** The leftmost [**] first, as the global replacement finds them. *)
Fixpoint tokenize (p : jsstring) : list ptoken :=
  match p with
  | [] => []
  | c :: r =>
      if isStar c then
        match r with
        | c2 :: r2 => if isStar c2 then TDStar :: tokenize r2 else TStar :: tokenize r
        | [] => [TStar]
        end
      else TLit c :: tokenize r
  end.

(** The tokens [tokenize] produces: a star is never a literal. *)
Definition properToken (t : ptoken) : Prop :=
  match t with
  | TLit c => isStar c = false
  | _ => True
  end.

Inductive trailing : Type := NoTrail | TrailSlash | TrailStar.

(** The tokens before the trailing form, and the trailing form. *)
Definition splitTrail (toks : list ptoken) : list ptoken * trailing :=
  match rev toks with
  | TStar :: TLit c :: pre =>
      if Ascii.eqb c "/"%char then (rev pre, TrailSlash)
      else (rev (TLit c :: pre), TrailStar)
  | TStar :: pre => (rev pre, TrailStar)
  | _ => (toks, NoTrail)
  end.

Definition escapeChar (c : ascii) : jsstring :=
  if isEscaped c then ["\"%char; c] else [c].

(** The text of a token at a stage of the pipeline, given the texts that
    stand for the single and the double star at that stage. *)
Definition render (star dstar : jsstring) (t : ptoken) : jsstring :=
  match t with
  | TLit c => escapeChar c
  | TStar => star
  | TDStar => dstar
  end.

Definition renderAll (star dstar : jsstring) (toks : list ptoken) : jsstring :=
  flat_map (render star dstar) toks.

(** The text appended for the trailing form, and what the later replacement
    of the stars makes of it. *)
Definition trailSource (tr : trailing) : jsstring :=
  match tr with
  | NoTrail => []
  | TrailSlash => str "(?:/.*)?"
  | TrailStar => str ".*"
  end.

Definition trailFinal (tr : trailing) : jsstring :=
  match tr with
  | NoTrail => []
  | TrailSlash => str "(?:/.[^/]*)?"
  | TrailStar => str ".[^/]*"
  end.

Definition notSlash : re := NotCls ["/"%char].

Definition tokenRe (t : ptoken) : re :=
  match t with
  | TLit c => Chr c
  | TStar => Star notSlash
  | TDStar => Star Dot
  end.

Definition trailRe (tr : trailing) : list re :=
  match tr with
  | NoTrail => []
  | TrailSlash => [Opt (Cat (Chr "/"%char) (Cat Dot (Cat (Star notSlash) Eps)))]
  | TrailStar => [Dot; Star notSlash]
  end.

Definition sequence (rs : list re) : re := fold_right Cat Eps rs.

(** The expression of a pattern, token by token. *)
Definition compileTokens (p : jsstring) : re :=
  let '(pre, tr) := splitTrail (tokenize p) in
  sequence (map tokenRe pre ++ trailRe tr).

(** The characters a dot takes: all but the line terminators.  The host,
    path and query of a parsed URL contain none, so that on such candidates a
    dot takes any character. *)
Definition dotChar (x : ascii) : Prop := isLineTerminator x = false.

Definition anyChar (x : ascii) : Prop := True.

(** What a token accepts, [dot] being what a dot takes: a literal accepts
    its character in either case, a single star a run without [/], a double
    star any run of characters a dot takes. *)
Definition segmentOk (dot : ascii -> Prop) (t : ptoken) (seg : jsstring) : Prop :=
  match t with
  | TLit c => ∃ x, seg = [x] ∧ toUpper x = toUpper c
  | TStar => Forall (fun x => x ≠ "/"%char) seg
  | TDStar => Forall dot seg
  end.

(** What the trailing form accepts. *)
Definition trailOk (dot : ascii -> Prop) (tr : trailing) (tl : jsstring) : Prop :=
  match tr with
  | NoTrail => tl = []
  | TrailSlash =>
      tl = [] ∨ ∃ x rest, tl = "/"%char :: x :: rest
                          ∧ dot x
                          ∧ Forall (fun y => y ≠ "/"%char) rest
  | TrailStar =>
      ∃ x rest, tl = x :: rest
                ∧ dot x
                ∧ Forall (fun y => y ≠ "/"%char) rest
  end.

(** A candidate matches a pattern token by token: it splits into one
    segment per token and a tail for the trailing form. *)
Definition matchesTokens (dot : ascii -> Prop) (p cand : jsstring) : Prop :=
  let '(pre, tr) := splitTrail (tokenize p) in
  ∃ segs tl, cand = concat segs ++ tl
             ∧ Forall2 (segmentOk dot) pre segs ∧ trailOk dot tr tl.

(** *** Matching a URL against a pattern list *)

(** What [new URL(url)] exposes to the agent.  The parser itself is the
    platform's; the agent code is parametric in it. *)
Record ParsedURL : Type := mkURL {
  hostname : jsstring;
  pathname : jsstring;
  search : jsstring
}.

Section WithURL.

(** [new URL(url)]; [None] when the constructor throws. *)
Variable URL : jsstring -> option ParsedURL.

(** The body of the [for] loop of [matchesPattern]: [Some true] is the early
    [return true], [None] an exception escaping [patternToRegex]. *)
Fixpoint matchesLoop (urlToMatch host : jsstring) (patterns : list jsstring)
  : option bool :=
  match patterns with
  | [] => Some false
  | pattern :: rest =>
      match patternToRegex pattern with
      | None => None
      | Some regex =>
          if test regex urlToMatch then Some true
          else if test regex host then Some true
          else matchesLoop urlToMatch host rest
      end
  end.

Definition matchesPattern (url : jsstring) (patterns : list jsstring) : bool :=
  match URL url with
  | None => false
  | Some parsed =>
      let urlToMatch := hostname parsed ++ pathname parsed ++ search parsed in
      match matchesLoop urlToMatch (hostname parsed) patterns with
      | Some b => b
      | None => false
      end
  end.

End WithURL.

(** *** Local storage and connection state *)

Record Config : Type := mkConfig {
  apiUrl : jsstring;
  token : jsstring;
  lastSync : option Z;
  lastHeartbeat : option Z
}.

Definition DEFAULT_CONFIG : Config :=
  mkConfig (str "http://localhost:8080") [] None None.

Record Patterns : Type := mkPatterns {
  allow : list jsstring;
  deny : list jsstring
}.

(** [chrome.storage.local] under the two keys of the agent, the socket
    variable [ws] (whether one is held) and the flag [wsConnected]. *)
Record State : Type := mkState {
  storedConfig : option Config;
  storedPatterns : option Patterns;
  ws : bool;
  wsConnected : bool
}.

Definition getConfig (st : State) : Config := default DEFAULT_CONFIG (storedConfig st).

Definition setConfig (config : Config) (st : State) : State :=
  mkState (Some config) (storedPatterns st) (ws st) (wsConnected st).

Definition getPatterns (st : State) : Patterns :=
  default (mkPatterns [] []) (storedPatterns st).

Definition setPatterns (patterns : Patterns) (st : State) : State :=
  mkState (storedConfig st) (Some patterns) (ws st) (wsConnected st).

Definition withLastSync (now : Z) (c : Config) : Config :=
  mkConfig (apiUrl c) (token c) (Some now) (lastHeartbeat c).

Definition withLastHeartbeat (now : Z) (c : Config) : Config :=
  mkConfig (apiUrl c) (token c) (lastSync c) (Some now).

Definition isHttp (url : jsstring) : bool :=
  startsWith url (str "http://") || startsWith url (str "https://").

(** [shouldBlockUrl(url)]: [true] is block. *)
Definition shouldBlockUrl (URL : jsstring -> option ParsedURL) (st : State)
    (url : jsstring) : bool :=
  if negb (startsWith url (str "http://")) && negb (startsWith url (str "https://"))
  then false
  else
    let config := getConfig st in
    if negb (truthy (token config)) then false
    else
      let patterns := getPatterns st in
      if (0 <? length (deny patterns))%nat && matchesPattern URL url (deny patterns)
      then true
      else if (0 <? length (allow patterns))%nat
              && negb (matchesPattern URL url (allow patterns))
      then true
      else false.

(** *** Snapshots *)

(** A pattern object of a snapshot, with the two fields the agent reads. *)
Record PatternObj : Type := mkPatternObj {
  pattern : jsstring;
  type : jsstring
}.

(** The [data] object of a message or response; [None] for a missing
    [patterns] field. *)
Record Snapshot : Type := mkSnapshot {
  patterns : option (list PatternObj)
}.

(** The categorising loop shared by the push and the poll path. *)
Definition pushPattern (acc : Patterns) (p : PatternObj) : Patterns :=
  if bool_decide (type p = str "allow") then mkPatterns (allow acc ++ [pattern p]) (deny acc)
  else if bool_decide (type p = str "deny") then mkPatterns (allow acc) (deny acc ++ [pattern p])
  else acc.

Definition organize (data : Snapshot) : Patterns :=
  fold_left pushPattern (default [] (patterns data)) (mkPatterns [] []).

(** An incoming WebSocket message after [JSON.parse]. *)
Record Message : Type := mkMessage {
  msgType : jsstring;
  msgData : option Snapshot
}.

(** [ws.onmessage]; the event is [None] when [JSON.parse] throws.  Reading
    [data.patterns] of a missing [data] throws as well; every exception is
    caught and leaves the state as it is. *)
Definition onmessage (now : Z) (event : option Message) (st : State) : State :=
  match event with
  | None => st
  | Some message =>
      if bool_decide (msgType message = str "patterns_updated") then
        match msgData message with
        | None => st
        | Some data =>
            let st1 := setPatterns (organize data) st in
            setConfig (withLastSync now (getConfig st1)) st1
        end
      else st
  end.

(** The requests the agent issues. *)
Inductive Effect : Type :=
| GetPatterns (api tok : jsstring)
| PostHeartbeat (api tok : jsstring)
| OpenSocket (api tok : jsstring)
| CloseSocket.

(** The answer to a [fetch]: [None] when it rejects; [respJson] is [None]
    when the body is not JSON. *)
Record Response : Type := mkResponse {
  respOk : bool;
  respJson : option Snapshot
}.

(** [fetchPatterns()]: the new state, the returned patterns ([None] for
    [null]) and the requests issued. *)
Definition fetchPatterns (now : Z) (resp : option Response) (st : State)
  : State * option Patterns * list Effect :=
  let config := getConfig st in
  if negb (truthy (token config)) || negb (truthy (apiUrl config)) then (st, None, [])
  else
    let sent := [GetPatterns (apiUrl config) (token config)] in
    match resp with
    | None => (st, None, sent)
    | Some response =>
        if negb (respOk response) then (st, None, sent)
        else
          match respJson response with
          | None => (st, None, sent)
          | Some data =>
              let patterns := organize data in
              let st1 := setPatterns patterns st in
              (setConfig (withLastSync now config) st1, Some patterns, sent)
          end
    end.

(** [sendHeartbeat()] *)
Definition sendHeartbeat (now : Z) (resp : option Response) (st : State)
  : State * bool * list Effect :=
  let config := getConfig st in
  if negb (truthy (token config)) || negb (truthy (apiUrl config)) then (st, false, [])
  else
    let sent := [PostHeartbeat (apiUrl config) (token config)] in
    match resp with
    | None => (st, false, sent)
    | Some response =>
        if negb (respOk response) then (st, false, sent)
        else (setConfig (withLastHeartbeat now config) st, true, sent)
    end.

(** [connectWebSocket()]: the handlers run later, as events of their own. *)
Definition connectWebSocket (st : State) : State * list Effect :=
  let config := getConfig st in
  if negb (truthy (token config)) || negb (truthy (apiUrl config)) then (st, [])
  else
    let closing := if ws st then [CloseSocket] else [] in
    (mkState (storedConfig st) (storedPatterns st) true false,
     closing ++ [OpenSocket (apiUrl config) (token config)]).

Definition ensureWebSocketConnected (st : State) : State * list Effect :=
  let config := getConfig st in
  if truthy (token config) && negb (wsConnected st) then connectWebSocket st
  else (st, []).

(** [periodicSync()] *)
Definition periodicSync (now : Z) (resp : option Response) (st : State)
  : State * list Effect :=
  let config := getConfig st in
  if truthy (token config) then
    let '(st', _, sent) := fetchPatterns now resp st in (st', sent)
  else (st, []).

(** [periodicHeartbeat()] *)
Definition periodicHeartbeat (now : Z) (resp : option Response) (st : State)
  : State * list Effect :=
  let config := getConfig st in
  if truthy (token config) && negb (wsConnected st) then
    let '(st', _, sent) := sendHeartbeat now resp st in (st', sent)
  else (st, []).

(** The [chrome.alarms.onAlarm] listener. *)
Definition onAlarm (name : jsstring) (now : Z) (resp : option Response) (st : State)
  : State * list Effect :=
  let '(st1, sent1) :=
    if bool_decide (name = str "syncPatterns") then periodicSync now resp st
    else (st, []) in
  let '(st2, sent2) :=
    if bool_decide (name = str "heartbeat") then periodicHeartbeat now resp st1
    else (st1, []) in
  let '(st3, sent3) :=
    if bool_decide (name = str "wsReconnect") then ensureWebSocketConnected st2
    else (st2, []) in
  (st3, sent1 ++ sent2 ++ sent3).

(** Whether a pull of the snapshot is among the requests issued. *)
Definition isPull (e : Effect) : bool :=
  match e with GetPatterns _ _ => true | _ => false end.

Definition pulls (es : list Effect) : bool := existsb isPull es.

(** *** Auxiliary notions for the properties *)

(** One pattern matches a URL. *)
Definition patternMatches (URL : jsstring -> option ParsedURL) (url pattern : jsstring)
  : bool :=
  matchesPattern URL url [pattern].

(** The device is configured: token and server address are set. *)
Definition configured (st : State) : bool :=
  truthy (token (getConfig st)) && truthy (apiUrl (getConfig st)).

(** The two ways a snapshot reaches the cache. *)
Inductive Delivery : Type := ByPush | ByPoll.

Definition deliver (how : Delivery) (now : Z) (data : Snapshot) (st : State) : State :=
  match how with
  | ByPush => onmessage now (Some (mkMessage (str "patterns_updated") (Some data))) st
  | ByPoll => fst (fst (fetchPatterns now (Some (mkResponse true (Some data))) st))
  end.

(** The patterns of one type in a snapshot, in order. *)
Definition ofType (ty : jsstring) (data : Snapshot) : list jsstring :=
  map pattern (filter (fun p => type p = ty) (default [] (patterns data))).

(** The specification's sentence on the poll timer: no pull while
    connected. *)
Definition pollOnlyWhenDisconnected : Prop :=
  ∀ now resp st,
    wsConnected st = true →
    pulls (snd (onAlarm (str "syncPatterns") now resp st)) = false.

(** A stand-in for [new URL] on plain [http(s)://host/path?query] inputs,
    used to run the examples. *)
Fixpoint spanUntil (stop : ascii -> bool) (s : jsstring) : jsstring * jsstring :=
  match s with
  | [] => ([], [])
  | c :: s' =>
      if stop c then ([], s)
      else let '(a, b) := spanUntil stop s' in (c :: a, b)
  end.

Definition plainURL (url : jsstring) : option ParsedURL :=
  let rest :=
    if startsWith url (str "http://") then Some (drop 7 url)
    else if startsWith url (str "https://") then Some (drop 8 url)
    else None in
  match rest with
  | None => None
  | Some rest =>
      let '(host, r1) :=
        spanUntil (fun c => Ascii.eqb c "/"%char || Ascii.eqb c "?"%char) rest in
      let '(path, query) := spanUntil (fun c => Ascii.eqb c "?"%char) r1 in
      match host with
      | [] => None
      | _ => Some (mkURL host (match path with [] => str "/" | _ => path end) query)
      end
  end.

(** Example states: a configured device with one deny pattern, connected
    or not. *)
Definition exampleConfig : Config :=
  mkConfig (str "http://localhost:8080") (str "secret") None None.

Definition exampleState (connected : bool) : State :=
  mkState (Some exampleConfig) (Some (mkPatterns [] [str "bad.com/*"])) connected connected.

Definition snapshotA : Snapshot :=
  mkSnapshot (Some [mkPatternObj (str "news.example/*") (str "allow");
                    mkPatternObj (str "bad.com/*") (str "deny")]).

Definition snapshotB : Snapshot :=
  mkSnapshot (Some [mkPatternObj (str "bad.com/*") (str "deny")]).

End Agent.

(** ** The backend store (models package)

    The tables are lists of rows in insertion order.  Ids are [int64],
    instants are numbers on one time line.  Every statement takes a flag [ok]:
    whether the store executes it; when it does not, the driver returns an
    error and the tables are unchanged.  The [now] arguments are the value of
    [time.Now()] at the call. *)

Module Models.

Inductive DeviceStatus : Type := active | inactive | uninstalled.

Inductive RequestStatus : Type := pending | approved | denied.

Inductive PatternType : Type := allowType | denyType.

Global Instance DeviceStatus_eq_dec : EqDecision DeviceStatus.
Proof. solve_decision. Defined.

Global Instance RequestStatus_eq_dec : EqDecision RequestStatus.
Proof. solve_decision. Defined.

Global Instance PatternType_eq_dec : EqDecision PatternType.
Proof. solve_decision. Defined.

Record Device : Type := mkDevice {
  ID : Z;
  Token : string;
  Name : string;
  Status : DeviceStatus;
  LastSeen : option Z;
  CreatedAt : Z
}.

Record Pattern : Type := mkPattern {
  PatternID : Z;
  PatternDeviceID : Z;
  PatternText : string;
  Type_ : PatternType;
  Enabled : bool;
  ExpiresAt : option Z;
  PatternCreatedAt : Z
}.

Record Request : Type := mkRequest {
  RequestID : Z;
  RequestDeviceID : Z;
  URL : string;
  SuggestedPattern : string;
  RequestStatus_ : RequestStatus;
  RequestCreatedAt : Z;
  ResolvedAt : option Z
}.

Record DB : Type := mkDB {
  devices : list Device;
  patterns : list Pattern;
  requests : list Request
}.

(** The driver's error value. *)
Inductive error : Type := ErrNoRows | ErrStore | ErrConstraint.

(** The [CHECK] constraints of the schema on the text columns. *)
Definition parseDeviceStatus (s : string) : option DeviceStatus :=
  if bool_decide (s = "active") then Some active
  else if bool_decide (s = "inactive") then Some inactive
  else if bool_decide (s = "uninstalled") then Some uninstalled
  else None.

Definition parsePatternType (s : string) : option PatternType :=
  if bool_decide (s = "allow") then Some allowType
  else if bool_decide (s = "deny") then Some denyType
  else None.

Definition setDevices (ds : list Device) (db : DB) : DB :=
  mkDB ds (patterns db) (requests db).

Definition setPatterns (ps : list Pattern) (db : DB) : DB :=
  mkDB (devices db) ps (requests db).

Definition setRequests (rs : list Request) (db : DB) : DB :=
  mkDB (devices db) (patterns db) rs.

(** [SELECT ... FROM devices WHERE token = ?] *)
Definition GetDeviceByToken (ok : bool) (db : DB) (token : string)
  : Device + error :=
  if ok then
    match List.find (fun d => bool_decide (Token d = token)) (devices db) with
    | Some d => inl d
    | None => inr ErrNoRows
    end
  else inr ErrStore.

Definition GetDeviceByID (db : DB) (id : Z) : option Device :=
  List.find (fun d => ID d =? id) (devices db).

Definition heartbeatRow (now deviceID : Z) (d : Device) : Device :=
  if ID d =? deviceID
  then mkDevice (ID d) (Token d) (Name d) active (Some now) (CreatedAt d)
  else d.

(** [UPDATE devices SET last_seen = ?, status = 'active' WHERE id = ?] *)
Definition UpdateDeviceHeartbeat (ok : bool) (now : Z) (db : DB) (deviceID : Z)
  : DB * option error :=
  if ok then (setDevices (map (heartbeatRow now deviceID) (devices db)) db, None)
  else (db, Some ErrStore).

Definition statusRow (st : DeviceStatus) (deviceID : Z) (d : Device) : Device :=
  if ID d =? deviceID
  then mkDevice (ID d) (Token d) (Name d) st (LastSeen d) (CreatedAt d)
  else d.

(** [UPDATE devices SET status = ? WHERE id = ?] *)
Definition UpdateDeviceStatus (ok : bool) (db : DB) (deviceID : Z) (status : string)
  : DB * option error :=
  if ok then
    match parseDeviceStatus status with
    | Some st => (setDevices (map (statusRow st deviceID) (devices db)) db, None)
    | None =>
        if existsb (fun d => ID d =? deviceID) (devices db)
        then (db, Some ErrConstraint) else (db, None)
    end
  else (db, Some ErrStore).

(** [status = 'active' AND (last_seen IS NULL OR last_seen < ?)] *)
Definition isStale (cutoff : Z) (d : Device) : bool :=
  bool_decide (Status d = active)
  && match LastSeen d with None => true | Some t => t <? cutoff end.

Definition inactiveRow (cutoff : Z) (d : Device) : Device :=
  if isStale cutoff d
  then mkDevice (ID d) (Token d) (Name d) inactive (LastSeen d) (CreatedAt d)
  else d.

(** [MarkInactiveDevices(threshold)]: the [SELECT name] and then the
    [UPDATE], run back to back. *)
Definition MarkInactiveDevices (okQuery okExec : bool) (now : Z) (db : DB)
    (threshold : Z) : DB * (list string + error) :=
  let cutoff := now - threshold in
  if okQuery then
    let deviceNames := map Name (filter (fun d => isStale cutoff d = true) (devices db)) in
    if okExec
    then (setDevices (map (inactiveRow cutoff) (devices db)) db, inl deviceNames)
    else (db, inr ErrStore)
  else (db, inr ErrStore).

(** The rowid of the next inserted row. *)
Definition nextID (ids : list Z) : Z := 1 + fold_right Z.max 0 ids.

(** [INSERT INTO patterns ...]: the type column is checked, the device must
    exist. *)
Definition CreatePattern (ok : bool) (now : Z) (db : DB) (deviceID : Z)
    (pattern patternType : string) (expiresAt : option Z) : DB * (Pattern + error) :=
  if ok then
    match parsePatternType patternType with
    | None => (db, inr ErrConstraint)
    | Some ty =>
        if existsb (fun d => ID d =? deviceID) (devices db) then
          let p := mkPattern (nextID (map PatternID (patterns db))) deviceID pattern ty
                     true expiresAt now in
          (setPatterns (patterns db ++ [p]) db, inl p)
        else (db, inr ErrConstraint)
    end
  else (db, inr ErrStore).

(** [SELECT ... FROM requests r JOIN devices d ON r.device_id = d.id
    WHERE r.id = ?] *)
Definition GetRequestByID (ok : bool) (db : DB) (id : Z) : Request + error :=
  if ok then
    match List.find (fun r => (RequestID r =? id)
                               && existsb (fun d => ID d =? RequestDeviceID r) (devices db))
            (requests db) with
    | Some r => inl r
    | None => inr ErrNoRows
    end
  else inr ErrStore.

Definition resolveRow (st : RequestStatus) (now id : Z) (r : Request) : Request :=
  if RequestID r =? id
  then mkRequest (RequestID r) (RequestDeviceID r) (URL r) (SuggestedPattern r) st
         (RequestCreatedAt r) (Some now)
  else r.

(** [UPDATE requests SET status = 'approved', resolved_at = ? WHERE id = ?] *)
Definition ApproveRequest (ok : bool) (now : Z) (db : DB) (id : Z) : DB * option error :=
  if ok then (setRequests (map (resolveRow approved now id) (requests db)) db, None)
  else (db, Some ErrStore).

(** [UPDATE requests SET status = 'denied', resolved_at = ? WHERE id = ?] *)
Definition DenyRequest (ok : bool) (now : Z) (db : DB) (id : Z) : DB * option error :=
  if ok then (setRequests (map (resolveRow denied now id) (requests db)) db, None)
  else (db, Some ErrStore).

(** Reading one column of one row. *)
Definition deviceStatus (db : DB) (id : Z) : option DeviceStatus :=
  Status <$> GetDeviceByID db id.

Definition requestStatus (db : DB) (id : Z) : option RequestStatus :=
  RequestStatus_ <$> List.find (fun r => RequestID r =? id) (requests db).

End Models.

(** ** The WebSocket hub (websocket package) *)

Module Hub.

(** A [*Client]: the pointer, and the device id stored behind it.  The
    transport handle and the token play no part in the registry. *)
Record Client : Type := mkClient {
  addr : positive;
  DeviceID : Z
}.

Global Instance Client_eq_dec : EqDecision Client.
Proof. solve_decision. Defined.

Global Instance Client_countable : Countable Client.
Proof.
  refine (inj_countable' (fun c => (addr c, DeviceID c))
            (fun p => mkClient p.1 p.2) _).
  intros []; reflexivity.
Defined.

(** The registry [clients] and the set of [Send] channels already closed. *)
Record Hub : Type := mkHub {
  clients : gmap Z (gset Client);
  closed : gset Client
}.

Definition NewHub : Hub := mkHub ∅ ∅.

(** What arrives on the [register] and [unregister] channels. *)
Inductive Op : Type :=
| Register (client : Client)
| Unregister (client : Client).

(** One iteration of the loop of [Run]; [None] is the panic of closing a
    closed channel. *)
Definition step (h : Hub) (op : Op) : option Hub :=
  match op with
  | Register client =>
      let sessions := default ∅ (clients h !! DeviceID client) in
      Some (mkHub (<[DeviceID client := {[client]} ∪ sessions]> (clients h)) (closed h))
  | Unregister client =>
      match clients h !! DeviceID client with
      | Some sessions =>
          if decide (client ∈ sessions) then
            let sessions' := sessions ∖ {[client]} in
            if decide (client ∈ closed h) then None
            else
              let closed' := {[client]} ∪ closed h in
              if decide (size sessions' = 0%nat)
              then Some (mkHub (delete (DeviceID client) (clients h)) closed')
              else Some (mkHub (<[DeviceID client := sessions']> (clients h)) closed')
          else Some h
      | None => Some h
      end
  end.

(** The loop of [Run] over the operations received so far. *)
Fixpoint run (h : Hub) (ops : list Op) : option Hub :=
  match ops with
  | [] => Some h
  | op :: rest =>
      match step h op with
      | Some h' => run h' rest
      | None => None
      end
  end.

(** [IsDeviceConnected(deviceID)] *)
Definition IsDeviceConnected (h : Hub) (deviceID : Z) : bool :=
  bool_decide (is_Some (clients h !! deviceID)).

(** [GetConnectedDeviceCount()] *)
Definition GetConnectedDeviceCount (h : Hub) : nat := size (clients h).

(** The sessions that the operations leave registered: added by a
    [Register], removed by an [Unregister]. *)
Fixpoint live (acc : gset Client) (ops : list Op) : gset Client :=
  match ops with
  | [] => acc
  | Register c :: rest => live ({[c]} ∪ acc) rest
  | Unregister c :: rest => live (acc ∖ {[c]}) rest
  end.

(** No client is registered again once it has been unregistered, which is
    how the connection handler uses the hub: one fresh client per
    connection. *)
Fixpoint fresh (gone : gset Client) (ops : list Op) : bool :=
  match ops with
  | [] => true
  | Register c :: rest => bool_decide (c ∉ gone) && fresh gone rest
  | Unregister c :: rest => fresh ({[c]} ∪ gone) rest
  end.

(** The registry invariant: no device id is mapped to an empty session set. *)
Definition nonEmptyEntries (h : Hub) : Prop :=
  ∀ id sessions, clients h !! id = Some sessions → sessions ≠ ∅.

(** [c] is in the session set kept under [id]. *)
Definition registered (h : Hub) (id : Z) (c : Client) : Prop :=
  ∃ sessions, clients h !! id = Some sessions ∧ c ∈ sessions.

(** The registry holds exactly the clients of [L], each under its own id. *)
Definition tracks (h : Hub) (L : gset Client) : Prop :=
  ∀ id c, registered h id c ↔ (c ∈ L ∧ DeviceID c = id).

Definition liveStep (L : gset Client) (op : Op) : gset Client :=
  match op with
  | Register c => {[c]} ∪ L
  | Unregister c => L ∖ {[c]}
  end.

(** Two sessions of device 7 and one of device 9. *)
Definition exampleOps : list Op :=
  [Register (mkClient 1 7); Register (mkClient 2 7); Register (mkClient 3 9);
   Unregister (mkClient 1 7); Unregister (mkClient 3 9)].

End Hub.

(** ** The HTTP handlers (handlers package) and the scheduler *)

Module Handlers.
Import Models.

Inductive Method : Type := GET | POST.

Inductive Body : Type :=
| ErrorText (msg : string)
| SuccessJSON
| HeartbeatJSON (status : string)
| UninstalledPage
| ApprovedJSON (p : Pattern).

Record HttpResponse : Type := mkHttp {
  status : Z;
  body : Body
}.

(** [go services.Push.NotifyDeviceStatus(name, status)] and the hub push. *)
Inductive SideEffect : Type :=
| NotifyDeviceStatus (name status : string)
| NotifyDevicePatternUpdate (deviceID : Z).

(** The [Authorization] header of a request, as [TokenAuth] reads it:
    missing, not of the form [Bearer <token>], or carrying a token. *)
Inductive AuthHeader : Type :=
| HeaderMissing
| HeaderMalformed
| Bearer (token : string).

(** [middleware.TokenAuth]: the result is the device put in the request
    context, or the refusal. *)
Definition TokenAuth (okLookup : bool) (db : DB) (authHeader : AuthHeader)
  : Device + HttpResponse :=
  match authHeader with
  | HeaderMissing => inr (mkHttp 401 (ErrorText "Missing authorization header"))
  | HeaderMalformed => inr (mkHttp 401 (ErrorText "Invalid authorization header format"))
  | Bearer token =>
      match GetDeviceByToken okLookup db token with
      | inl device => inl device
      | inr _ => inr (mkHttp 401 (ErrorText "Invalid token"))
      end
  end.

(** [DeviceHeartbeat]; [device] is [middleware.GetDeviceFromContext(r)]. *)
Definition DeviceHeartbeat (okExec : bool) (now : Z) (db : DB) (device : option Device)
  : DB * HttpResponse :=
  match device with
  | None => (db, mkHttp 401 (ErrorText "Device not found"))
  | Some device =>
      match UpdateDeviceHeartbeat okExec now db (ID device) with
      | (db', Some _) => (db', mkHttp 500 (ErrorText "Failed to update heartbeat"))
      | (db', None) => (db', mkHttp 200 (HeartbeatJSON "active"))
      end
  end.

(** The route [POST /api/heartbeat]: [TokenAuth(DeviceHeartbeat)]. *)
Definition heartbeatRoute (okLookup okExec : bool) (now : Z) (db : DB)
    (bearer : AuthHeader) : DB * HttpResponse :=
  match TokenAuth okLookup db bearer with
  | inl device => DeviceHeartbeat okExec now db (Some device)
  | inr resp => (db, resp)
  end.

(** The marking shared by the two branches of [DeviceUninstall]. *)
Definition markUninstalled (okExec push : bool) (db : DB) (device : Device)
  : DB * list SideEffect :=
  match UpdateDeviceStatus okExec db (ID device) "uninstalled" with
  | (db', Some _) => (db', [])
  | (db', None) =>
      (db', if push then [NotifyDeviceStatus (Name device) "uninstalled"] else [])
  end.

(** [DeviceUninstall]: [token] is the query parameter (empty when absent),
    [ctxDevice] the device of the request context, [push] whether
    [services.Push] is set. *)
Definition DeviceUninstall (okLookup okExec push : bool) (db : DB) (method : Method)
    (token : string) (ctxDevice : option Device)
  : DB * HttpResponse * list SideEffect :=
  let '(db', effects) :=
    if bool_decide (token = "") then
      match ctxDevice with
      | Some device => markUninstalled okExec push db device
      | None => (db, [])
      end
    else
      match GetDeviceByToken okLookup db token with
      | inl device => markUninstalled okExec push db device
      | inr _ => (db, [])
      end in
  match method with
  | GET => (db', mkHttp 200 UninstalledPage, effects)
  | POST => (db', mkHttp 200 SuccessJSON, effects)
  end.

(** The device an uninstall request resolves to, if any. *)
Definition resolveUninstall (okLookup : bool) (db : DB) (token : string)
    (ctxDevice : option Device) : option Device :=
  if bool_decide (token = "") then ctxDevice
  else match GetDeviceByToken okLookup db token with
       | inl device => Some device
       | inr _ => None
       end.

(** The answer of the uninstall endpoint: a function of the method alone. *)
Definition uninstallAnswer (method : Method) : HttpResponse :=
  match method with
  | GET => mkHttp 200 UninstalledPage
  | POST => mkHttp 200 SuccessJSON
  end.

(** The route [/api/uninstall] is registered without [TokenAuth]: nothing
    puts a device in the request context. *)
Definition uninstallRoute (okLookup okExec push : bool) (db : DB) (method : Method)
    (token : string) : DB * HttpResponse * list SideEffect :=
  DeviceUninstall okLookup okExec push db method token None.

(** The connection handler [HandleWebSocket], as far as the store and the
    registry go: the client to register ([None] when the request is
    refused or the upgrade fails) and the store after the heartbeat
    update. *)
Definition HandleWebSocket (okLookup upgradeOk okExec : bool) (now : Z) (db : DB)
    (token : string) (conn : positive) : DB * option Hub.Client :=
  if bool_decide (token = "") then (db, None)
  else
    match GetDeviceByToken okLookup db token with
    | inr _ => (db, None)
    | inl device =>
        if upgradeOk then
          (fst (UpdateDeviceHeartbeat okExec now db (ID device)),
           Some (Hub.mkClient conn (ID device)))
        else (db, None)
    end.

(** The pong handler installed by [readPump]. *)
Definition pongHandler (okExec : bool) (now : Z) (db : DB) (client : Hub.Client) : DB :=
  fst (UpdateDeviceHeartbeat okExec now db (Hub.DeviceID client)).

(** *** Access requests *)

Record ApproveRequestBody : Type := mkApproveBody {
  Pattern_ : string;
  BodyType : string;
  Duration : string;
  CustomMinutes : Z
}.

Definition wrap64 (z : Z) : Z := (z + 2 ^ 63) mod 2 ^ 64 - 2 ^ 63.

Definition Minute : Z := 60 * 1000000000.
Definition Hour : Z := 60 * Minute.

(** [parseDuration]: a [time.Duration] in nanoseconds. *)
Definition parseDuration (duration : string) (customMinutes : Z) : Z * bool :=
  if bool_decide (duration = "15m") then (15 * Minute, true)
  else if bool_decide (duration = "30m") then (30 * Minute, true)
  else if bool_decide (duration = "1h") then (Hour, true)
  else if bool_decide (duration = "8h") then (8 * Hour, true)
  else if bool_decide (duration = "24h") then (24 * Hour, true)
  else if bool_decide (duration = "1w") then (7 * 24 * Hour, true)
  else if bool_decide (duration = "custom") then
    if 0 <? customMinutes then (wrap64 (customMinutes * Minute), true) else (0, false)
  else if bool_decide (duration = "permanent") || bool_decide (duration = "") then (0, true)
  else (0, false).

(** The admin handler [ApproveRequest]: [id] is the parsed path variable,
    [reqBody] the decoded body ([None] when parsing or decoding fails).  The
    three flags are the three statements, in order. *)
Definition ApproveRequest (okGet okCreate okApprove : bool) (now : Z) (db : DB)
    (id : option Z) (reqBody : option ApproveRequestBody)
  : DB * HttpResponse * list SideEffect :=
  match id with
  | None => (db, mkHttp 400 (ErrorText "Invalid request ID"), [])
  | Some id =>
      match reqBody with
      | None => (db, mkHttp 400 (ErrorText "Invalid request body"), [])
      | Some body =>
          if bool_decide (Pattern_ body = "")
          then (db, mkHttp 400 (ErrorText "Pattern is required"), [])
          else
            let type := if bool_decide (BodyType body = "") then "allow" else BodyType body in
            match GetRequestByID okGet db id with
            | inr _ => (db, mkHttp 404 (ErrorText "Request not found"), [])
            | inl accessReq =>
                let expiry : option (option Z) :=
                  if negb (bool_decide (Duration body = ""))
                     && negb (bool_decide (Duration body = "permanent"))
                  then
                    let '(duration, ok) := parseDuration (Duration body) (CustomMinutes body) in
                    if negb ok then None
                    else if 0 <? duration then Some (Some (now + duration))
                    else Some None
                  else Some None in
                match expiry with
                | None => (db, mkHttp 400 (ErrorText "Invalid duration"), [])
                | Some expiresAt =>
                    match CreatePattern okCreate now db (RequestDeviceID accessReq)
                            (Pattern_ body) type expiresAt with
                    | (db1, inr _) =>
                        (db1, mkHttp 500 (ErrorText "Failed to create pattern"), [])
                    | (db1, inl pattern) =>
                        match Models.ApproveRequest okApprove now db1 id with
                        | (db2, Some _) =>
                            (db2, mkHttp 500 (ErrorText "Failed to update request"), [])
                        | (db2, None) =>
                            (db2, mkHttp 200 (ApprovedJSON pattern),
                             [NotifyDevicePatternUpdate (RequestDeviceID accessReq)])
                        end
                    end
                end
            end
      end
  end.

(** The admin handler [DenyRequest]. *)
Definition DenyRequest (okDeny : bool) (now : Z) (db : DB) (id : option Z)
  : DB * HttpResponse :=
  match id with
  | None => (db, mkHttp 400 (ErrorText "Invalid request ID"))
  | Some id =>
      match Models.DenyRequest okDeny now db id with
      | (db', Some _) => (db', mkHttp 500 (ErrorText "Failed to deny request"))
      | (db', None) => (db', mkHttp 200 SuccessJSON)
      end
  end.

(** *** The scheduler (services package) *)

(** [checkInactiveDevices()]: one tick of the sweep; the threshold is two
    minutes. *)
Definition checkInactiveDevices (okQuery okExec push : bool) (now : Z) (db : DB)
  : DB * list SideEffect :=
  match MarkInactiveDevices okQuery okExec now db (2 * Minute) with
  | (db', inr _) => (db', [])
  | (db', inl deviceNames) =>
      (db', if push then map (fun name => NotifyDeviceStatus name "inactive") deviceNames
            else [])
  end.

(** *** Device-facing operations as events *)

(** The operations a device (or the scheduler on its behalf) triggers, each
    with the instant of the call and the flags of its statements. *)
Inductive DeviceOp : Type :=
| OpHeartbeat (okLookup okExec : bool) (now : Z) (bearer : AuthHeader)
| OpConnect (okLookup upgradeOk okExec : bool) (now : Z) (token : string) (conn : positive)
| OpPong (okExec : bool) (now : Z) (client : Hub.Client)
| OpUninstall (okLookup okExec : bool) (method : Method) (token : string)
| OpSweep (okQuery okExec : bool) (now : Z).

Definition applyOp (push : bool) (db : DB) (op : DeviceOp) : DB * list SideEffect :=
  match op with
  | OpHeartbeat okLookup okExec now bearer =>
      (fst (heartbeatRoute okLookup okExec now db bearer), [])
  | OpConnect okLookup upgradeOk okExec now token conn =>
      (fst (HandleWebSocket okLookup upgradeOk okExec now db token conn), [])
  | OpPong okExec now client => (pongHandler okExec now db client, [])
  | OpUninstall okLookup okExec method token =>
      let '(db', _, effects) := uninstallRoute okLookup okExec push db method token in
      (db', effects)
  | OpSweep okQuery okExec now => checkInactiveDevices okQuery okExec push now db
  end.


(** The device an operation is about, if it names one that exists. *)
Definition target (db : DB) (op : DeviceOp) : option Z :=
  match op with
  | OpHeartbeat okLookup _ _ bearer =>
      match TokenAuth okLookup db bearer with inl d => Some (ID d) | inr _ => None end
  | OpConnect okLookup _ _ _ token _ =>
      if bool_decide (token = "") then None
      else match GetDeviceByToken okLookup db token with
           | inl d => Some (ID d)
           | inr _ => None
           end
  | OpPong _ _ client => Some (Hub.DeviceID client)
  | OpUninstall okLookup _ _ token =>
      if bool_decide (token = "") then None
      else match GetDeviceByToken okLookup db token with
           | inl d => Some (ID d)
           | inr _ => None
           end
  | OpSweep _ _ _ => None
  end.

(** The heartbeat signals: the explicit call, a fresh session, a pong. *)
Definition isHeartbeatSignal (op : DeviceOp) : bool :=
  match op with
  | OpHeartbeat _ _ _ _ | OpConnect _ _ _ _ _ _ | OpPong _ _ _ => true
  | _ => false
  end.

(** The operation gets as far as its update and the store runs it. *)
Definition executes (op : DeviceOp) : bool :=
  match op with
  | OpHeartbeat _ okExec _ _ => okExec
  | OpConnect _ upgradeOk okExec _ _ _ => upgradeOk && okExec
  | OpPong okExec _ _ => okExec
  | OpUninstall _ okExec _ _ => okExec
  | OpSweep okQuery okExec _ => okQuery && okExec
  end.

(** A heartbeat signal of device [id] that reaches the store. *)
Definition reactivates (db : DB) (op : DeviceOp) (id : Z) : bool :=
  isHeartbeatSignal op && executes op && bool_decide (target db op = Some id).








(** *** Example stores *)

Definition laptop (st : DeviceStatus) : Device :=
  mkDevice 1 "tok-laptop" "laptop" st (Some 0) 0.

Definition tablet : Device := mkDevice 2 "tok-tablet" "tablet" active (Some 1000) 0.

Definition exampleDB (st : DeviceStatus) : DB := mkDB [laptop st; tablet] [] [].




(** *** The specification's sentences on terminal states *)

(** Uninstalled is terminal under every device-facing operation. *)
Definition uninstalledIsTerminal : Prop :=
  ∀ push db op id,
    deviceStatus db id = Some uninstalled →
    deviceStatus (fst (applyOp push db op)) id = Some uninstalled.


End Handlers.

(** ** More of the store: snapshots, pattern and device administration

    [datetime(x)] of SQLite turns an instant into text with whole seconds;
    comparing two such texts compares the instants second by second.  Instants
    are counted in nanoseconds. *)

Module Store.
Import Models.

Definition Second : Z := 1000000000.

Definition datetime (t : Z) : Z := t / Second.

(** [COALESCE(enabled, 1) = 1 AND (expires_at IS NULL OR
    datetime(expires_at) > datetime('now'))] *)
Definition isLive (now : Z) (p : Pattern) : bool :=
  Enabled p
  && match ExpiresAt p with
     | None => true
     | Some e => datetime now <? datetime e
     end.

(** [ORDER BY created_at DESC]: rows with the same timestamp stay in table
    order. *)
Fixpoint insertDesc {A} (key : A -> Z) (x : A) (l : list A) : list A :=
  match l with
  | [] => [x]
  | y :: l' => if key x <? key y then y :: insertDesc key x l' else x :: l
  end.

Definition sortDesc {A} (key : A -> Z) (l : list A) : list A :=
  fold_right (insertDesc key) [] l.

(** [GetPatternsByDevice(deviceID)]: the snapshot of a device. *)
Definition GetPatternsByDevice (ok : bool) (now : Z) (db : DB) (deviceID : Z)
  : list Pattern + error :=
  if ok then
    inl (sortDesc (fun p => datetime (PatternCreatedAt p))
           (List.filter (fun p => (PatternDeviceID p =? deviceID) && isLive now p)
              (patterns db)))
  else inr ErrStore.

(** [GetPatternByID(id)] *)
Definition GetPatternByID (ok : bool) (db : DB) (id : Z) : Pattern + error :=
  if ok then
    match List.find (fun p => PatternID p =? id) (patterns db) with
    | Some p => inl p
    | None => inr ErrNoRows
    end
  else inr ErrStore.

Definition enableRow (enabled : bool) (id : Z) (p : Pattern) : Pattern :=
  if PatternID p =? id
  then mkPattern (PatternID p) (PatternDeviceID p) (PatternText p) (Type_ p) enabled
         (ExpiresAt p) (PatternCreatedAt p)
  else p.

(** [UPDATE patterns SET enabled = ? WHERE id = ?] *)
Definition TogglePatternEnabled (ok : bool) (db : DB) (id : Z) (enabled : bool)
  : DB * option error :=
  if ok then (setPatterns (map (enableRow enabled id) (patterns db)) db, None)
  else (db, Some ErrStore).

(** [DELETE FROM patterns WHERE id = ?] *)
Definition DeletePattern (ok : bool) (db : DB) (id : Z) : DB * option error :=
  if ok then
    (setPatterns (List.filter (fun p => negb (PatternID p =? id)) (patterns db)) db, None)
  else (db, Some ErrStore).

Definition editRow (text : string) (ty : PatternType) (expiresAt : option Z) (id : Z)
    (p : Pattern) : Pattern :=
  if PatternID p =? id
  then mkPattern (PatternID p) (PatternDeviceID p) text ty (Enabled p) expiresAt
         (PatternCreatedAt p)
  else p.

(** [UpdatePattern(id, pattern, patternType, expiresAt)]: the [UPDATE] and
    then [GetPatternByID]; [okGet] is the flag of the second statement. *)
Definition UpdatePattern (ok okGet : bool) (db : DB) (id : Z) (pattern patternType : string)
    (expiresAt : option Z) : DB * (Pattern + error) :=
  if ok then
    match parsePatternType patternType with
    | None =>
        if existsb (fun p => PatternID p =? id) (patterns db)
        then (db, inr ErrConstraint)
        else (db, GetPatternByID okGet db id)
    | Some ty =>
        let db' := setPatterns (map (editRow pattern ty expiresAt id) (patterns db)) db in
        (db', GetPatternByID okGet db' id)
    end
  else (db, inr ErrStore).

(** [CreateDevice(name)]; [token] is what [generateToken(32)] returned,
    [None] when the random source failed: the error is returned as it is,
    and the callers only test [err != nil].  The token column is unique. *)
Definition CreateDevice (ok : bool) (now : Z) (db : DB) (name : string)
    (token : option string) : DB * (Device + error) :=
  match token with
  | None => (db, inr ErrStore)
  | Some token =>
      if ok then
        if existsb (fun d => bool_decide (Token d = token)) (devices db)
        then (db, inr ErrConstraint)
        else
          let d := mkDevice (nextID (map ID (devices db))) token name active (Some now) now in
          (setDevices (devices db ++ [d]) db, inl d)
      else (db, inr ErrStore)
  end.

Definition tokenRow (token : string) (id : Z) (d : Device) : Device :=
  if ID d =? id
  then mkDevice (ID d) token (Name d) (Status d) (LastSeen d) (CreatedAt d)
  else d.

(** [RegenerateDeviceToken(id)]: the [UPDATE] and then [GetDeviceByID]
    ([okGet] is the flag of the second statement). *)
Definition RegenerateDeviceToken (ok okGet : bool) (db : DB) (id : Z)
    (token : option string) : DB * (Device + error) :=
  match token with
  | None => (db, inr ErrStore)
  | Some token =>
      if ok then
        if existsb (fun d => bool_decide (Token d = token) && negb (ID d =? id)) (devices db)
           && existsb (fun d => ID d =? id) (devices db)
        then (db, inr ErrConstraint)
        else
          let db' := setDevices (map (tokenRow token id) (devices db)) db in
          if okGet then
            match GetDeviceByID db' id with
            | Some d => (db', inl d)
            | None => (db', inr ErrNoRows)
            end
          else (db', inr ErrStore)
      else (db, inr ErrStore)
  end.

(** [DELETE FROM devices WHERE id = ?]; the patterns and the requests of
    the device go with it ([ON DELETE CASCADE]). *)
Definition DeleteDevice (ok : bool) (db : DB) (id : Z) : DB * option error :=
  if ok then
    (mkDB (List.filter (fun d => negb (ID d =? id)) (devices db))
          (List.filter (fun p => negb (PatternDeviceID p =? id)) (patterns db))
          (List.filter (fun r => negb (RequestDeviceID r =? id)) (requests db)),
     None)
  else (db, Some ErrStore).

(** [CreateRequest(deviceID, url, suggestedPattern)] *)
Definition CreateRequest (ok : bool) (now : Z) (db : DB) (deviceID : Z)
    (url suggestedPattern : string) : DB * (Request + error) :=
  if ok then
    if existsb (fun d => ID d =? deviceID) (devices db) then
      let r := mkRequest (nextID (map RequestID (requests db))) deviceID url
                 suggestedPattern pending now None in
      (setRequests (requests db ++ [r]) db, inl r)
    else (db, inr ErrConstraint)
  else (db, inr ErrStore).

Definition parseRequestStatus (s : string) : option RequestStatus :=
  if bool_decide (s = "pending") then Some pending
  else if bool_decide (s = "approved") then Some approved
  else if bool_decide (s = "denied") then Some denied
  else None.

(** The device row a request joins with. *)
Definition deviceOf (db : DB) (r : Request) : option Device :=
  List.find (fun d => ID d =? RequestDeviceID r) (devices db).

(** [ListRequests(status)]: each request with the name of its device; an
    empty [status] lists them all. *)
Definition ListRequests (ok : bool) (db : DB) (status : string)
  : list (string * Request) + error :=
  if ok then
    let wanted (r : Request) : bool :=
      if bool_decide (status = "") then true
      else match parseRequestStatus status with
           | Some st => bool_decide (RequestStatus_ r = st)
           | None => false
           end in
    inl (sortDesc (fun nr => datetime (RequestCreatedAt (snd nr)))
           (omap (fun r => if wanted r
                           then (fun d => (Name d, r)) <$> deviceOf db r
                           else None)
              (requests db)))
  else inr ErrStore.

(** The keys of the schema: ids and tokens are unique, every pattern and
    every request belongs to a device of the table. *)
Definition wellKeyed (db : DB) : Prop :=
  NoDup (map ID (devices db))
  ∧ NoDup (map Token (devices db))
  ∧ NoDup (map PatternID (patterns db))
  ∧ NoDup (map RequestID (requests db))
  ∧ (∀ p, In p (patterns db) → In (PatternDeviceID p) (map ID (devices db)))
  ∧ (∀ r, In r (requests db) → In (RequestDeviceID r) (map ID (devices db))).

(** *** Auxiliary notions for the properties *)

(** Pattern [p] is in the snapshot of device [deviceID] taken at [now]. *)
Definition served (now : Z) (db : DB) (deviceID : Z) (p : Pattern) : Prop :=
  ∃ l, GetPatternsByDevice true now db deviceID = inl l ∧ In p l.

(** The statements of the models package on the three tables, as
    operations on a store. *)
Inductive StoreOp : Type :=
| DoCreateDevice (ok : bool) (now : Z) (name : string) (token : option string)
| DoRegenerateDeviceToken (ok okGet : bool) (id : Z) (token : option string)
| DoDeleteDevice (ok : bool) (id : Z)
| DoUpdateDeviceHeartbeat (ok : bool) (now deviceID : Z)
| DoUpdateDeviceStatus (ok : bool) (deviceID : Z) (status : string)
| DoMarkInactiveDevices (okQuery okExec : bool) (now threshold : Z)
| DoCreatePattern (ok : bool) (now deviceID : Z) (pattern patternType : string)
    (expiresAt : option Z)
| DoUpdatePattern (ok okGet : bool) (id : Z) (pattern patternType : string)
    (expiresAt : option Z)
| DoTogglePatternEnabled (ok : bool) (id : Z) (enabled : bool)
| DoDeletePattern (ok : bool) (id : Z)
| DoCreateRequest (ok : bool) (now deviceID : Z) (url suggestedPattern : string)
| DoApproveRequest (ok : bool) (now id : Z)
| DoDenyRequest (ok : bool) (now id : Z).

Definition exec (db : DB) (op : StoreOp) : DB :=
  match op with
  | DoCreateDevice ok now name token => fst (CreateDevice ok now db name token)
  | DoRegenerateDeviceToken ok okGet id token =>
      fst (RegenerateDeviceToken ok okGet db id token)
  | DoDeleteDevice ok id => fst (DeleteDevice ok db id)
  | DoUpdateDeviceHeartbeat ok now deviceID => fst (UpdateDeviceHeartbeat ok now db deviceID)
  | DoUpdateDeviceStatus ok deviceID status => fst (UpdateDeviceStatus ok db deviceID status)
  | DoMarkInactiveDevices okQuery okExec now threshold =>
      fst (MarkInactiveDevices okQuery okExec now db threshold)
  | DoCreatePattern ok now deviceID pattern patternType expiresAt =>
      fst (CreatePattern ok now db deviceID pattern patternType expiresAt)
  | DoUpdatePattern ok okGet id pattern patternType expiresAt =>
      fst (UpdatePattern ok okGet db id pattern patternType expiresAt)
  | DoTogglePatternEnabled ok id enabled => fst (TogglePatternEnabled ok db id enabled)
  | DoDeletePattern ok id => fst (DeletePattern ok db id)
  | DoCreateRequest ok now deviceID url suggestedPattern =>
      fst (CreateRequest ok now db deviceID url suggestedPattern)
  | DoApproveRequest ok now id => fst (ApproveRequest ok now db id)
  | DoDenyRequest ok now id => fst (DenyRequest ok now db id)
  end.

(** The store after the migrations, and the stores the operations reach
    from it. *)
Definition emptyDB : DB := mkDB [] [] [].

Definition reached (ops : list StoreOp) : DB := fold_left exec ops emptyDB.

(** An example: two devices, a permanent deny rule and an allow rule that
    expires after ten seconds for the first, one rule for the second. *)
Definition phone : Device := mkDevice 1 "tok-phone" "phone" active (Some 0) 0.

Definition desktop : Device := mkDevice 2 "tok-desktop" "desktop" active (Some 0) 0.

Definition denyAds : Pattern := mkPattern 1 1 "ads.example/*" denyType true None 0.

Definition allowNews : Pattern :=
  mkPattern 2 1 "news.example/*" allowType true (Some (10 * Second)) (2 * Second).

Definition allowDocs : Pattern := mkPattern 3 2 "docs.example/*" allowType true None 0.

Definition askNews : Request :=
  mkRequest 1 1 "http://news.example/today" "news.example/*" pending 0 None.

Definition exampleStore : DB :=
  mkDB [phone; desktop] [denyAds; allowNews; allowDocs] [askNews].

End Store.

(** ** The other handlers: patterns, devices, access requests *)

Module Admin.
Import Models Handlers.

(** What a handler writes: [http.Error(w, msg, status)], or a status and a
    JSON payload. *)
Inductive Reply (A : Type) : Type :=
| Refuse (status : Z) (msg : string)
| Answer (status : Z) (payload : A).

Arguments Refuse {A} status msg.
Arguments Answer {A} status payload.

Definition code {A} (r : Reply A) : Z :=
  match r with
  | Refuse status _ => status
  | Answer status _ => status
  end.

(** [go services.Push.NotifyNewRequest(deviceName, url)] *)
Inductive PushNotice : Type :=
| NotifyNewRequest (deviceName url : string).

(** *** The [Authorization] header *)

(** [strings.SplitN(s, " ", 2)] when it has two parts: the text before the
    first space and the text after it. *)
Fixpoint cut (s : string) : option (string * string) :=
  match s with
  | EmptyString => None
  | String c r =>
      if Ascii.eqb c " "%char then Some (EmptyString, r)
      else match cut r with
           | Some (a, b) => Some (String c a, b)
           | None => None
           end
  end.

Definition lowerByte (c : ascii) : ascii :=
  let n := nat_of_ascii c in
  if (65 <=? n)%nat && (n <=? 90)%nat then ascii_of_nat (n + 32) else c.

(** [strings.ToLower] on the bytes of the ASCII range; no character outside
    it has a lower case among the letters of [bearer], so that the comparison
    below is the one of the source on every input. *)
Fixpoint ToLower (s : string) : string :=
  match s with
  | EmptyString => EmptyString
  | String c r => String (lowerByte c) (ToLower r)
  end.

(** The first lines of [TokenAuth]: from the header value to the three cases
    [Handlers.TokenAuth] distinguishes. *)
Definition readAuthorization (authHeader : string) : AuthHeader :=
  if bool_decide (authHeader = "") then HeaderMissing
  else
    match cut authHeader with
    | Some (scheme, token) =>
        if bool_decide (ToLower scheme = "bearer") then Bearer token
        else HeaderMalformed
    | None => HeaderMalformed
    end.

(** *** Patterns *)

(** The block that computes [expiresAt] in the pattern handlers; [None] is
    the refusal [Invalid duration]. *)
Definition expiryFor (now : Z) (duration : string) (customMinutes : Z)
  : option (option Z) :=
  if negb (bool_decide (duration = "")) && negb (bool_decide (duration = "permanent"))
  then
    let '(d, ok) := parseDuration duration customMinutes in
    if negb ok then None
    else if 0 <? d then Some (Some (now + d))
    else Some None
  else Some None.

(** [GetPatterns]: the snapshot of the authenticated device. *)
Definition GetPatterns (okQuery : bool) (now : Z) (db : DB) (device : option Device)
  : Reply (list Pattern) :=
  match device with
  | None => Refuse 401 "Device not found"
  | Some device =>
      match Store.GetPatternsByDevice okQuery now db (ID device) with
      | inr _ => Refuse 500 "Failed to get patterns"
      | inl patterns => Answer 200 patterns
      end
  end.

(** The route [GET /api/patterns]: [TokenAuth(GetPatterns)]. *)
Definition patternsRoute (okLookup okQuery : bool) (now : Z) (db : DB)
    (authHeader : string) : Reply (list Pattern) :=
  match TokenAuth okLookup db (readAuthorization authHeader) with
  | inl device => GetPatterns okQuery now db (Some device)
  | inr resp =>
      Refuse (status resp) (match body resp with ErrorText msg => msg | _ => "" end)
  end.

Record CreatePatternRequest : Type := mkCreatePattern {
  ReqDeviceID : Z;
  ReqPattern : string;
  ReqType : string;
  ReqDuration : string;
  ReqCustomMinutes : Z
}.

(** [CreatePattern]; [req] is the decoded body, [None] when decoding
    fails. *)
Definition CreatePattern (okCreate : bool) (now : Z) (db : DB)
    (req : option CreatePatternRequest) : DB * Reply Pattern * list SideEffect :=
  match req with
  | None => (db, Refuse 400 "Invalid request body", [])
  | Some req =>
      if bool_decide (ReqPattern req = "") || bool_decide (ReqType req = "")
         || (ReqDeviceID req =? 0)
      then (db, Refuse 400 "Missing required fields", [])
      else if negb (bool_decide (ReqType req = "allow"))
              && negb (bool_decide (ReqType req = "deny"))
      then (db, Refuse 400 "Invalid pattern type", [])
      else
        match expiryFor now (ReqDuration req) (ReqCustomMinutes req) with
        | None => (db, Refuse 400 "Invalid duration", [])
        | Some expiresAt =>
            match Models.CreatePattern okCreate now db (ReqDeviceID req) (ReqPattern req)
                    (ReqType req) expiresAt with
            | (db1, inr _) => (db1, Refuse 500 "Failed to create pattern", [])
            | (db1, inl pattern) =>
                (db1, Answer 201 pattern, [NotifyDevicePatternUpdate (ReqDeviceID req)])
            end
        end
  end.

Record UpdatePatternRequest : Type := mkUpdatePattern {
  UpdPattern : string;
  UpdType : string;
  UpdDuration : string;
  UpdCustomMinutes : Z
}.

(** [UpdatePattern]: the flags are the lookup, the [UPDATE] and the final
    lookup. *)
Definition UpdatePattern (okFind okUpdate okGet : bool) (now : Z) (db : DB)
    (id : option Z) (req : option UpdatePatternRequest)
  : DB * Reply Pattern * list SideEffect :=
  match id with
  | None => (db, Refuse 400 "Invalid pattern ID", [])
  | Some id =>
      match Store.GetPatternByID okFind db id with
      | inr _ => (db, Refuse 404 "Pattern not found", [])
      | inl existingPattern =>
          match req with
          | None => (db, Refuse 400 "Invalid request body", [])
          | Some req =>
              if bool_decide (UpdPattern req = "") || bool_decide (UpdType req = "")
              then (db, Refuse 400 "Missing required fields", [])
              else if negb (bool_decide (UpdType req = "allow"))
                      && negb (bool_decide (UpdType req = "deny"))
              then (db, Refuse 400 "Invalid pattern type", [])
              else
                match expiryFor now (UpdDuration req) (UpdCustomMinutes req) with
                | None => (db, Refuse 400 "Invalid duration", [])
                | Some expiresAt =>
                    match Store.UpdatePattern okUpdate okGet db id (UpdPattern req)
                            (UpdType req) expiresAt with
                    | (db1, inr _) => (db1, Refuse 500 "Failed to update pattern", [])
                    | (db1, inl pattern) =>
                        (db1, Answer 200 pattern,
                         [NotifyDevicePatternUpdate (PatternDeviceID existingPattern)])
                    end
                end
          end
      end
  end.

(** [DeletePattern] *)
Definition DeletePattern (okFind okDelete : bool) (db : DB) (id : option Z)
  : DB * Reply unit * list SideEffect :=
  match id with
  | None => (db, Refuse 400 "Invalid pattern ID", [])
  | Some id =>
      match Store.GetPatternByID okFind db id with
      | inr _ => (db, Refuse 404 "Pattern not found", [])
      | inl pattern =>
          let deviceID := PatternDeviceID pattern in
          match Store.DeletePattern okDelete db id with
          | (db1, Some _) => (db1, Refuse 500 "Failed to delete pattern", [])
          | (db1, None) => (db1, Answer 200 tt, [NotifyDevicePatternUpdate deviceID])
          end
      end
  end.

(** [TogglePattern]; [req] is the decoded [enabled] field. *)
Definition TogglePattern (okToggle okGet : bool) (db : DB) (id : option Z)
    (req : option bool) : DB * Reply Pattern * list SideEffect :=
  match id with
  | None => (db, Refuse 400 "Invalid pattern ID", [])
  | Some id =>
      match req with
      | None => (db, Refuse 400 "Invalid request body", [])
      | Some enabled =>
          match Store.TogglePatternEnabled okToggle db id enabled with
          | (db1, Some _) => (db1, Refuse 500 "Failed to update pattern", [])
          | (db1, None) =>
              match Store.GetPatternByID okGet db1 id with
              | inr _ => (db1, Refuse 500 "Failed to get pattern", [])
              | inl pattern =>
                  (db1, Answer 200 pattern,
                   [NotifyDevicePatternUpdate (PatternDeviceID pattern)])
              end
          end
      end
  end.

(** *** Devices *)

(** [CreateDevice]; [req] is the decoded [name], [token] the outcome of
    [generateToken]. *)
Definition CreateDevice (okCreate : bool) (now : Z) (db : DB) (req : option string)
    (token : option string) : DB * Reply Device :=
  match req with
  | None => (db, Refuse 400 "Invalid request body")
  | Some name =>
      if bool_decide (name = "") then (db, Refuse 400 "Device name is required")
      else
        match Store.CreateDevice okCreate now db name token with
        | (db1, inr _) => (db1, Refuse 500 "Failed to create device")
        | (db1, inl device) => (db1, Answer 201 device)
        end
  end.

(** [DeleteDevice] *)
Definition DeleteDevice (okDelete : bool) (db : DB) (id : option Z) : DB * Reply unit :=
  match id with
  | None => (db, Refuse 400 "Invalid device ID")
  | Some id =>
      match Store.DeleteDevice okDelete db id with
      | (db1, Some _) => (db1, Refuse 500 "Failed to delete device")
      | (db1, None) => (db1, Answer 200 tt)
      end
  end.

(** [RegenerateDeviceToken] *)
Definition RegenerateDeviceToken (okUpdate okGet : bool) (db : DB) (id : option Z)
    (token : option string) : DB * Reply Device :=
  match id with
  | None => (db, Refuse 400 "Invalid device ID")
  | Some id =>
      match Store.RegenerateDeviceToken okUpdate okGet db id token with
      | (db1, inr _) => (db1, Refuse 500 "Failed to regenerate token")
      | (db1, inl device) => (db1, Answer 200 device)
      end
  end.

(** *** Access requests *)

Record AccessRequest : Type := mkAccessRequest {
  ReqURL : string;
  ReqSuggestedPattern : string
}.

(** [CreateRequest]; [push] is whether [services.Push] is set. *)
Definition CreateRequest (okCreate push : bool) (now : Z) (db : DB)
    (device : option Device) (req : option AccessRequest)
  : DB * Reply Request * list PushNotice :=
  match device with
  | None => (db, Refuse 401 "Device not found", [])
  | Some device =>
      match req with
      | None => (db, Refuse 400 "Invalid request body", [])
      | Some req =>
          if bool_decide (ReqURL req = "") then (db, Refuse 400 "URL is required", [])
          else
            match Store.CreateRequest okCreate now db (ID device) (ReqURL req)
                    (ReqSuggestedPattern req) with
            | (db1, inr _) => (db1, Refuse 500 "Failed to create request", [])
            | (db1, inl accessReq) =>
                (db1, Answer 201 accessReq,
                 if push then [NotifyNewRequest (Name device) (ReqURL req)] else [])
            end
      end
  end.

(** *** The push service *)

(** [truncateURL]: the first [n] bytes of a string, and the function. *)
Fixpoint firstBytes (n : nat) (s : string) : string :=
  match n, s with
  | S n', String c r => String c (firstBytes n' r)
  | _, _ => EmptyString
  end.

Definition truncateURL (url : string) : string :=
  if (50 <? String.length url)%nat then firstBytes 47 url +:+ "..." else url.

End Admin.

(** ** Sending to the sessions of a device (hub and connection handler) *)

Module Delivery.
Import Models Hub.

(** The [Send] channels: what is buffered for each client.  A channel holds
    at most [capacity] messages ([make(chan []byte, 256)]). *)
Abbreviation Queues A := (gmap Client (list A)).

Definition capacity : nat := 256.

Definition buffered {A} (q : Queues A) (client : Client) : list A :=
  default [] (q !! client).

(** [select { case client.Send <- data: default: }]; [None] is the panic
    of a send on a closed channel. *)
Definition offer {A} (h : Hub) (data : A) (client : Client) (q : option (Queues A))
  : option (Queues A) :=
  match q with
  | None => None
  | Some q =>
      if decide (client ∈ closed h) then None
      else if (length (buffered q client) <? capacity)%nat
      then Some (<[client := buffered q client ++ [data]]> q)
      else Some q
  end.

(** [SendToDevice(deviceID, message)]; [data] is the marshalled message,
    [None] when [json.Marshal] fails. *)
Definition SendToDevice {A} (h : Hub) (q : Queues A) (deviceID : Z) (data : option A)
  : option (Queues A) :=
  match data with
  | None => Some q
  | Some data =>
      match clients h !! deviceID with
      | None => Some q
      | Some sessions => set_fold (offer h data) (Some q) sessions
      end
  end.

(** One round of [writePump] on a channel that has something: the first
    message and all the queued ones leave as one frame. *)
Definition writePump {A} (q : Queues A) (client : Client) : option (list A) * Queues A :=
  match buffered q client with
  | [] => (None, q)
  | frame => (Some frame, <[client := []]> q)
  end.

(** A [websocket.Message] whose data is [{"patterns": patterns}]. *)
Record Message : Type := mkMessage {
  MessageType : string;
  MessageData : list Pattern
}.

(** [NotifyDevicePatternUpdate(deviceID)]; [hub] is [DefaultHub], [None]
    when it is not set. *)
Definition NotifyDevicePatternUpdate (okQuery : bool) (now : Z) (db : DB)
    (hub : option Hub) (q : Queues Message) (deviceID : Z) : option (Queues Message) :=
  match hub with
  | None => Some q
  | Some h =>
      match Store.GetPatternsByDevice okQuery now db deviceID with
      | inr _ => Some q
      | inl patterns =>
          SendToDevice h q deviceID (Some (mkMessage "patterns_updated" patterns))
      end
  end.

(** The JSON of a pattern as the agent reads it: the fields [pattern] and
    [type]. *)
Definition typeText (ty : PatternType) : string :=
  match ty with
  | allowType => "allow"
  | denyType => "deny"
  end.

Definition patternObj (p : Pattern) : Agent.PatternObj :=
  Agent.mkPatternObj (Js.str (PatternText p)) (Js.str (typeText (Type_ p))).

(** The message the agent has after [JSON.parse], and the data of the
    answer to [GET /api/patterns]. *)
Definition parsed (m : Message) : Agent.Message :=
  Agent.mkMessage (Js.str (MessageType m))
    (Some (Agent.mkSnapshot (Some (map patternObj (MessageData m))))).

Definition polled (patterns : list Pattern) : Agent.Response :=
  Agent.mkResponse true (Some (Agent.mkSnapshot (Some (map patternObj patterns)))).

(** [JSON.parse(event.data)] on a frame: the text of one marshalled message
    parses to that message; the texts of several messages separated by
    newlines are not one JSON value, and the parser throws. *)
Definition parseFrame (frame : list Message) : option Agent.Message :=
  match frame with
  | [m] => Some (parsed m)
  | _ => None
  end.

(** The pattern texts of one type, in order. *)
Definition textsOf (ty : PatternType) (patterns : list Pattern) : list Js.jsstring :=
  map (fun p => Js.str (PatternText p))
      (List.filter (fun p => bool_decide (Type_ p = ty)) patterns).

End Delivery.

(** ** The agent: access requests and the socket address *)

Module AgentRequest.
Import Js Agent.

(** The request [submitRequest] posts. *)
Inductive Post : Type :=
| PostRequest (api tok url suggested_pattern : jsstring).

Section WithPlatform.

(** [new URL(url)] and [encodeURIComponent], the platform's. *)
Variable URL : jsstring -> option ParsedURL.
Variable encodeURIComponent : jsstring -> jsstring.

(** [submitRequest(url)]: the returned flag and the request issued. *)
Definition submitRequest (resp : option Response) (st : State) (url : jsstring)
  : bool * list Post :=
  let config := getConfig st in
  if negb (truthy (token config)) || negb (truthy (apiUrl config)) then (false, [])
  else
    match URL url with
    | None => (false, [])
    | Some parsed =>
        let suggestedPattern := hostname parsed ++ str "/*" in
        let sent := [PostRequest (apiUrl config) (token config) url suggestedPattern] in
        match resp with
        | None => (false, sent)
        | Some response => if negb (respOk response) then (false, sent) else (true, sent)
        end
    end.

(** [extractDomain(url)] of the blocked page. *)
Definition extractDomain (url : jsstring) : jsstring :=
  match URL url with
  | Some parsed => hostname parsed ++ str "/*"
  | None => url
  end.

(** [apiUrl.replace(/^http/, 'ws')] *)
Definition replaceScheme (apiUrl : jsstring) : jsstring :=
  if startsWith apiUrl (str "http") then str "ws" ++ drop 4 apiUrl else apiUrl.

(** The address [connectWebSocket] opens. *)
Definition wsUrl (config : Config) : jsstring :=
  replaceScheme (apiUrl config) ++ str "/api/ws?token=" ++ encodeURIComponent (token config).

End WithPlatform.

End AgentRequest.

(** * Properties *)

(** ** The hub registry *)

Module HubFacts.
Import Hub.

Lemma live_cons L op ops : live L (op :: ops) = live (liveStep L op) ops.
Proof. destruct op; reflexivity. Qed.

Lemma registered_insert h id d S c cl :
  clients h = cl →
  registered (mkHub (<[d := S]> cl) (closed h)) id c ↔
  (id = d ∧ c ∈ S) ∨ (id ≠ d ∧ registered h id c).
Proof.
  intros <-. unfold registered; simpl. split.
  - intros (s & Hs & Hc). destruct (decide (id = d)) as [->|Hne].
    + rewrite lookup_insert_eq in Hs. left. naive_solver.
    + rewrite lookup_insert_ne in Hs by done. right. naive_solver.
  - intros [[-> Hc] | [Hne (s & Hs & Hc)]].
    + exists S. rewrite lookup_insert_eq. done.
    + exists s. rewrite lookup_insert_ne by done. done.
Qed.

Lemma step_register_preserves h c L :
  nonEmptyEntries h → tracks h L →
  ∃ h', step h (Register c) = Some h' ∧ nonEmptyEntries h' ∧ tracks h' ({[c]} ∪ L)
        ∧ closed h' = closed h.
Proof.
  intros Hinv Htr. eexists. split; [reflexivity|]. split; [|split; [|reflexivity]].
  - intros id s. simpl. destruct (decide (id = DeviceID c)) as [->|Hne].
    + rewrite lookup_insert_eq. intros [= <-]. set_solver.
    + rewrite lookup_insert_ne by done. apply Hinv.
  - intros id x.
    pose proof (registered_insert h id (DeviceID c)
                  ({[c]} ∪ default ∅ (clients h !! DeviceID c)) x (clients h) eq_refl) as Hri.
    simpl in Hri. unfold step. rewrite Hri. clear Hri. split.
    + intros [[-> Hx] | [Hne Hr]].
      * apply elem_of_union in Hx as [Hx | Hx].
        -- apply elem_of_singleton in Hx as ->. split; [set_solver | done].
        -- assert (registered h (DeviceID c) x) as Hr.
           { destruct (clients h !! DeviceID c) as [s|] eqn:E; simpl in Hx; [|set_solver].
             exists s. done. }
           apply Htr in Hr as [? ?]. split; [set_solver | done].
      * apply Htr in Hr as [? ?]. split; [set_solver | done].
    + intros [Hx Hid]. destruct (decide (id = DeviceID c)) as [->|Hne].
      * left. split; [done|]. apply elem_of_union in Hx as [Hx | Hx]; [set_solver|].
        assert (registered h (DeviceID c) x) as (s & Hs & Hxs) by (apply Htr; done).
        rewrite Hs. simpl. set_solver.
      * right. split; [done|]. apply Htr. split; [|done].
        apply elem_of_union in Hx as [Hx | Hx]; [|done].
        apply elem_of_singleton in Hx as ->. congruence.
Qed.

Lemma step_unregister_preserves h c L h' :
  nonEmptyEntries h → tracks h L → step h (Unregister c) = Some h' →
  nonEmptyEntries h' ∧ tracks h' (L ∖ {[c]}) ∧ closed h' ⊆ {[c]} ∪ closed h.
Proof.
  intros Hinv Htr Hstep. unfold step in Hstep.
  assert (Hnot : (∀ s, clients h !! DeviceID c = Some s → c ∉ s) →
                 tracks h (L ∖ {[c]})).
  { intros Hno id x. rewrite (Htr id x). split; [|set_solver].
    intros [Hx Hid]. split; [|done]. apply elem_of_difference. split; [done|].
    intros ->%elem_of_singleton.
    assert (registered h id c) as (s & Hs & Hc) by (apply Htr; done).
    subst id. exact (Hno s Hs Hc). }
  destruct (clients h !! DeviceID c) as [s|] eqn:E.
  2:{ injection Hstep as <-. split; [done|]. split; [|set_solver].
      apply Hnot. intros ? [=]. }
  destruct (decide (c ∈ s)) as [Hin|Hnin].
  2:{ injection Hstep as <-. split; [done|]. split; [|set_solver].
      apply Hnot. intros ? [= <-]. done. }
  destruct (decide (c ∈ closed h)); [discriminate|].
  assert (Hmem : ∀ id x, (id = DeviceID c ∧ x ∈ s ∖ {[c]}) ∨ (id ≠ DeviceID c ∧ registered h id x)
                         ↔ x ∈ L ∖ {[c]} ∧ DeviceID x = id).
  { intros id x. split.
    - intros [[-> Hx] | [Hne Hr]].
      + apply elem_of_difference in Hx as [Hx Hxc].
        assert (registered h (DeviceID c) x) as Hr by (exists s; done).
        apply Htr in Hr as [? ?]. split; [set_solver | done].
      + apply Htr in Hr as [? ?]. split; [|done].
        apply elem_of_difference. split; [done|]. intros ->%elem_of_singleton. done.
    - intros [Hx Hid]. apply elem_of_difference in Hx as [Hx Hxc].
      assert (registered h id x) as Hr by (apply Htr; done).
      destruct (decide (id = DeviceID c)) as [->|Hne]; [left | right; done].
      split; [done|]. destruct Hr as (s' & Hs' & Hxs'). rewrite E in Hs'.
      injection Hs' as <-. set_solver. }
  destruct (decide (size (s ∖ {[c]}) = 0%nat)) as [Hz|Hnz]; injection Hstep as <-.
  - apply size_empty_inv in Hz. apply leibniz_equiv in Hz.
    split; [|split; [|simpl; set_solver]].
    + intros id s'. simpl. destruct (decide (id = DeviceID c)) as [->|Hne].
      * rewrite lookup_delete_eq. done.
      * rewrite lookup_delete_ne by done. apply Hinv.
    + intros id x. rewrite <- Hmem. unfold registered at 1; simpl. split.
      * intros (s' & Hs' & Hx). destruct (decide (id = DeviceID c)) as [->|Hne].
        -- rewrite lookup_delete_eq in Hs'. done.
        -- rewrite lookup_delete_ne in Hs' by done. right. split; [done|]. exists s'. done.
      * intros [[-> Hx] | [Hne (s' & Hs' & Hx)]]; [rewrite Hz in Hx; set_solver|].
        exists s'. rewrite lookup_delete_ne by done. done.
  - split; [|split; [|simpl; set_solver]].
    + intros id s'. simpl. destruct (decide (id = DeviceID c)) as [->|Hne].
      * rewrite lookup_insert_eq. intros [= <-] Hemp. apply Hnz. rewrite Hemp.
        apply size_empty.
      * rewrite lookup_insert_ne by done. apply Hinv.
    + intros id x. rewrite <- Hmem.
      apply (registered_insert h id (DeviceID c) (s ∖ {[c]}) x (clients h) eq_refl).
Qed.

Lemma run_preserves ops : ∀ h L h',
  nonEmptyEntries h → tracks h L → run h ops = Some h' →
  nonEmptyEntries h' ∧ tracks h' (live L ops).
Proof.
  induction ops as [|op ops IH]; intros h L h' Hinv Htr Hrun.
  - injection Hrun as <-. done.
  - simpl in Hrun. destruct (step h op) as [h1|] eqn:Hs; [|discriminate].
    rewrite live_cons. destruct op as [c|c].
    + destruct (step_register_preserves h c L Hinv Htr) as (h2 & Hs2 & Hinv2 & Htr2 & _).
      rewrite Hs in Hs2. injection Hs2 as <-. exact (IH _ _ _ Hinv2 Htr2 Hrun).
    + destruct (step_unregister_preserves h c L h1 Hinv Htr Hs) as (Hinv1 & Htr1 & _).
      exact (IH _ _ _ Hinv1 Htr1 Hrun).
Qed.

Lemma run_no_panic ops : ∀ h L gone,
  nonEmptyEntries h → tracks h L → closed h ⊆ gone → L ## gone →
  fresh gone ops = true → is_Some (run h ops).
Proof.
  induction ops as [|op ops IH]; intros h L gone Hinv Htr Hcl Hdis Hfresh; [by eexists|].
  destruct op as [c|c]; simpl in Hfresh.
  - apply andb_true_iff in Hfresh as [Hc Hfresh]. apply bool_decide_eq_true in Hc.
    destruct (step_register_preserves h c L Hinv Htr) as (h2 & Hs2 & Hinv2 & Htr2 & Hcl2).
    simpl run. unfold step in Hs2. simpl. injection Hs2 as <-.
    apply (IH _ ({[c]} ∪ L) gone); [done | done | simpl; done | set_solver | done].
  - destruct (step h (Unregister c)) as [h1|] eqn:Hs.
    + destruct (step_unregister_preserves h c L h1 Hinv Htr Hs) as (Hinv1 & Htr1 & Hcl1).
      simpl run. simpl in Hs. rewrite Hs.
      apply (IH _ (L ∖ {[c]}) ({[c]} ∪ gone)); [done | done | set_solver | set_solver | done].
    + exfalso. unfold step in Hs.
      destruct (clients h !! DeviceID c) as [s|] eqn:E; [|discriminate].
      destruct (decide (c ∈ s)) as [Hin|]; [|discriminate].
      destruct (decide (c ∈ closed h)) as [Hc|].
      * assert (registered h (DeviceID c) c) as Hr by (exists s; done).
        apply Htr in Hr as [? _]. set_solver.
      * destruct (decide (size (s ∖ {[c]}) = 0%nat)); discriminate.
Qed.

Lemma NewHub_nonEmpty : nonEmptyEntries NewHub.
Proof. intros id s. unfold NewHub; simpl. rewrite lookup_empty. done. Qed.

Lemma NewHub_tracks : tracks NewHub ∅.
Proof.
  intros id c. unfold registered, NewHub; simpl. split.
  - intros (s & Hs & _). rewrite lookup_empty in Hs. done.
  - set_solver.
Qed.

Lemma connected_iff h L id :
  nonEmptyEntries h → tracks h L →
  IsDeviceConnected h id = true ↔ ∃ c, c ∈ L ∧ DeviceID c = id.
Proof.
  intros Hinv Htr. unfold IsDeviceConnected. rewrite bool_decide_eq_true. split.
  - intros [s Hs]. pose proof (Hinv id s Hs) as Hne.
    apply set_choose_L in Hne as [c Hc]. exists c. apply Htr. exists s. done.
  - intros (c & Hc & Hid). assert (registered h id c) as (s & Hs & _) by (apply Htr; done).
    by eexists.
Qed.

(** C10. After any sequence of register and unregister operations processed
    from a new hub, every device id in the registry is mapped to a non-empty
    session set, [IsDeviceConnected] answers true exactly for the ids of the
    sessions still registered, and unregistering the only session of a device
    drops the device's entry and closes the session's send queue; when no
    client is registered again after its removal the loop never panics. *)
Theorem hub_registry_invariant (ops : list Op) :
  (∀ h, run NewHub ops = Some h →
     nonEmptyEntries h
     ∧ (∀ id, IsDeviceConnected h id = true ↔ ∃ c, c ∈ live ∅ ops ∧ DeviceID c = id)
     ∧ (∀ c, clients h !! DeviceID c = Some {[c]} → c ∉ closed h →
          ∃ h', step h (Unregister c) = Some h'
                ∧ clients h' !! DeviceID c = None
                ∧ IsDeviceConnected h' (DeviceID c) = false
                ∧ c ∈ closed h'))
  ∧ (fresh ∅ ops = true → is_Some (run NewHub ops)).
Proof.
  split.
  - intros h Hrun.
    destruct (run_preserves ops NewHub ∅ h NewHub_nonEmpty NewHub_tracks Hrun) as [Hinv Htr].
    split; [exact Hinv|]. split; [intros id; exact (connected_iff h _ id Hinv Htr)|].
    intros c Hc Hncl. unfold step. rewrite Hc.
    destruct (decide (c ∈ ({[c]} : gset Client))) as [_|Hn]; [|set_solver].
    destruct (decide (c ∈ closed h)); [done|].
    destruct (decide (size (({[c]} : gset Client) ∖ {[c]}) = 0%nat)) as [_|Hn].
    + eexists. split; [reflexivity|]. simpl. rewrite lookup_delete_eq.
      split; [done|]. split; [|set_solver].
      unfold IsDeviceConnected; simpl. rewrite lookup_delete_eq.
      apply bool_decide_eq_false. intros [? ?]. done.
    + exfalso. apply Hn. replace (({[c]} : gset Client) ∖ {[c]}) with (∅ : gset Client) by set_solver.
      apply size_empty.
  - intros Hfresh.
    apply (run_no_panic ops NewHub ∅ ∅ NewHub_nonEmpty NewHub_tracks); [done | set_solver | done].
Qed.

(** Two sessions of device 7 and one of device 9; the first session of 7 and
    the only session of 9 go away: 7 stays connected, 9 does not. *)
Lemma hub_registry_invariant_witness :
  ∃ h, run NewHub exampleOps = Some h
       ∧ nonEmptyEntries h
       ∧ IsDeviceConnected h 7 = true.
Proof.
  destruct (hub_registry_invariant exampleOps) as [Hinv Hrun].
  destruct (Hrun eq_refl) as [h Hh].
  exists h. destruct (Hinv h Hh) as (H1 & H2 & _).
  split; [exact Hh|]. split; [exact H1|].
  apply H2. exists (mkClient 2 7). split; [|reflexivity].
  unfold exampleOps. simpl. set_solver.
Defined.

End HubFacts.

(** ** The store and the handlers *)

Module BackendFacts.
Import Models Handlers.

Ltac status_done :=
  repeat match goal with b : bool |- _ => destruct b end;
  simpl in *; repeat case_bool_decide; simpl in *; congruence.

Lemma find_map_rows (f : Device → Device) (id : Z) (l : list Device) :
  (∀ r, ID (f r) = ID r) →
  List.find (fun d => ID d =? id) (map f l) = f <$> List.find (fun d => ID d =? id) l.
Proof.
  intros Hf. induction l as [|r l IH]; [reflexivity|].
  simpl. rewrite Hf. destruct (ID r =? id); [reflexivity | exact IH].
Qed.

Lemma GetDeviceByID_ID db id d : GetDeviceByID db id = Some d → ID d = id.
Proof.
  unfold GetDeviceByID. intros H. apply find_some in H as [_ H]. lia.
Qed.

Lemma heartbeatRow_ID now t r : ID (heartbeatRow now t r) = ID r.
Proof. unfold heartbeatRow. destruct (ID r =? t); reflexivity. Qed.

Lemma statusRow_ID st t r : ID (statusRow st t r) = ID r.
Proof. unfold statusRow. destruct (ID r =? t); reflexivity. Qed.

Lemma inactiveRow_ID c r : ID (inactiveRow c r) = ID r.
Proof. unfold inactiveRow. destruct (isStale c r); reflexivity. Qed.

Lemma deviceStatus_map db f id :
  (∀ r, ID (f r) = ID r) →
  deviceStatus (setDevices (map f (devices db)) db) id
  = (fun d => Status (f d)) <$> GetDeviceByID db id.
Proof.
  intros Hf. unfold deviceStatus, GetDeviceByID. simpl.
  rewrite (find_map_rows f id _ Hf). destruct (List.find _ _); reflexivity.
Qed.

(** The status after the heartbeat statement. *)
Lemma heartbeat_status ok now db t id st :
  deviceStatus db id = Some st →
  deviceStatus (fst (UpdateDeviceHeartbeat ok now db t)) id
  = Some (if ok && bool_decide (t = id) then active else st).
Proof.
  intros Hst. unfold UpdateDeviceHeartbeat. destruct ok; simpl; [|exact Hst].
  rewrite (deviceStatus_map db _ id (heartbeatRow_ID now t)).
  unfold deviceStatus in Hst. destruct (GetDeviceByID db id) as [d|] eqn:E; [|discriminate].
  injection Hst as <-. simpl. f_equal. pose proof (GetDeviceByID_ID _ _ _ E) as Hid.
  unfold heartbeatRow. case_bool_decide as Ht.
  - subst t. rewrite <- Hid, Z.eqb_refl. reflexivity.
  - destruct (ID d =? t) eqn:Eq; [lia | reflexivity].
Qed.

(** The status after the uninstall statement. *)
Lemma uninstall_status ok db t id st :
  deviceStatus db id = Some st →
  deviceStatus (fst (UpdateDeviceStatus ok db t "uninstalled")) id
  = Some (if ok && bool_decide (t = id) then uninstalled else st).
Proof.
  intros Hst. unfold UpdateDeviceStatus. destruct ok; simpl; [|exact Hst].
  rewrite (deviceStatus_map db _ id (statusRow_ID uninstalled t)).
  unfold deviceStatus in Hst. destruct (GetDeviceByID db id) as [d|] eqn:E; [|discriminate].
  injection Hst as <-. simpl. f_equal. pose proof (GetDeviceByID_ID _ _ _ E) as Hid.
  unfold statusRow. case_bool_decide as Ht.
  - subst t. rewrite <- Hid, Z.eqb_refl. reflexivity.
  - destruct (ID d =? t) eqn:Eq; [lia | reflexivity].
Qed.

(** The sweep leaves every status but [active] alone. *)
Lemma sweep_status okQuery okExec now db thr id st :
  deviceStatus db id = Some st → st ≠ active →
  deviceStatus (fst (MarkInactiveDevices okQuery okExec now db thr)) id = Some st.
Proof.
  intros Hst Hne. unfold MarkInactiveDevices.
  destruct okQuery, okExec; simpl; try exact Hst.
  rewrite (deviceStatus_map db _ id (inactiveRow_ID _)).
  unfold deviceStatus in Hst. destruct (GetDeviceByID db id) as [d|] eqn:E; [|discriminate].
  injection Hst as <-. simpl. f_equal. unfold inactiveRow, isStale.
  case_bool_decide; [done | reflexivity].
Qed.

Lemma markUninstalled_status okExec push db d id st :
  deviceStatus db id = Some st →
  deviceStatus (fst (markUninstalled okExec push db d)) id
  = Some (if okExec && bool_decide (ID d = id) then uninstalled else st).
Proof.
  intros Hst. unfold markUninstalled.
  pose proof (uninstall_status okExec db (ID d) id st Hst) as H.
  destruct (UpdateDeviceStatus okExec db (ID d) "uninstalled") as [db' [e|]]; exact H.
Qed.

(** C5 (amended). An uninstalled device keeps its status under every
    device-facing operation except a heartbeat signal of that very device
    (explicit heartbeat call, fresh session registration or keepalive pong)
    that reaches the store: such a signal sets the status to active whatever
    it was. The sweep and repeated uninstall signals leave it uninstalled. *)
Theorem uninstalled_left_only_by_heartbeat push db op id :
  deviceStatus db id = Some uninstalled →
  deviceStatus (fst (applyOp push db op)) id
  = Some (if reactivates db op id then active else uninstalled).
Proof.
  intros Hst. unfold reactivates. destruct op as [okL okE now bearer | okL up okE now token conn
    | okE now client | okL okE method token | okQ okE now]; simpl.
  - unfold heartbeatRoute, TokenAuth. destruct bearer as [| |tk]; simpl;
      [status_done | status_done |].
    destruct (GetDeviceByToken okL db tk) as [d|e]; simpl; [|status_done].
    pose proof (heartbeat_status okE now db (ID d) id _ Hst) as H.
    destruct (UpdateDeviceHeartbeat okE now db (ID d)) as [db' [e|]]; simpl in *;
      rewrite H; status_done.
  - unfold HandleWebSocket. case_bool_decide; simpl; [status_done|].
    destruct (GetDeviceByToken okL db token) as [d|e]; simpl; [|status_done].
    destruct up; simpl; [|status_done].
    rewrite (heartbeat_status okE now db (ID d) id _ Hst). status_done.
  - unfold pongHandler. rewrite (heartbeat_status okE now db _ id _ Hst). status_done.
  - unfold uninstallRoute, DeviceUninstall.
    case_bool_decide as Htok; [destruct method; status_done|].
    destruct (GetDeviceByToken okL db token) as [d|e]; [|destruct method; status_done].
    pose proof (markUninstalled_status okE push db d id _ Hst) as Hmark.
    destruct (markUninstalled okE push db d) as [db' es]. simpl in Hmark.
    destruct method; simpl; rewrite Hmark; status_done.
  - unfold checkInactiveDevices.
    pose proof (sweep_status okQ okE now db (2 * Minute) id _ Hst) as H.
    destruct (MarkInactiveDevices okQ okE now db (2 * Minute)) as [db' [names|e]];
      simpl in *; rewrite H by discriminate; status_done.
Qed.

(** C5 as stated fails: the laptop is uninstalled, its heartbeat call makes
    it active again. *)
Lemma uninstalled_not_terminal :
  deviceStatus (exampleDB uninstalled) 1 = Some uninstalled
  ∧ deviceStatus (fst (heartbeatRoute true true 100 (exampleDB uninstalled)
                         (Bearer "tok-laptop"))) 1 = Some active
  ∧ ¬ uninstalledIsTerminal.
Proof.
  split; [reflexivity|]. split; [reflexivity|]. intros H.
  specialize (H false (exampleDB uninstalled)
                (OpHeartbeat true true 100 (Bearer "tok-laptop")) 1 eq_refl).
  vm_compute in H. discriminate H.
Qed.

(** The uninstalled laptop: a sweep keeps it uninstalled, its own heartbeat
    does not. *)
Lemma uninstalled_left_only_by_heartbeat_witness :
  deviceStatus (fst (applyOp true (exampleDB uninstalled) (OpSweep true true 1000000000000))) 1
  = Some uninstalled
  ∧ deviceStatus (fst (applyOp true (exampleDB uninstalled)
                         (OpHeartbeat true true 100 (Bearer "tok-laptop")))) 1
    = Some active.
Proof.
  split.
  - exact (uninstalled_left_only_by_heartbeat true (exampleDB uninstalled)
             (OpSweep true true 1000000000000) 1 eq_refl).
  - exact (uninstalled_left_only_by_heartbeat true (exampleDB uninstalled)
             (OpHeartbeat true true 100 (Bearer "tok-laptop")) 1 eq_refl).
Defined.

(** *** The uninstall endpoint *)

Lemma statusRow_Token st t r : Token (statusRow st t r) = Token r.
Proof. unfold statusRow. destruct (ID r =? t); reflexivity. Qed.

Lemma find_map_token (f : Device → Device) (tok : string) (l : list Device) :
  (∀ r, Token (f r) = Token r) →
  List.find (fun d => bool_decide (Token d = tok)) (map f l)
  = f <$> List.find (fun d => bool_decide (Token d = tok)) l.
Proof.
  intros Hf. induction l as [|r l IH]; [reflexivity|].
  simpl. rewrite Hf. destruct (bool_decide (Token r = tok)); [reflexivity | exact IH].
Qed.

Lemma statusRow_idem st t r : statusRow st t (statusRow st t r) = statusRow st t r.
Proof.
  unfold statusRow. destruct (ID r =? t) eqn:E; simpl; rewrite E; reflexivity.
Qed.

Lemma markUninstalled_db okExec push db d :
  fst (markUninstalled okExec push db d)
  = if okExec then setDevices (map (statusRow uninstalled (ID d)) (devices db)) db else db.
Proof. unfold markUninstalled, UpdateDeviceStatus. destruct okExec; reflexivity. Qed.

Lemma markUninstalled_twice okExec push push' db d d' :
  ID d' = ID d →
  fst (markUninstalled okExec push' (fst (markUninstalled true push db d)) d')
  = fst (markUninstalled true push db d).
Proof.
  intros Hid. rewrite !markUninstalled_db, Hid. destruct okExec; [|reflexivity].
  unfold setDevices; simpl. f_equal. rewrite map_map.
  apply map_ext. intros r. apply statusRow_idem.
Qed.

Lemma DeviceUninstall_db okL okE push db method token ctx :
  fst (fst (DeviceUninstall okL okE push db method token ctx))
  = match resolveUninstall okL db token ctx with
    | Some d => fst (markUninstalled okE push db d)
    | None => db
    end.
Proof.
  unfold DeviceUninstall, resolveUninstall. case_bool_decide.
  - destruct ctx as [d|]; [destruct (markUninstalled okE push db d)|]; destruct method; reflexivity.
  - destruct (GetDeviceByToken okL db token) as [d|e];
      [destruct (markUninstalled okE push db d)|]; destruct method; reflexivity.
Qed.

Lemma DeviceUninstall_response okL okE push db method token ctx :
  snd (fst (DeviceUninstall okL okE push db method token ctx)) = uninstallAnswer method.
Proof.
  unfold DeviceUninstall.
  destruct (if bool_decide (token = "") then _ else _) as [db' es].
  destruct method; reflexivity.
Qed.

(** The token resolves to the same device id after the marking. *)
Lemma resolve_after_mark okL' push db token ctx d :
  resolveUninstall true db token ctx = Some d →
  match resolveUninstall okL' (fst (markUninstalled true push db d)) token ctx with
  | Some d' => ID d' = ID d
  | None => True
  end.
Proof.
  unfold resolveUninstall. rewrite markUninstalled_db. case_bool_decide.
  - intros ->. reflexivity.
  - unfold GetDeviceByToken. simpl. destruct okL'; [|done].
    rewrite (find_map_token _ token _ (statusRow_Token uninstalled (ID d))).
    destruct (List.find _ (devices db)) as [d0|]; [|discriminate].
    intros [= ->]. simpl. apply statusRow_ID.
Qed.

(** C7. Whatever the token (valid, invalid or absent) and whatever the store
    does, the uninstall endpoint answers with the same success response,
    which depends on the request method only; when the token resolves to a
    device and the store runs the update, the device is uninstalled after the
    call, and a second call answers success again and leaves the store
    exactly as the first one left it. *)
Theorem uninstall_succeeds_and_is_idempotent
    (okL okE push okL' okE' push' : bool) (db : DB) (method method' : Method)
    (token : string) (ctx : option Device) :
  let first := DeviceUninstall okL okE push db method token ctx in
  let second := DeviceUninstall okL' okE' push' (fst (fst first)) method' token ctx in
  snd (fst first) = uninstallAnswer method
  ∧ snd (fst second) = uninstallAnswer method'
  ∧ (∀ d, okL = true → okE = true →
          resolveUninstall okL db token ctx = Some d →
          is_Some (deviceStatus db (ID d)) →
          deviceStatus (fst (fst first)) (ID d) = Some uninstalled
          ∧ deviceStatus (fst (fst second)) (ID d) = Some uninstalled
          ∧ fst (fst second) = fst (fst first)).
Proof.
  cbv zeta. split; [apply DeviceUninstall_response|].
  split; [apply DeviceUninstall_response|].
  intros d -> -> Hres [st Hst].
  rewrite !DeviceUninstall_db, Hres.
  pose proof (resolve_after_mark okL' push db token ctx d Hres) as Hsame.
  assert (Hone : deviceStatus (fst (markUninstalled true push db d)) (ID d) = Some uninstalled).
  { rewrite (markUninstalled_status true push db d (ID d) st Hst).
    simpl. rewrite bool_decide_eq_true_2; reflexivity. }
  destruct (resolveUninstall okL' _ token ctx) as [d'|].
  - rewrite (markUninstalled_twice okE' push push' db d d' Hsame). done.
  - done.
Qed.

(** The laptop's token, sent twice, and a token nobody has. *)
Lemma uninstall_succeeds_and_is_idempotent_witness :
  deviceStatus (fst (fst (DeviceUninstall true true true (exampleDB active) GET
                            "tok-laptop" None))) 1 = Some uninstalled
  ∧ snd (fst (DeviceUninstall true true true (exampleDB active) GET "tok-laptop" None))
    = snd (fst (DeviceUninstall true true true (exampleDB active) GET "no-such-token" None)).
Proof.
  pose proof (uninstall_succeeds_and_is_idempotent true true true true true true
                (exampleDB active) GET GET "tok-laptop" None) as (H1 & _ & H3).
  pose proof (uninstall_succeeds_and_is_idempotent true true true true true true
                (exampleDB active) GET GET "no-such-token" None) as (H1' & _ & _).
  cbv zeta in *. split.
  - apply (H3 (laptop active) eq_refl eq_refl eq_refl). eexists. reflexivity.
  - rewrite H1, H1'. reflexivity.
Defined.

(** *** Access requests *)




Lemma CreatePattern_requests ok now db dev pat ty ex :
  requests (fst (CreatePattern ok now db dev pat ty ex)) = requests db.
Proof.
  unfold CreatePattern. destruct ok; [|reflexivity].
  destruct (parsePatternType ty); [|reflexivity].
  destruct (existsb _ _); reflexivity.
Qed.






(** *** The inactivity sweep *)















End BackendFacts.

(** ** The regular-expression matcher *)

Module RegexFacts.
Import Js Regex.

Lemma Matches_eps ic s : Matches ic Eps s ↔ s = [].
Proof. split; [intros H; by inversion H | intros ->; constructor]. Qed.

Lemma Matches_cat ic r1 r2 s :
  Matches ic (Cat r1 r2) s ↔ ∃ s1 s2, s = s1 ++ s2 ∧ Matches ic r1 s1 ∧ Matches ic r2 s2.
Proof.
  split.
  - intros H. inversion H; subst. eauto.
  - intros (s1 & s2 & -> & H1 & H2). by constructor.
Qed.

Lemma Matches_nil_cat ic r1 r2 :
  Matches ic (Cat r1 r2) [] → Matches ic r1 [] ∧ Matches ic r2 [].
Proof.
  intros H. apply Matches_cat in H as (s1 & s2 & Heq & H1 & H2).
  symmetry in Heq. apply app_eq_nil in Heq as [-> ->]. done.
Qed.

Lemma nullable_spec ic r : nullable r = true ↔ Matches ic r [].
Proof.
  induction r as [| | c | | cs | r1 IH1 r2 IH2 | r1 IH1 r2 IH2 | r IH | r IH]; simpl.
  - split; [discriminate | intros H; inversion H].
  - split; [intros _; constructor | done].
  - split; [discriminate | intros H; inversion H].
  - split; [discriminate | intros H; inversion H].
  - split; [discriminate | intros H; inversion H].
  - rewrite andb_true_iff, IH1, IH2. split.
    + intros [H1 H2]. exact (MCat ic r1 r2 [] [] H1 H2).
    + apply Matches_nil_cat.
  - rewrite orb_true_iff, IH1, IH2. split.
    + intros [H|H]; [by apply MAltL | by apply MAltR].
    + intros H. inversion H; subst; [by left | by right].
  - split; [intros _; constructor | done].
  - split; [intros _; constructor | done].
Qed.

Lemma Matches_ofBool ic b s : Matches ic (ofBool b) s ↔ b = true ∧ s = [].
Proof.
  destruct b; simpl; split.
  - intros H. inversion H. done.
  - intros [_ ->]. constructor.
  - intros H. inversion H.
  - intros [? _]. discriminate.
Qed.

(** A non-empty word of a starred expression starts with a non-empty word
    of the expression. *)
Lemma Matches_star_cons ic r x s :
  Matches ic (Star r) (x :: s) →
  ∃ s1 s2, s = s1 ++ s2 ∧ Matches ic r (x :: s1) ∧ Matches ic (Star r) s2.
Proof.
  intros H. remember (Star r) as r' eqn:Hr. remember (x :: s) as w eqn:Hw.
  revert x s Hw.
  induction H as [| | | | | | | |r0 w1 w2 H1 _ H2 IH2| |];
    intros a t Hw; try discriminate.
  injection Hr as ->. destruct w1 as [|b w1].
  - simpl in Hw. exact (IH2 eq_refl a t Hw).
  - simpl in Hw. injection Hw as -> <-. exists w1, w2. done.
Qed.

Lemma deriv_spec ic x r : ∀ s, Matches ic (deriv ic x r) s ↔ Matches ic r (x :: s).
Proof.
  induction r as [| | c | | cs | r1 IH1 r2 IH2 | r1 IH1 r2 IH2 | r IH | r IH];
    intros s; simpl.
  - split; intros H; inversion H.
  - split; intros H; inversion H.
  - rewrite Matches_ofBool. split.
    + intros [H ->]. by constructor.
    + intros H. inversion H; subst. done.
  - rewrite Matches_ofBool. split.
    + intros [H ->]. by constructor.
    + intros H. inversion H; subst. done.
  - rewrite Matches_ofBool. split.
    + intros [H ->]. by constructor.
    + intros H. inversion H; subst. done.
  - assert (Hcat : Matches ic (Cat (deriv ic x r1) r2) s
                   ↔ ∃ s1 s2, s = s1 ++ s2 ∧ Matches ic r1 (x :: s1) ∧ Matches ic r2 s2).
    { rewrite Matches_cat. split.
      - intros (s1 & s2 & -> & H1 & H2). exists s1, s2. rewrite <- IH1. done.
      - intros (s1 & s2 & -> & H1 & H2). exists s1, s2. rewrite IH1. done. }
    assert (Hsplit : Matches ic (Cat r1 r2) (x :: s)
                     ↔ (∃ s1 s2, s = s1 ++ s2 ∧ Matches ic r1 (x :: s1) ∧ Matches ic r2 s2)
                       ∨ (Matches ic r1 [] ∧ Matches ic r2 (x :: s))).
    { rewrite Matches_cat. split.
      - intros (s1 & s2 & Heq & H1 & H2).
        destruct s1 as [|y s1]; simpl in Heq.
        + right. subst s2. done.
        + injection Heq as -> ->. left. by exists s1, s2.
      - intros [(s1 & s2 & -> & H1 & H2) | [H1 H2]].
        + by exists (x :: s1), s2.
        + by exists [], (x :: s). }
    rewrite Hsplit. destruct (nullable r1) eqn:Hn.
    + apply (nullable_spec ic) in Hn. split.
      * intros H. inversion H; subst; [left; by apply Hcat | right; split; [done | by apply IH2]].
      * intros [H | [_ H]]; [apply MAltL; by apply Hcat | apply MAltR; by apply IH2].
    + rewrite Hcat. split; [by left|]. intros [H | [H _]]; [done|].
      apply (nullable_spec ic) in H. congruence.
  - split.
    + intros H. inversion H; subst; [apply MAltL; by apply IH1 | apply MAltR; by apply IH2].
    + intros H. inversion H; subst; [apply MAltL; by apply IH1 | apply MAltR; by apply IH2].
  - split.
    + intros H. apply Matches_cat in H as (s1 & s2 & -> & H1 & H2).
      apply IH in H1. exact (MStarCons ic r (x :: s1) s2 H1 H2).
    + intros H. apply Matches_star_cons in H as (s1 & s2 & -> & H1 & H2).
      apply MCat; [by apply IH | done].
  - rewrite IH. split.
    + intros H. by apply MOptSome.
    + intros H. inversion H; subst. done.
Qed.

(** The derivative matcher decides the language. *)
Lemma accepts_spec ic s : ∀ r, accepts ic r s = true ↔ Matches ic r s.
Proof.
  induction s as [|x s IH]; intros r; simpl.
  - apply nullable_spec.
  - rewrite IH. apply deriv_spec.
Qed.

(** With both anchors, [test] is a match of the whole input. *)
Lemma test_anchored r ic s :
  test (mkRegexp r true true ic) s = true ↔ Matches ic r s.
Proof.
  unfold test. simpl. rewrite accepts_spec, Matches_cat. split.
  - intros (s1 & s2 & -> & H1 & H2). apply Matches_eps in H1 as ->.
    apply Matches_cat in H2 as (s3 & s4 & -> & H3 & H4). apply Matches_eps in H4 as ->.
    simpl. rewrite app_nil_r. exact H3.
  - intros H. exists [], s. split; [reflexivity|]. split; [constructor|].
    apply Matches_cat. exists s, []. rewrite app_nil_r. split; [reflexivity|].
    split; [exact H | constructor].
Qed.

(** A starred one-character atom accepts the words made of accepted
    characters. *)
Lemma Matches_star_dot ic s : Matches ic (Star Dot) s ↔ Forall (fun x => dotOk x = true) s.
Proof.
  split.
  - induction s as [|x s IH]; intros H; [constructor|].
    apply Matches_star_cons in H as (s1 & s2 & -> & H1 & H2).
    inversion H1; subst. simpl in *. constructor; [done | by apply IH].
  - induction 1 as [|x s Hx _ IH]; [constructor|].
    exact (MStarCons ic Dot [x] s (MDot ic x Hx) IH).
Qed.

Lemma Matches_star_notcls ic cs s :
  Matches ic (Star (NotCls cs)) s ↔ Forall (fun x => notClsOk ic cs x = true) s.
Proof.
  split.
  - induction s as [|x s IH]; intros H; [constructor|].
    apply Matches_star_cons in H as (s1 & s2 & -> & H1 & H2).
    inversion H1; subst. simpl in *. constructor; [done | by apply IH].
  - induction 1 as [|x s Hx _ IH]; [constructor|].
    exact (MStarCons ic (NotCls cs) [x] s (MNotCls ic cs x Hx) IH).
Qed.

End RegexFacts.

(** ** The pattern compiler *)

Module PatternFacts.
Import Js Regex Agent RegexFacts.

Lemma memb_In c l : memb c l = true ↔ In c l.
Proof.
  induction l as [|d l IH]; simpl; [split; [discriminate | done]|].
  rewrite orb_true_iff, IH, Ascii.eqb_eq. split; intros [H|H]; auto.
Qed.

Lemma memb_false_eqb c l d : memb c l = false → In d l → Ascii.eqb c d = false.
Proof.
  intros Hm Hd. destruct (Ascii.eqb c d) eqn:E; [|reflexivity].
  apply Ascii.eqb_eq in E as ->. apply memb_In in Hd. congruence.
Qed.

Lemma eqb_sym_false a b : Ascii.eqb a b = false → Ascii.eqb b a = false.
Proof. rewrite Ascii.eqb_sym. done. Qed.

(** Every escaped character is a syntax character, and the star is the only
    syntax character left alone. *)
Lemma escaped_is_syntax c : isEscaped c = true → isSyntaxChar c = true.
Proof.
  unfold isEscaped, isSyntaxChar. rewrite !memb_In. simpl. intuition.
Qed.

Lemma plain_not_syntax c : isEscaped c = false → isStar c = false → isSyntaxChar c = false.
Proof.
  intros He Hs. destruct (isSyntaxChar c) eqn:E; [|reflexivity]. exfalso.
  unfold isSyntaxChar in E. apply memb_In in E.
  assert (c = "*"%char ∨ In c (str ".+?^${}()|[]\")) as [->|Hin].
  { simpl in E |- *. intuition. }
  - discriminate Hs.
  - apply memb_In in Hin. unfold isEscaped in He. congruence.
Qed.

Lemma plain_neq c d :
  isEscaped c = false → In d (str ".+?^${}()|[]\") → Ascii.eqb c d = false.
Proof. intros He. apply memb_false_eqb. exact He. Qed.

(** *** Equations of the global replacement *)

Lemma isPrefix_cons a p c s : isPrefix (a :: p) (c :: s) = Ascii.eqb a c && isPrefix p s.
Proof. reflexivity. Qed.

Lemma isPrefix_miss a p c s : Ascii.eqb a c = false → isPrefix (a :: p) (c :: s) = false.
Proof. intros H. simpl. rewrite H. reflexivity. Qed.

Lemma replaceFrom_miss pat rep c s :
  isPrefix pat (c :: s) = false →
  replaceFrom pat rep 0 (c :: s) = c :: replaceFrom pat rep 0 s.
Proof. intros H. simpl. rewrite H. reflexivity. Qed.

Lemma replaceFrom_hit pat rep c s :
  isPrefix pat (c :: s) = true →
  replaceFrom pat rep 0 (c :: s) = rep ++ replaceFrom pat rep (pred (length pat)) s.
Proof. intros H. simpl. rewrite H. reflexivity. Qed.

Lemma replaceFrom_skip pat rep k c s :
  replaceFrom pat rep (S k) (c :: s) = replaceFrom pat rep k s.
Proof. reflexivity. Qed.

(** A one-character pattern is replaced character by character. *)
Lemma replaceAll_single x rep s :
  replaceAll [x] rep s = flat_map (fun c => if Ascii.eqb x c then rep else [c]) s.
Proof.
  unfold replaceAll. induction s as [|c s IH]; [reflexivity|].
  simpl. destruct (Ascii.eqb x c); simpl; rewrite IH; reflexivity.
Qed.

Lemma escapeSpecial_cons c p : escapeSpecial (c :: p) = escapeChar c ++ escapeSpecial p.
Proof. reflexivity. Qed.

Lemma escapeChar_head c :
  isStar c = false →
  ∃ a rest, escapeChar c = a :: rest ∧ Ascii.eqb "*"%char a = false
            ∧ Forall (fun b => Ascii.eqb "*"%char b = false) rest.
Proof.
  intros Hc. unfold isStar in Hc. rewrite Ascii.eqb_sym in Hc.
  unfold escapeChar. destruct (isEscaped c).
  - exists "\"%char, [c]. split; [reflexivity|]. split; [reflexivity|]. by constructor.
  - exists c, []. split; [reflexivity|]. split; [exact Hc|]. constructor.
Qed.

Lemma replaceFrom_plain a pat rep l s :
  Forall (fun b => Ascii.eqb a b = false) l →
  replaceFrom (a :: pat) rep 0 (l ++ s) = l ++ replaceFrom (a :: pat) rep 0 s.
Proof.
  induction 1 as [|b l Hb _ IH]; [reflexivity|].
  rewrite <- !app_comm_cons, replaceFrom_miss, IH; [reflexivity|].
  apply isPrefix_miss. exact Hb.
Qed.

(** Characters other than the star go through the replacement of [**]. *)
Lemma replace_dstar_plain l s :
  Forall (fun b => Ascii.eqb "*"%char b = false) l →
  replaceFrom (str "**") DOUBLE_STAR 0 (l ++ s)
  = l ++ replaceFrom (str "**") DOUBLE_STAR 0 s.
Proof. exact (replaceFrom_plain "*"%char ["*"%char] DOUBLE_STAR l s). Qed.

(** Stage 1: after the escaping and the replacement of [**], the text is
    the rendering of the tokens with the placeholder for the double star. *)
Lemma stage1_tokens n : ∀ p, (length p ≤ n)%nat →
  replaceAll (str "**") DOUBLE_STAR (escapeSpecial p)
  = renderAll (str "*") DOUBLE_STAR (tokenize p).
Proof.
  unfold replaceAll. induction n as [|n IH]; intros p Hlen.
  - destruct p; [reflexivity | simpl in Hlen; lia].
  - destruct p as [|c r]; [reflexivity|]. simpl in Hlen.
    rewrite escapeSpecial_cons. simpl tokenize. destruct (isStar c) eqn:Hc.
    + apply Ascii.eqb_eq in Hc as ->. destruct r as [|c2 r2]; [reflexivity|].
      destruct (isStar c2) eqn:Hc2.
      * apply Ascii.eqb_eq in Hc2 as ->.
        change (escapeChar "*" ++ escapeSpecial ("*"%char :: r2))
          with ("*"%char :: "*"%char :: escapeSpecial r2).
        rewrite replaceFrom_hit by reflexivity.
        change (pred (length (str "**"))) with 1%nat.
        rewrite replaceFrom_skip, IH by (simpl in Hlen; lia). reflexivity.
      * change (escapeChar "*" ++ escapeSpecial (c2 :: r2))
          with ("*"%char :: escapeSpecial (c2 :: r2)).
        rewrite replaceFrom_miss.
        -- rewrite IH by lia. reflexivity.
        -- rewrite escapeSpecial_cons.
           destruct (escapeChar_head c2 Hc2) as (a & rest & -> & Ha & _).
           change (str "**") with ["*"%char; "*"%char].
           rewrite <- app_comm_cons, isPrefix_cons, (isPrefix_miss _ _ _ _ Ha).
           apply andb_false_r.
    + destruct (escapeChar_head c Hc) as (a & rest & Heq & Ha & Hrest).
      change (renderAll (str "*") DOUBLE_STAR (TLit c :: tokenize r))
        with (escapeChar c ++ renderAll (str "*") DOUBLE_STAR (tokenize r)).
      rewrite replace_dstar_plain, IH by (try lia; rewrite Heq; by constructor).
      reflexivity.
Qed.

Lemma tokenize_proper n : ∀ p, (length p ≤ n)%nat → Forall properToken (tokenize p).
Proof.
  induction n as [|n IH]; intros p Hlen.
  - destruct p; [constructor | simpl in Hlen; lia].
  - destruct p as [|c r]; [constructor|]. simpl in Hlen. simpl.
    destruct (isStar c) eqn:Hc.
    + destruct r as [|c2 r2]; [by repeat constructor|].
      destruct (isStar c2); constructor; try done; apply IH; simpl in *; lia.
    + constructor; [exact Hc | apply IH; lia].
Qed.

(** *** Stage 2: the trailing form *)

Lemma endsWith_snoc s x p a :
  endsWith (s ++ [x]) (p ++ [a]) = Ascii.eqb a x && endsWith s p.
Proof. unfold endsWith. rewrite !rev_unit. reflexivity. Qed.

Lemma endsWith_nil_snoc p a : endsWith [] (p ++ [a]) = false.
Proof. unfold endsWith. rewrite rev_unit. reflexivity. Qed.

Lemma endsWith_empty s : endsWith s [] = true.
Proof. reflexivity. Qed.

Lemma sliceEnd_app s suf : sliceEnd (s ++ suf) (length suf) = s.
Proof.
  unfold sliceEnd. rewrite length_app.
  replace (length s + length suf - length suf)%nat with (length s) by lia.
  apply take_app_length.
Qed.

(** The last character of the text of a token at stage 1. *)
Lemma render_last t :
  properToken t →
  ∃ l x, render (str "*") DOUBLE_STAR t = l ++ [x]
         ∧ match t with
           | TLit c => x = c ∧ isStar c = false
                       ∧ (c = "/"%char → l = [])
           | TStar => x = "*"%char ∧ l = []
           | TDStar => x = "}"%char
           end.
Proof.
  destruct t as [c| |]; intros Hp.
  - simpl. unfold escapeChar. destruct (isEscaped c) eqn:E.
    + exists ["\"%char], c. split; [reflexivity|]. split; [reflexivity|]. split; [exact Hp|].
      intros ->. discriminate E.
    + exists [], c. done.
  - exists [], "*"%char. done.
  - exists (str "{{DOUBLE_STAR}"), "}"%char. done.
Qed.

Lemma renderAll_snoc star dstar toks t :
  renderAll star dstar (toks ++ [t]) = renderAll star dstar toks ++ render star dstar t.
Proof. unfold renderAll. rewrite flat_map_app. simpl. rewrite app_nil_r. reflexivity. Qed.

(** A text that does not end in a star is left as it is. *)
Lemma trailingStep_other s x :
  Ascii.eqb "*"%char x = false → trailingStep (s ++ [x]) = s ++ [x].
Proof.
  intros Hx. unfold trailingStep.
  change (str "/*") with (["/"%char] ++ ["*"%char]).
  change (str "*") with (@nil ascii ++ ["*"%char]).
  rewrite !endsWith_snoc, Hx. reflexivity.
Qed.

(** A text that ends in a star not preceded by a slash. *)
Lemma trailingStep_star s :
  endsWith s ["/"%char] = false → trailingStep (s ++ ["*"%char]) = s ++ str ".*".
Proof.
  intros Hs. unfold trailingStep.
  change (str "/*") with (["/"%char] ++ ["*"%char]).
  change (str "*") with (@nil ascii ++ ["*"%char]).
  change DOUBLE_STAR with (str "{{DOUBLE_STAR}" ++ ["}"%char]).
  rewrite !endsWith_snoc, Hs.
  change (Ascii.eqb "*" "*") with true. change (Ascii.eqb "}" "*") with false.
  simpl andb. cbv iota.
  change 1%nat with (length ["*"%char]). rewrite sliceEnd_app. reflexivity.
Qed.

(** A text that ends in a slash and a star. *)
Lemma trailingStep_slash s :
  trailingStep (s ++ ["/"%char] ++ ["*"%char]) = s ++ str "(?:/.*)?".
Proof.
  unfold trailingStep. rewrite app_assoc.
  change (str "/*") with (["/"%char] ++ ["*"%char]).
  rewrite endsWith_snoc.
  change ["/"%char] with (@nil ascii ++ ["/"%char]) at 2.
  rewrite endsWith_snoc. change (Ascii.eqb "*" "*") with true.
  change (Ascii.eqb "/" "/") with true. simpl andb. cbv iota.
  rewrite <- app_assoc. change 2%nat with (length (["/"%char] ++ ["*"%char])).
  rewrite sliceEnd_app. reflexivity.
Qed.

Lemma endsWith_slash_render toks :
  Forall properToken toks →
  endsWith (renderAll (str "*") DOUBLE_STAR toks) ["/"%char]
  = match rev toks with
    | TLit c :: _ => Ascii.eqb c "/"%char
    | _ => false
    end.
Proof.
  intros Hp. destruct (rev toks) as [|t rt] eqn:E.
  - apply (f_equal (@rev _)) in E. rewrite rev_involutive in E. subst toks. reflexivity.
  - apply (f_equal (@rev _)) in E. rewrite rev_involutive in E. simpl in E. subst toks.
    apply Forall_app in Hp as [_ Hp]. apply Forall_inv in Hp.
    rewrite renderAll_snoc. destruct (render_last t Hp) as (l & x & -> & Hx).
    rewrite app_assoc. change ["/"%char] with (@nil ascii ++ ["/"%char]).
    rewrite endsWith_snoc, endsWith_empty, andb_true_r.
    destruct t as [c| |].
    + destruct Hx as (-> & _). apply Ascii.eqb_sym.
    + destruct Hx as (-> & _). reflexivity.
    + subst x. reflexivity.
Qed.

Lemma stage2_tokens toks :
  Forall properToken toks →
  trailingStep (renderAll (str "*") DOUBLE_STAR toks)
  = renderAll (str "*") DOUBLE_STAR (fst (splitTrail toks))
    ++ trailSource (snd (splitTrail toks)).
Proof.
  intros Hp. unfold splitTrail. destruct (rev toks) as [|t rt] eqn:E.
  { apply (f_equal (@rev _)) in E. rewrite rev_involutive in E. subst toks. reflexivity. }
  apply (f_equal (@rev _)) in E. rewrite rev_involutive in E. simpl in E. subst toks.
  apply Forall_app in Hp as [Hpre Ht]. apply Forall_inv in Ht.
  destruct t as [c| |].
  - cbn [fst snd trailSource]. rewrite app_nil_r, renderAll_snoc.
    destruct (render_last (TLit c) Ht) as (l & x & -> & -> & Hc & _).
    rewrite app_assoc, trailingStep_other; [reflexivity|].
    unfold isStar in Hc. rewrite Ascii.eqb_sym. exact Hc.
  - rewrite renderAll_snoc. change (render (str "*") DOUBLE_STAR TStar) with ["*"%char].
    pose proof (endsWith_slash_render (rev rt) Hpre) as Hends.
    rewrite rev_involutive in Hends.
    destruct rt as [|[c| |] pre].
    + rewrite trailingStep_star by exact Hends. reflexivity.
    + destruct (Ascii.eqb c "/") eqn:Hc.
      * apply Ascii.eqb_eq in Hc as ->. simpl rev. rewrite renderAll_snoc.
        change (render (str "*") DOUBLE_STAR (TLit "/")) with ["/"%char].
        rewrite <- app_assoc, trailingStep_slash. reflexivity.
      * rewrite trailingStep_star by exact Hends. reflexivity.
    + rewrite trailingStep_star by exact Hends. reflexivity.
    + rewrite trailingStep_star by exact Hends. reflexivity.
  - cbn [fst snd trailSource]. rewrite app_nil_r, renderAll_snoc.
    change (render (str "*") DOUBLE_STAR TDStar) with (str "{{DOUBLE_STAR}" ++ ["}"%char]).
    rewrite app_assoc, trailingStep_other by reflexivity. reflexivity.
Qed.

(** *** Stage 3: the single stars *)

Lemma renderAll_cons star dstar t toks :
  renderAll star dstar (t :: toks) = render star dstar t ++ renderAll star dstar toks.
Proof. reflexivity. Qed.

Lemma stage3_token t :
  properToken t →
  flat_map (fun c => if Ascii.eqb "*"%char c then str "[^/]*" else [c])
    (render (str "*") DOUBLE_STAR t)
  = render (str "[^/]*") DOUBLE_STAR t.
Proof.
  destruct t as [c| |]; intros Hp; [|reflexivity..].
  simpl in Hp. unfold isStar in Hp. rewrite Ascii.eqb_sym in Hp.
  cbn [render]. unfold escapeChar. destruct (isEscaped c); cbn [flat_map app].
  - rewrite Hp. reflexivity.
  - rewrite Hp. reflexivity.
Qed.

Lemma stage3_tokens toks tr :
  Forall properToken toks →
  replaceAll (str "*") (str "[^/]*") (renderAll (str "*") DOUBLE_STAR toks ++ trailSource tr)
  = renderAll (str "[^/]*") DOUBLE_STAR toks ++ trailFinal tr.
Proof.
  intros Hp. change (str "*") with ["*"%char] at 1. rewrite replaceAll_single, flat_map_app.
  f_equal; [|destruct tr; reflexivity].
  induction Hp as [|t toks Ht _ IH]; [reflexivity|].
  rewrite !renderAll_cons, flat_map_app, IH, (stage3_token t Ht). reflexivity.
Qed.

(** *** Stage 4: the placeholder *)

Lemma replaceFrom_placeholder rep s :
  replaceFrom DOUBLE_STAR rep 0 (DOUBLE_STAR ++ s) = rep ++ replaceFrom DOUBLE_STAR rep 0 s.
Proof. reflexivity. Qed.

(** The rest of the text never starts with a brace and a [D]: an escaped
    brace is not the start of a placeholder. *)
Lemma no_brace_D toks tr q :
  isPrefix ("{"%char :: "D"%char :: q)
    (renderAll (str "[^/]*") DOUBLE_STAR toks ++ trailFinal tr) = false.
Proof.
  destruct toks as [|[c| |] toks].
  - destruct tr; reflexivity.
  - rewrite renderAll_cons. cbn [render]. unfold escapeChar.
    destruct (isEscaped c) eqn:E; [reflexivity|].
    cbn [app]. apply isPrefix_miss. rewrite Ascii.eqb_sym.
    apply (plain_neq c _ E). simpl. tauto.
  - reflexivity.
  - reflexivity.
Qed.

Lemma placeholder_plain rep l s :
  Forall (fun b => Ascii.eqb "{"%char b = false) l →
  replaceFrom DOUBLE_STAR rep 0 (l ++ s) = l ++ replaceFrom DOUBLE_STAR rep 0 s.
Proof. exact (replaceFrom_plain "{"%char (str "{DOUBLE_STAR}}") rep l s). Qed.

Lemma placeholder_not_here rep c s :
  isPrefix ("{"%char :: "D"%char :: str "OUBLE_STAR}}") s = false →
  replaceFrom DOUBLE_STAR rep 0 (c :: s) = c :: replaceFrom DOUBLE_STAR rep 0 s.
Proof.
  intros H. apply replaceFrom_miss.
  change DOUBLE_STAR with ("{"%char :: "{"%char :: "D"%char :: str "OUBLE_STAR}}").
  rewrite isPrefix_cons, H. apply andb_false_r.
Qed.

Lemma stage4_tokens toks tr :
  replaceAll DOUBLE_STAR (str ".*")
    (renderAll (str "[^/]*") DOUBLE_STAR toks ++ trailFinal tr)
  = renderAll (str "[^/]*") (str ".*") toks ++ trailFinal tr.
Proof.
  unfold replaceAll. induction toks as [|t toks IH].
  - destruct tr; reflexivity.
  - rewrite !renderAll_cons, <- !app_assoc. destruct t as [c| |]; cbn [render].
    + unfold escapeChar. destruct (isEscaped c) eqn:E.
      * change (["\"%char; c] ++ ?x) with (["\"%char] ++ (c :: x)).
        rewrite placeholder_plain by (by repeat constructor).
        rewrite placeholder_not_here by apply no_brace_D.
        rewrite IH. reflexivity.
      * rewrite placeholder_plain, IH; [reflexivity|].
        constructor; [|constructor]. rewrite Ascii.eqb_sym.
        apply (plain_neq c _ E). simpl. tauto.
    + rewrite placeholder_plain, IH; [reflexivity|]. by repeat constructor.
    + rewrite replaceFrom_placeholder, IH. reflexivity.
Qed.

Lemma splitTrail_proper toks :
  Forall properToken toks → Forall properToken (fst (splitTrail toks)).
Proof.
  intros Hp. unfold splitTrail. destruct (rev toks) as [|t rt] eqn:E; [exact Hp|].
  assert (Hrt : Forall properToken (t :: rt)).
  { rewrite <- E. apply Forall_rev. exact Hp. }
  apply Forall_cons in Hrt as [Ht Hrt].
  destruct t as [c| |]; try exact Hp.
  destruct rt as [|[c| |] pre]; simpl.
  - constructor.
  - apply Forall_cons in Hrt as [Hc Hrt].
    destruct (Ascii.eqb c "/"); simpl.
    + by apply Forall_rev.
    + apply Forall_app. split; [by apply Forall_rev | by repeat constructor].
  - apply Forall_app. split; [apply Forall_rev; by apply Forall_cons in Hrt as [_ ?]|].
    by repeat constructor.
  - apply Forall_app. split; [apply Forall_rev; by apply Forall_cons in Hrt as [_ ?]|].
    by repeat constructor.
Qed.

(** The source text of the expression of a pattern. *)
Lemma regexSource_tokens p :
  regexSource p
  = renderAll (str "[^/]*") (str ".*") (fst (splitTrail (tokenize p)))
    ++ trailFinal (snd (splitTrail (tokenize p))).
Proof.
  unfold regexSource.
  pose proof (tokenize_proper (length p) p (le_n _)) as Hp.
  rewrite (stage1_tokens (length p) p (le_n _)), (stage2_tokens _ Hp).
  pose proof (splitTrail_proper _ Hp) as Hpre.
  rewrite (stage3_tokens _ _ Hpre). apply stage4_tokens.
Qed.

(** *** Stage 5: the constructor reads the source back *)

Lemma parseSeq_cons f c s :
  parseSeq (S f) (c :: s)
  = if Ascii.eqb c ")"%char || Ascii.eqb c "$"%char then Some (Eps, c :: s)
    else match parseAtom (parseSeq f) (c :: s) with
         | None => None
         | Some (a, s1) =>
             let '(q, s2) := parseQuant a s1 in
             match parseSeq f s2 with
             | None => None
             | Some (r, s3) => Some (Cat q r, s3)
             end
         end.
Proof. reflexivity. Qed.

Lemma parseAtom_plain seq c s :
  isEscaped c = false → isStar c = false → parseAtom seq (c :: s) = Some (Chr c, s).
Proof.
  intros He Hs. unfold parseAtom.
  rewrite (plain_neq c "."%char He) by (simpl; tauto).
  rewrite (plain_neq c "\"%char He) by (simpl; tauto).
  change (str "[^") with ["["%char; "^"%char]. change (str "(?:") with ["("%char; "?"%char; ":"%char].
  rewrite !isPrefix_miss.
  - rewrite (plain_not_syntax c He Hs). reflexivity.
  - rewrite Ascii.eqb_sym. apply (plain_neq c _ He). simpl. tauto.
  - rewrite Ascii.eqb_sym. apply (plain_neq c _ He). simpl. tauto.
Qed.

Lemma parseAtom_escape seq d s :
  isSyntaxChar d = true → parseAtom seq ("\"%char :: d :: s) = Some (Chr d, s).
Proof. intros H. unfold parseAtom. cbn [Ascii.eqb]. simpl. rewrite H. reflexivity. Qed.

(** The text after a token never starts with a quantifier. *)
Lemma no_quantifier_next toks tr a :
  Forall properToken toks →
  parseQuant a (renderAll (str "[^/]*") (str ".*") toks ++ trailFinal tr ++ str "$")
  = (a, renderAll (str "[^/]*") (str ".*") toks ++ trailFinal tr ++ str "$").
Proof.
  intros Hp. destruct Hp as [|t toks Ht _].
  - destruct tr; reflexivity.
  - rewrite renderAll_cons. destruct t as [c| |]; [|reflexivity..].
    cbn [render]. unfold escapeChar. destruct (isEscaped c) eqn:E; [reflexivity|].
    cbn [app]. unfold parseQuant. simpl in Ht. unfold isStar in Ht. rewrite Ht.
    rewrite (plain_neq c "?"%char E) by (simpl; tauto). reflexivity.
Qed.

Lemma parse_token f t R :
  properToken t →
  (∀ a, parseQuant a R = (a, R)) →
  parseSeq (S f) (render (str "[^/]*") (str ".*") t ++ R)
  = match parseSeq f R with
    | Some (r, out) => Some (Cat (tokenRe t) r, out)
    | None => None
    end.
Proof.
  intros Hp HR. destruct t as [c| |].
  - simpl in Hp. cbn [render tokenRe]. unfold escapeChar. destruct (isEscaped c) eqn:E.
    + cbn [app]. rewrite parseSeq_cons. change (Ascii.eqb "\" ")" || Ascii.eqb "\" "$") with false.
      cbv iota. rewrite parseAtom_escape by (by apply escaped_is_syntax).
      rewrite HR. reflexivity.
    + cbn [app]. rewrite parseSeq_cons.
      rewrite (plain_neq c ")"%char E) by (simpl; tauto).
      rewrite (plain_neq c "$"%char E) by (simpl; tauto).
      cbn [orb]. cbv iota. rewrite parseAtom_plain by done. rewrite HR. reflexivity.
  - reflexivity.
  - reflexivity.
Qed.

Lemma parse_trail tr f :
  (length (trailFinal tr) + 2 ≤ f)%nat →
  parseSeq f (trailFinal tr ++ str "$") = Some (sequence (trailRe tr), str "$").
Proof.
  intros Hf. destruct tr; simpl in Hf.
  - destruct f; [lia|]. reflexivity.
  - do 6 (destruct f; [lia|]). reflexivity.
  - do 3 (destruct f; [lia|]). reflexivity.
Qed.

Lemma parse_tokens toks : ∀ f tr,
  Forall properToken toks →
  (length (trailFinal tr) + 2 ≤ f)%nat →
  parseSeq (length toks + f)
    (renderAll (str "[^/]*") (str ".*") toks ++ trailFinal tr ++ str "$")
  = Some (sequence (map tokenRe toks ++ trailRe tr), str "$").
Proof.
  induction toks as [|t toks IH]; intros f tr Hp Hf.
  - apply parse_trail. exact Hf.
  - apply Forall_cons in Hp as [Ht Hp].
    rewrite renderAll_cons, <- app_assoc. cbn [length plus].
    rewrite parse_token; [|exact Ht | intros a; by apply no_quantifier_next].
    rewrite IH by done. reflexivity.
Qed.

Lemma render_nonempty t : (1 ≤ length (render (str "[^/]*") (str ".*") t))%nat.
Proof.
  destruct t as [c| |]; simpl; try lia. unfold escapeChar. destruct (isEscaped c); simpl; lia.
Qed.

Lemma renderAll_length toks :
  (length toks ≤ length (renderAll (str "[^/]*") (str ".*") toks))%nat.
Proof.
  induction toks as [|t toks IH]; [simpl; lia|].
  rewrite renderAll_cons, length_app. pose proof (render_nonempty t).
  change (length (t :: toks)) with (S (length toks)). lia.
Qed.

(** The compiler never throws, and the expression it builds is the
    token-by-token one, anchored at both ends and case-insensitive. *)
Lemma patternToRegex_tokens p :
  patternToRegex p = Some (mkRegexp (compileTokens p) true true true).
Proof.
  unfold patternToRegex, compileTokens. rewrite regexSource_tokens.
  pose proof (splitTrail_proper _ (tokenize_proper (length p) p (le_n _))) as Hp.
  destruct (splitTrail (tokenize p)) as [pre tr]. cbn [fst snd] in *.
  rewrite <- app_assoc.
  set (src := renderAll (str "[^/]*") (str ".*") pre ++ trailFinal tr ++ str "$").
  change (str "^" ++ src) with ("^"%char :: src). unfold RegExp.
  change (Ascii.eqb "^" "^") with true. cbv iota beta.
  assert (Hfuel : ∃ f, S (length src) = (length pre + f)%nat
                       ∧ (length (trailFinal tr) + 2 ≤ f)%nat).
  { exists (S (length src) - length pre)%nat.
    pose proof (renderAll_length pre) as Hlen. unfold src.
    rewrite !length_app. change (length (str "$")) with 1%nat. lia. }
  destruct Hfuel as (f & -> & Hf). unfold src.
  rewrite (parse_tokens pre f tr Hp Hf). reflexivity.
Qed.

(** *** What the expression of a pattern accepts *)

Lemma toUpper_slash x : Ascii.eqb (toUpper x) "/"%char = Ascii.eqb x "/"%char.
Proof. destruct x as [[] [] [] [] [] [] [] []]; reflexivity. Qed.

Lemma Matches_chr ic c s : Matches ic (Chr c) s ↔ ∃ x, s = [x] ∧ chrOk ic c x = true.
Proof.
  split.
  - intros H. inversion H; subst. eauto.
  - intros (x & -> & H). by constructor.
Qed.

Lemma Matches_dot ic s : Matches ic Dot s ↔ ∃ x, s = [x] ∧ dotChar x.
Proof.
  unfold dotChar. split.
  - intros H. inversion H as [| |x Hx| | | | | | | |]; subst. exists x. split; [done|].
    unfold dotOk in Hx. by apply negb_true_iff in Hx.
  - intros (x & -> & H). constructor. unfold dotOk. by apply negb_true_iff.
Qed.

Lemma Matches_opt ic r s : Matches ic (Opt r) s ↔ s = [] ∨ Matches ic r s.
Proof.
  split.
  - intros H. inversion H; subst; auto.
  - intros [-> | H]; [constructor | by constructor].
Qed.

Lemma Matches_notSlash_star s :
  Matches true (Star notSlash) s ↔ Forall (fun x => x ≠ "/"%char) s.
Proof.
  unfold notSlash. rewrite Matches_star_notcls. apply Forall_iff. intros x.
  unfold notClsOk. cbn [map memb canon]. change (toUpper "/") with "/"%char.
  rewrite orb_false_r, negb_true_iff, toUpper_slash. split.
  - intros H ->. discriminate H.
  - intros H. destruct (Ascii.eqb x "/") eqn:E; [|reflexivity].
    apply Ascii.eqb_eq in E. done.
Qed.

Lemma Matches_any_star s : Matches true (Star Dot) s ↔ Forall dotChar s.
Proof.
  rewrite Matches_star_dot. apply Forall_iff. intros x. unfold dotOk, dotChar.
  apply negb_true_iff.
Qed.

Lemma Matches_token t seg : Matches true (tokenRe t) seg ↔ segmentOk dotChar t seg.
Proof.
  destruct t as [c| |]; simpl.
  - rewrite Matches_chr. unfold chrOk. cbn [canon]. split.
    + intros (x & -> & H). apply Ascii.eqb_eq in H. eauto.
    + intros (x & -> & H). exists x. split; [done|]. by apply Ascii.eqb_eq.
  - apply Matches_notSlash_star.
  - apply Matches_any_star.
Qed.

Lemma Matches_sequence_app ic rs1 rs2 s :
  Matches ic (sequence (rs1 ++ rs2)) s
  ↔ ∃ s1 s2, s = s1 ++ s2 ∧ Matches ic (sequence rs1) s1 ∧ Matches ic (sequence rs2) s2.
Proof.
  revert s. induction rs1 as [|r rs1 IH]; intros s; simpl.
  - split.
    + intros H. exists [], s. split; [done|]. split; [constructor | done].
    + intros (s1 & s2 & -> & H1 & H2). apply Matches_eps in H1 as ->. done.
  - rewrite Matches_cat. split.
    + intros (s1 & s2 & -> & H1 & H2). apply IH in H2 as (s3 & s4 & -> & H3 & H4).
      exists (s1 ++ s3), s4. rewrite app_assoc. split; [done|]. split; [|done].
      apply Matches_cat. eauto.
    + intros (s1 & s2 & -> & H1 & H2). apply Matches_cat in H1 as (s3 & s4 & -> & H3 & H4).
      exists s3, (s4 ++ s2). rewrite app_assoc. split; [done|]. split; [done|].
      apply IH. eauto.
Qed.

Lemma Matches_sequence_tokens toks s :
  Matches true (sequence (map tokenRe toks)) s
  ↔ ∃ segs, s = concat segs ∧ Forall2 (segmentOk dotChar) toks segs.
Proof.
  revert s. induction toks as [|t toks IH]; intros s; simpl.
  - rewrite Matches_eps. split.
    + intros ->. exists []. split; [done | constructor].
    + intros (segs & -> & H). inversion H. done.
  - rewrite Matches_cat. split.
    + intros (s1 & s2 & -> & H1 & H2). apply IH in H2 as (segs & -> & H2).
      exists (s1 :: segs). split; [done|]. constructor; [by apply Matches_token | done].
    + intros (segs & -> & H). inversion H as [|? seg ? segs' Hseg Hrest]; subst.
      exists seg, (concat segs'). split; [done|]. split; [by apply Matches_token|].
      apply IH. eauto.
Qed.

Lemma Matches_tail s :
  (∃ s1 s2, s = s1 ++ s2 ∧ Matches true Dot s1
            ∧ Matches true (Cat (Star notSlash) Eps) s2)
  ↔ ∃ x rest, s = x :: rest ∧ dotChar x
              ∧ Forall (fun y => y ≠ "/"%char) rest.
Proof.
  split.
  - intros (s1 & s2 & -> & H1 & H2). apply Matches_dot in H1 as (x & -> & Hx).
    apply Matches_cat in H2 as (s3 & s4 & -> & H3 & H4). apply Matches_eps in H4 as ->.
    rewrite app_nil_r. exists x, s3. split; [done|]. split; [done|].
    by apply Matches_notSlash_star.
  - intros (x & rest & -> & Hx & Hrest). exists [x], rest. split; [done|].
    split; [apply Matches_dot; eauto|]. apply Matches_cat. exists rest, [].
    rewrite app_nil_r. split; [done|]. split; [by apply Matches_notSlash_star | constructor].
Qed.

Lemma Matches_trail tr tl :
  Matches true (sequence (trailRe tr)) tl ↔ trailOk dotChar tr tl.
Proof.
  destruct tr; simpl.
  - apply Matches_eps.
  - rewrite Matches_cat. split.
    + intros (s1 & s2 & -> & H1 & H2). apply Matches_eps in H2 as ->. rewrite app_nil_r.
      apply Matches_opt in H1 as [-> | H1]; [by left|]. right.
      apply Matches_cat in H1 as (s3 & s4 & -> & H3 & H4).
      apply Matches_chr in H3 as (y & -> & Hy). unfold chrOk in Hy. cbn [canon] in Hy.
      change (toUpper "/") with "/"%char in Hy. rewrite toUpper_slash in Hy.
      apply Ascii.eqb_eq in Hy as ->.
      apply Matches_cat in H4. apply Matches_tail in H4 as (x & rest & -> & Hx & Hrest).
      exists x, rest. done.
    + intros [-> | (x & rest & -> & Hx & Hrest)].
      * exists [], []. split; [done|]. split; [constructor | constructor].
      * exists ("/"%char :: x :: rest), []. rewrite app_nil_r. split; [done|].
        split; [|constructor]. apply MOptSome. apply Matches_cat.
        exists ["/"%char], (x :: rest). split; [done|]. split; [by constructor|].
        apply Matches_cat. apply Matches_tail. eauto.
  - rewrite Matches_cat. apply Matches_tail.
Qed.

Lemma test_tokens p cand :
  test (mkRegexp (compileTokens p) true true true) cand = true
  ↔ matchesTokens dotChar p cand.
Proof.
  rewrite test_anchored. unfold compileTokens, matchesTokens.
  destruct (splitTrail (tokenize p)) as [pre tr].
  rewrite Matches_sequence_app. split.
  - intros (s1 & s2 & -> & H1 & H2). apply Matches_sequence_tokens in H1 as (segs & -> & H1).
    apply Matches_trail in H2. eauto.
  - intros (segs & tl & -> & H1 & H2). exists (concat segs), tl. split; [done|].
    split; [apply Matches_sequence_tokens; eauto | by apply Matches_trail].
Qed.

Lemma Forall_concat_app (P : ascii → Prop) segs tl :
  Forall P (concat segs ++ tl) → Forall (Forall P) segs ∧ Forall P tl.
Proof.
  induction segs as [|seg segs IH]; simpl; intros H.
  - split; [constructor | exact H].
  - rewrite <- app_assoc in H. apply Forall_app in H as [Hseg H].
    destruct (IH H) as [Hsegs Htl]. split; [by constructor | exact Htl].
Qed.

(** On a candidate without line terminators the dot is no restriction. *)
Lemma matchesTokens_any p cand :
  Forall dotChar cand → matchesTokens dotChar p cand ↔ matchesTokens anyChar p cand.
Proof.
  intros Hcand. unfold matchesTokens. destruct (splitTrail (tokenize p)) as [pre tr]. split.
  - intros (segs & tl & Heq & Hsegs & Htl). exists segs, tl. split; [exact Heq|]. split.
    + eapply Forall2_impl; [exact Hsegs|]. intros [c| |] seg; simpl; try done.
      intros _. by apply Forall_forall.
    + destruct tr; simpl in *; [done| |].
      * destruct Htl as [-> | (x & rest & -> & _ & Hrest)]; [by left|].
        right. exists x, rest. done.
      * destruct Htl as (x & rest & -> & _ & Hrest). exists x, rest. done.
  - intros (segs & tl & Heq & Hsegs & Htl). exists segs, tl. split; [exact Heq|].
    subst cand. apply Forall_concat_app in Hcand as [Hall Htail]. split.
    + clear Htl Htail. induction Hsegs as [|t seg pre' segs' Hseg _ IH]; [constructor|].
      apply Forall_cons in Hall as [Hs Hall]. constructor; [|by apply IH].
      destruct t as [c| |]; simpl in *; done.
    + destruct tr; simpl in *; [done| |].
      * destruct Htl as [-> | (x & rest & -> & _ & Hrest)]; [by left|].
        right. exists x, rest. split; [done|]. split; [|done].
        apply Forall_cons in Htail as [_ Htail]. by apply Forall_cons in Htail as [? _].
      * destruct Htl as (x & rest & -> & _ & Hrest). exists x, rest.
        split; [done|]. split; [|done]. by apply Forall_cons in Htail as [? _].
Qed.

(** C3. Every pattern compiles, and the expression is anchored at both ends
    and case-insensitive: a candidate is accepted exactly when the whole of
    it splits into one segment per token of the pattern, followed by what
    the trailing form accepts.  A literal takes its character in either case;
    a double star takes any run of characters a dot takes, slashes included;
    a single star that is not in the trailing position takes a run without a
    slash.  On a candidate without line terminators, as the host, path and
    query of a URL are, the double star takes any run of characters. *)
Theorem glob_semantics (p cand : jsstring) :
  ∃ rx, patternToRegex p = Some rx
        ∧ anchoredStart rx = true ∧ anchoredEnd rx = true ∧ ignoreCase rx = true
        ∧ (test rx cand = true ↔ matchesTokens dotChar p cand)
        ∧ (Forall dotChar cand → (test rx cand = true ↔ matchesTokens anyChar p cand)).
Proof.
  exists (mkRegexp (compileTokens p) true true true).
  split; [apply patternToRegex_tokens|]. do 3 (split; [reflexivity|]).
  split; [apply test_tokens|].
  intros Hcand. rewrite test_tokens. by apply matchesTokens_any.
Qed.

(** The pattern [a/**/b]: the double star takes [x/y], slash included. *)
Lemma glob_semantics_witness :
  ∃ rx, patternToRegex (str "a/**/b") = Some rx ∧ test rx (str "A/x/y/b") = true.
Proof.
  destruct (glob_semantics (str "a/**/b") (str "A/x/y/b"))
    as (rx & Hrx & _ & _ & _ & _ & Hiff).
  exists rx. split; [exact Hrx|]. apply Hiff.
  - repeat constructor.
  - exists [str "A"; str "/"; str "x/y"; str "/"; str "b"], [].
    split; [reflexivity|]. split; [|reflexivity].
    repeat constructor; try (eexists; split; reflexivity).
Defined.

(** C2. For the pattern [example.com/*] the replacement of the remaining
    stars also rewrites the star of the group just appended for the trailing
    slash-star, so the source handed to the constructor accepts, after the
    host, a slash, one character and a run without slashes.  The host alone
    and one path segment are accepted, the host followed by [2] is rejected,
    but a path of two segments and the bare slash are rejected as well. *)
Theorem trailing_slash_star_misses_subpaths :
  regexSource (str "example.com/*") = str "example\.com(?:/.[^/]*)?"
  ∧ ∃ rx, patternToRegex (str "example.com/*") = Some rx
          ∧ test rx (str "example.com") = true
          ∧ test rx (str "example.com/a") = true
          ∧ test rx (str "example.com2") = false
          ∧ test rx (str "example.com/a/b") = false
          ∧ test rx (str "example.com/") = false.
Proof.
  split; [vm_compute; reflexivity|].
  eexists. split; [vm_compute; reflexivity|]. vm_compute. repeat split; reflexivity.
Qed.

(** The examples of the specification for single stars. *)
Example spec_examples_single_star :
  (∃ rx, patternToRegex (str "*.example.com/*") = Some rx
         ∧ test rx (str "a.example.com/x") = true
         ∧ test rx (str "a.b.example.com/x") = true)
  ∧ (∃ rx, patternToRegex (str "reddit.com/r/*") = Some rx
           ∧ test rx (str "reddit.com/r/programming") = true
           ∧ test rx (str "reddit.com/x/r/programming") = false).
Proof.
  split; (eexists; split; [vm_compute; reflexivity|]; vm_compute; repeat split; reflexivity).
Qed.

End PatternFacts.

(** ** The agent *)

Module AgentFacts.
Import Js Regex Agent RegexFacts PatternFacts.

(** *** Policy evaluation *)

Lemma matchesLoop_total u h ps :
  matchesLoop u h ps
  = Some (existsb (fun p => test (mkRegexp (compileTokens p) true true true) u
                            || test (mkRegexp (compileTokens p) true true true) h) ps).
Proof.
  induction ps as [|p ps IH]; [reflexivity|].
  simpl. rewrite patternToRegex_tokens.
  destruct (test _ u); [reflexivity|]. destruct (test _ h); [reflexivity|]. exact IH.
Qed.

Lemma matchesPattern_exists URL url ps :
  matchesPattern URL url ps = true ↔ ∃ p, In p ps ∧ patternMatches URL url p = true.
Proof.
  unfold patternMatches, matchesPattern. destruct (URL url) as [parsed|].
  2:{ split; [discriminate | intros (? & _ & ?); discriminate]. }
  rewrite !matchesLoop_total, existsb_exists. split.
  - intros (p & Hin & Hp). exists p. split; [done|].
    rewrite matchesLoop_total. simpl. rewrite orb_false_r. exact Hp.
  - intros (p & Hin & Hp). exists p. split; [done|].
    rewrite matchesLoop_total in Hp. simpl in Hp. rewrite orb_false_r in Hp. exact Hp.
Qed.

Lemma truthy_spec s : truthy s = true ↔ s ≠ [].
Proof. destruct s; simpl; split; congruence. Qed.

Lemma nonempty_spec {A} (l : list A) : (0 <? length l)%nat = true ↔ l ≠ [].
Proof.
  destruct l as [|a l]; split; intros H.
  - discriminate H.
  - by destruct H.
  - discriminate.
  - reflexivity.
Qed.

(** C1. On a configured device the evaluation blocks a URL exactly when it
    is an http(s) URL and either some deny pattern matches it, or the allow
    list is not empty and none of its patterns matches; so a deny match
    blocks even when an allow pattern matches too. Other schemes, an
    unconfigured device, and two empty lists evaluate to allow. *)
Theorem shouldBlockUrl_policy (URL : jsstring → option ParsedURL) (st : State)
    (u : jsstring) :
  let denyList := deny (getPatterns st) in
  let allowList := allow (getPatterns st) in
  (shouldBlockUrl URL st u = true
   ↔ isHttp u = true ∧ token (getConfig st) ≠ []
     ∧ ((∃ p, In p denyList ∧ patternMatches URL u p = true)
        ∨ (allowList ≠ [] ∧ ∀ p, In p allowList → patternMatches URL u p = false)))
  ∧ (isHttp u = true → token (getConfig st) ≠ [] →
     (∃ p, In p denyList ∧ patternMatches URL u p = true) →
     shouldBlockUrl URL st u = true)
  ∧ (isHttp u = false → shouldBlockUrl URL st u = false)
  ∧ (token (getConfig st) = [] → shouldBlockUrl URL st u = false)
  ∧ (allowList = [] → denyList = [] → shouldBlockUrl URL st u = false).
Proof.
  cbv zeta.
  assert (Hiff : shouldBlockUrl URL st u = true
     ↔ isHttp u = true ∧ token (getConfig st) ≠ []
       ∧ ((∃ p, In p (deny (getPatterns st)) ∧ patternMatches URL u p = true)
          ∨ (allow (getPatterns st) ≠ []
             ∧ ∀ p, In p (allow (getPatterns st)) → patternMatches URL u p = false))).
  { unfold shouldBlockUrl, isHttp. rewrite <- negb_orb.
    destruct (startsWith u (str "http://") || startsWith u (str "https://")); simpl.
    2:{ split; [discriminate | intros [? _]; discriminate]. }
    rewrite <- truthy_spec. destruct (truthy (token (getConfig st))); simpl.
    2:{ split; [discriminate | intros (_ & ? & _); discriminate]. }
    rewrite <- matchesPattern_exists, <- (nonempty_spec (allow _)).
    assert (Hall : (∀ p, In p (allow (getPatterns st)) → patternMatches URL u p = false)
                   ↔ matchesPattern URL u (allow (getPatterns st)) = false).
    { split.
      - intros H. destruct (matchesPattern URL u _) eqn:E; [|reflexivity].
        apply matchesPattern_exists in E as (p & Hin & Hp). rewrite (H p Hin) in Hp. discriminate.
      - intros H p Hin. destruct (patternMatches URL u p) eqn:E; [|reflexivity].
        assert (matchesPattern URL u (allow (getPatterns st)) = true)
          by (apply matchesPattern_exists; eauto). congruence. }
    rewrite Hall.
    destruct (deny (getPatterns st)) as [|d ds] eqn:Hd.
    - assert (Hnil : matchesPattern URL u [] = false).
      { unfold matchesPattern. destruct (URL u); reflexivity. }
      rewrite Hnil. simpl.
      destruct (0 <? length (allow (getPatterns st)))%nat; simpl;
        destruct (matchesPattern URL u (allow (getPatterns st))); simpl; intuition congruence.
    - simpl. destruct (matchesPattern URL u (d :: ds)); simpl; [intuition|].
      destruct (0 <? length (allow (getPatterns st)))%nat; simpl;
        destruct (matchesPattern URL u (allow (getPatterns st))); simpl; intuition congruence. }
  split; [exact Hiff|]. split; [|split; [|split]].
  - intros H1 H2 H3. apply Hiff. auto.
  - intros H. apply not_true_is_false. intros E.
    apply Hiff in E as [E _]. congruence.
  - intros H. apply not_true_is_false. intros E.
    apply Hiff in E as (_ & E & _). congruence.
  - intros Ha Hd. apply not_true_is_false. intros E.
    apply Hiff in E as (_ & _ & [(p & Hin & _) | [Hne _]]).
    + rewrite Hd in Hin. destruct Hin.
    + congruence.
Qed.

(** The scenario of the specification: the deny pattern [bad.com/*] blocks
    [http://bad.com/x]; [http://good.com] is allowed, there being no allow
    list. *)
Lemma shouldBlockUrl_policy_witness :
  shouldBlockUrl plainURL (exampleState false) (str "http://bad.com/x") = true
  ∧ shouldBlockUrl plainURL (exampleState false) (str "chrome://settings") = false.
Proof.
  split.
  - destruct (shouldBlockUrl_policy plainURL (exampleState false) (str "http://bad.com/x"))
      as (_ & H & _).
    apply H; [reflexivity | discriminate |].
    exists (str "bad.com/*"). split; [left; reflexivity | vm_compute; reflexivity].
  - destruct (shouldBlockUrl_policy plainURL (exampleState false) (str "chrome://settings"))
      as (_ & _ & H & _).
    apply H. reflexivity.
Defined.

(** *** Snapshots *)

Lemma fold_pushPattern l : ∀ acc,
  fold_left pushPattern l acc
  = mkPatterns (allow acc ++ map pattern (filter (fun p => type p = str "allow") l))
               (deny acc ++ map pattern (filter (fun p => type p = str "deny") l)).
Proof.
  induction l as [|p l IH]; intros [a d].
  - cbn [fold_left allow deny]. rewrite !filter_nil. cbn [map].
    rewrite !app_nil_r. reflexivity.
  - cbn [fold_left]. rewrite IH, !filter_cons. unfold pushPattern. cbn [allow deny].
    destruct (decide (type p = str "allow")) as [Ha|Ha].
    + rewrite (bool_decide_eq_true_2 _ Ha).
      rewrite (decide_False (P := type p = str "deny"))
        by (rewrite Ha; discriminate).
      cbn [allow deny map]. rewrite <- app_assoc. reflexivity.
    + rewrite (bool_decide_eq_false_2 _ Ha).
      destruct (decide (type p = str "deny")) as [Hd|Hd].
      * rewrite (bool_decide_eq_true_2 _ Hd). cbn [allow deny map].
        rewrite <- app_assoc. reflexivity.
      * rewrite (bool_decide_eq_false_2 _ Hd). reflexivity.
Qed.

(** The cache content of a snapshot: its allow patterns and its deny
    patterns, each in the order of the snapshot, and nothing else. *)
Lemma organize_spec data :
  organize data = mkPatterns (ofType (str "allow") data) (ofType (str "deny") data).
Proof. unfold organize, ofType. rewrite fold_pushPattern. reflexivity. Qed.

Lemma deliver_configured how now data st :
  configured (deliver how now data st) = configured st.
Proof.
  destruct how; simpl.
  - reflexivity.
  - unfold fetchPatterns, configured.
    destruct (truthy (token (getConfig st))) eqn:E1,
             (truthy (apiUrl (getConfig st))) eqn:E2;
      simpl; rewrite ?E1, ?E2; reflexivity.
Qed.

Lemma deliver_patterns how now data st :
  configured st = true → storedPatterns (deliver how now data st) = Some (organize data).
Proof.
  intros Hc. destruct how; simpl; [reflexivity|].
  unfold fetchPatterns. unfold configured in Hc. apply andb_true_iff in Hc as [-> ->].
  reflexivity.
Qed.

(** C4. On a configured agent, applying snapshot A and then snapshot B,
    each by push or by poll, leaves the cache with exactly the allow and deny
    patterns of B: the same cache as applying B alone, whatever A was and
    whichever of the two is the older store state. *)
Theorem snapshot_replaces_cache (how1 how2 : Delivery) (t1 t2 : Z) (A B : Snapshot)
    (st : State) :
  configured st = true →
  let after := deliver how2 t2 B (deliver how1 t1 A st) in
  getPatterns after = mkPatterns (ofType (str "allow") B) (ofType (str "deny") B)
  ∧ getPatterns after = getPatterns (deliver how2 t2 B st).
Proof.
  intros Hc. cbv zeta. unfold getPatterns.
  rewrite (deliver_patterns how2 t2 B st Hc).
  rewrite (deliver_patterns how2 t2 B (deliver how1 t1 A st))
    by (rewrite deliver_configured; exact Hc).
  simpl. rewrite organize_spec. done.
Qed.

(** A pushed snapshot with two patterns, then a polled one with the deny
    pattern alone: the allow pattern is gone. *)
Lemma snapshot_replaces_cache_witness :
  getPatterns (deliver ByPoll 20 snapshotB (deliver ByPush 10 snapshotA (exampleState true)))
  = mkPatterns [] [str "bad.com/*"].
Proof.
  destruct (snapshot_replaces_cache ByPush ByPoll 10 20 snapshotA snapshotB
              (exampleState true) eq_refl) as [H _].
  exact H.
Defined.

(** *** The poll timer *)

(** C9 (amended). A tick of the poll timer pulls the snapshot exactly when
    the agent is configured (token and server address set), whether or not
    the persistent connection is established. *)
Theorem poll_tick_pulls_when_configured (now : Z) (resp : option Response) (st : State) :
  pulls (snd (onAlarm (str "syncPatterns") now resp st)) = configured st.
Proof.
  unfold onAlarm. rewrite bool_decide_eq_true_2 by reflexivity.
  rewrite (bool_decide_eq_false_2 (str "syncPatterns" = str "heartbeat")) by discriminate.
  rewrite (bool_decide_eq_false_2 (str "syncPatterns" = str "wsReconnect")) by discriminate.
  unfold periodicSync, fetchPatterns, configured.
  destruct (truthy (token (getConfig st))); simpl; [|reflexivity].
  destruct (truthy (apiUrl (getConfig st))); simpl; [|reflexivity].
  destruct resp as [r|]; [|reflexivity].
  destruct (respOk r); simpl; [|reflexivity].
  destruct (respJson r); reflexivity.
Qed.

(** C9 as stated fails: the agent is connected and the tick pulls all the
    same. *)
Lemma poll_tick_pulls_while_connected :
  wsConnected (exampleState true) = true
  ∧ pulls (snd (onAlarm (str "syncPatterns") 10 None (exampleState true))) = true
  ∧ ¬ pollOnlyWhenDisconnected.
Proof.
  split; [reflexivity|]. split; [reflexivity|]. intros H.
  specialize (H 10 None (exampleState true) eq_refl). discriminate H.
Qed.

End AgentFacts.

(** ** The store: snapshots, patterns, devices *)

Module StoreFacts.
Import Models Store.

Lemma Second_pos : 0 < Second.
Proof. reflexivity. Qed.

Lemma datetime_mono a b : a ≤ b → datetime a ≤ datetime b.
Proof. intros H. unfold datetime. apply Z.div_le_mono; [exact Second_pos | exact H]. Qed.

Lemma In_insertDesc {A} (key : A → Z) (a x : A) (l : list A) :
  In x (insertDesc key a l) ↔ x = a ∨ In x l.
Proof.
  induction l as [|y l IH]; simpl.
  - split; intros [H|H]; auto.
  - destruct (key a <? key y); simpl; [rewrite IH|]; split; intros H;
      repeat (destruct H as [H|H]); auto.
Qed.

Lemma In_sortDesc {A} (key : A → Z) (x : A) (l : list A) :
  In x (sortDesc key l) ↔ In x l.
Proof.
  induction l as [|y l IH]; simpl; [done|].
  rewrite In_insertDesc, IH. split; intros [H|H]; auto.
Qed.

Lemma served_iff now db id p :
  served now db id p
  ↔ In p (patterns db) ∧ PatternDeviceID p = id ∧ isLive now p = true.
Proof.
  unfold served, GetPatternsByDevice. split.
  - intros (l & [= <-] & Hin). apply In_sortDesc, filter_In in Hin as [Hin Hp].
    apply andb_true_iff in Hp as [Hid Hlive]. split; [done|]. split; [lia | done].
  - intros (Hin & Hid & Hlive). eexists. split; [reflexivity|].
    apply In_sortDesc, filter_In. split; [done|].
    apply andb_true_iff. split; [lia | done].
Qed.

Lemma isLive_spec now p :
  isLive now p = true
  ↔ Enabled p = true
    ∧ match ExpiresAt p with None => True | Some e => datetime now < datetime e end.
Proof.
  unfold isLive. rewrite andb_true_iff. destruct (ExpiresAt p) as [e|]; [|tauto].
  rewrite Z.ltb_lt. tauto.
Qed.

(** X1. A snapshot only loses patterns as time passes while the store is
    left alone: what is served at a later instant was served at every earlier
    one; an enabled pattern without expiry is served at every instant; a
    pattern whose expiry second has been reached is never served again. *)
Theorem snapshot_only_shrinks (now later : Z) (db : DB) (id : Z) (p : Pattern) :
  now ≤ later →
  (served later db id p → served now db id p)
  ∧ (In p (patterns db) → PatternDeviceID p = id → Enabled p = true →
     ExpiresAt p = None → served later db id p)
  ∧ (∀ e, ExpiresAt p = Some e → datetime e ≤ datetime now → ¬ served later db id p).
Proof.
  intros Hle. pose proof (datetime_mono _ _ Hle) as Hd. split; [|split].
  - rewrite !served_iff, !isLive_spec. intros (Hin & Hid & Hen & Hex).
    split; [done|]. split; [done|]. split; [done|].
    destruct (ExpiresAt p) as [e|]; [lia | done].
  - intros Hin Hid Hen Hex. apply served_iff. split; [done|]. split; [done|].
    apply isLive_spec. rewrite Hex. done.
  - intros e He Hpast. rewrite served_iff, isLive_spec, He. intros (_ & _ & _ & Hlt). lia.
Qed.

(** The allow rule of the phone expires at second ten: served at second
    nine, and what is served at second nine was served at second three. *)
Lemma snapshot_only_shrinks_witness :
  served (3 * Second) exampleStore 1 allowNews
  ∧ ¬ served (11 * Second) exampleStore 1 allowNews.
Proof.
  assert (H9 : served (9 * Second) exampleStore 1 allowNews).
  { eexists. split; [reflexivity|]. vm_compute. auto. }
  destruct (snapshot_only_shrinks (3 * Second) (9 * Second) exampleStore 1 allowNews)
    as (Hback & _ & _); [vm_compute; discriminate|].
  destruct (snapshot_only_shrinks (10 * Second) (11 * Second) exampleStore 1 allowNews)
    as (_ & _ & Hgone); [vm_compute; discriminate|].
  split; [exact (Hback H9)|].
  apply (Hgone (10 * Second)); [reflexivity | vm_compute; discriminate].
Defined.

(** *** Disabling a pattern *)

Lemma enableRow_ID b id p : PatternID (enableRow b id p) = PatternID p.
Proof. unfold enableRow. destruct (PatternID p =? id); reflexivity. Qed.

Lemma enableRow_other b id p : PatternID p ≠ id → enableRow b id p = p.
Proof. unfold enableRow. intros H. destruct (PatternID p =? id) eqn:E; [lia | reflexivity]. Qed.

Lemma enableRow_hit b id p :
  PatternID p = id → Enabled (enableRow b id p) = b.
Proof. unfold enableRow. intros H. destruct (PatternID p =? id) eqn:E; [reflexivity | lia]. Qed.

Lemma enableRow_back id p :
  (PatternID p = id → Enabled p = true) → enableRow true id (enableRow false id p) = p.
Proof.
  intros H. unfold enableRow. destruct (PatternID p =? id) eqn:E; simpl; rewrite ?E; [|done].
  destruct p as [pid dev txt ty en ex cr]. simpl in *. rewrite H by lia. reflexivity.
Qed.

(** X2. Disabling a pattern removes it from every snapshot and touches no
    other pattern; enabling it again puts the table back as it was, provided
    the pattern was enabled before. *)
Theorem toggle_hides_and_restores (db : DB) (id : Z) :
  (∀ p, In p (patterns db) → PatternID p = id → Enabled p = true) →
  let off := fst (TogglePatternEnabled true db id false) in
  (∀ now dev p, served now off dev p → PatternID p ≠ id)
  ∧ (∀ now dev p, PatternID p ≠ id → (served now off dev p ↔ served now db dev p))
  ∧ fst (TogglePatternEnabled true off id true) = db.
Proof.
  intros Hen. cbv zeta. split; [|split].
  - intros now dev p. rewrite served_iff, isLive_spec. simpl.
    intros (Hin & _ & Hon & _) Hid. apply in_map_iff in Hin as (p0 & <- & _).
    rewrite enableRow_ID in Hid. rewrite (enableRow_hit _ _ _ Hid) in Hon. discriminate.
  - intros now dev p Hid. rewrite !served_iff. simpl.
    assert (In p (map (enableRow false id) (patterns db)) ↔ In p (patterns db)) as ->; [|done].
    rewrite in_map_iff. split.
    + intros (p0 & <- & Hin). rewrite enableRow_ID in Hid.
      rewrite enableRow_other by done. exact Hin.
    + intros Hin. exists p. split; [apply enableRow_other; done | exact Hin].
  - destruct db as [ds ps rs]. simpl in *. unfold setPatterns. simpl. f_equal.
    rewrite map_map. induction ps as [|p ps IH]; [reflexivity|].
    simpl. rewrite enableRow_back by (intros; apply Hen; [left|]; done).
    f_equal. apply IH. intros q Hq. apply Hen. by right.
Qed.

(** The allow rule of the phone: disabled, it is not served at second
    three; enabled again, the store is the one before. *)
Lemma toggle_hides_and_restores_witness :
  ¬ served (3 * Second) (fst (TogglePatternEnabled true exampleStore 2 false)) 1 allowNews
  ∧ fst (TogglePatternEnabled true
           (fst (TogglePatternEnabled true exampleStore 2 false)) 2 true) = exampleStore.
Proof.
  destruct (toggle_hides_and_restores exampleStore 2) as (Hhide & _ & Hback).
  - intros p [<-|[<-|[<-|[]]]]; intros Hid; try reflexivity; discriminate Hid.
  - split; [|exact Hback]. intros Hs. exact (Hhide _ _ _ Hs eq_refl).
Defined.

(** *** Deleting a device *)

Lemma find_filter_neq {A} (key : A → Z) (id id' : Z) (l : list A) :
  id' ≠ id →
  List.find (fun x => key x =? id') (List.filter (fun x => negb (key x =? id)) l)
  = List.find (fun x => key x =? id') l.
Proof.
  intros Hne. induction l as [|x l IH]; [reflexivity|]. simpl.
  destruct (key x =? id) eqn:E; simpl.
  - destruct (key x =? id') eqn:E'; [lia | exact IH].
  - destruct (key x =? id'); [reflexivity | exact IH].
Qed.

Lemma find_filter_eq {A} (key : A → Z) (id : Z) (l : list A) :
  List.find (fun x => key x =? id) (List.filter (fun x => negb (key x =? id)) l) = None.
Proof.
  induction l as [|x l IH]; [reflexivity|]. simpl.
  destruct (key x =? id) eqn:E; simpl; [exact IH | rewrite E; exact IH].
Qed.

Lemma filter_filter_neq (now id id' : Z) (l : list Pattern) :
  id' ≠ id →
  List.filter (fun p => (PatternDeviceID p =? id') && isLive now p)
    (List.filter (fun p => negb (PatternDeviceID p =? id)) l)
  = List.filter (fun p => (PatternDeviceID p =? id') && isLive now p) l.
Proof.
  intros Hne. induction l as [|p l IH]; [reflexivity|]. simpl.
  destruct (PatternDeviceID p =? id) eqn:E; simpl.
  - destruct (PatternDeviceID p =? id') eqn:E'; [lia|]. simpl. exact IH.
  - destruct ((PatternDeviceID p =? id') && isLive now p); [f_equal|]; exact IH.
Qed.

Lemma filter_filter_eq (now id : Z) (l : list Pattern) :
  List.filter (fun p => (PatternDeviceID p =? id) && isLive now p)
    (List.filter (fun p => negb (PatternDeviceID p =? id)) l) = [].
Proof.
  induction l as [|p l IH]; [reflexivity|]. simpl.
  destruct (PatternDeviceID p =? id) eqn:E; simpl; [exact IH|]. rewrite E. exact IH.
Qed.

(** X3. Deleting a device removes its row, every pattern and every access
    request that belongs to it, and nothing else: afterwards the device is
    not found, its snapshot is empty at every instant, no request names it,
    and the rows and snapshots of the other devices are what they were; the
    handler answers 200. *)
Theorem delete_device_cascades (db : DB) (id : Z) :
  let db' := fst (DeleteDevice true db id) in
  GetDeviceByID db' id = None
  ∧ (∀ now, GetPatternsByDevice true now db' id = inl [])
  ∧ (∀ r, In r (requests db') → RequestDeviceID r ≠ id)
  ∧ (∀ r, In r (requests db) → RequestDeviceID r ≠ id → In r (requests db'))
  ∧ (∀ id', id' ≠ id →
       GetDeviceByID db' id' = GetDeviceByID db id'
       ∧ ∀ now, GetPatternsByDevice true now db' id' = GetPatternsByDevice true now db id')
  ∧ Admin.DeleteDevice true db (Some id) = (db', Admin.Answer 200 tt).
Proof.
  cbv zeta. simpl. split; [|split; [|split; [|split; [|split; [|reflexivity]]]]].
  - unfold GetDeviceByID. simpl. apply find_filter_eq.
  - intros now. unfold GetPatternsByDevice. simpl. rewrite filter_filter_eq. reflexivity.
  - intros r Hin. apply filter_In in Hin as [_ H]. apply negb_true_iff in H. lia.
  - intros r Hin Hne. apply filter_In. split; [done|]. apply negb_true_iff. lia.
  - intros id' Hne. split.
    + unfold GetDeviceByID. simpl. by apply find_filter_neq.
    + intros now. unfold GetPatternsByDevice. simpl. by rewrite filter_filter_neq.
Qed.

(** After deleting the phone its two rules are gone and the rule of the
    desktop is still served. *)
Lemma delete_device_cascades_witness :
  GetPatternsByDevice true 0 (fst (DeleteDevice true exampleStore 1)) 1 = inl []
  ∧ GetPatternsByDevice true 0 (fst (DeleteDevice true exampleStore 1)) 2 = inl [allowDocs].
Proof.
  destruct (delete_device_cascades exampleStore 1) as (_ & Hgone & _ & _ & Hother & _).
  split; [exact (Hgone 0)|].
  destruct (Hother 2 ltac:(discriminate)) as [_ Hsnap]. rewrite Hsnap. reflexivity.
Defined.

(** *** The keys of the tables *)

Lemma nextID_above (ids : list Z) (x : Z) : In x ids → x < nextID ids.
Proof.
  unfold nextID. induction ids as [|y ids IH]; simpl; [done|].
  intros [->|Hin]; [lia|]. specialize (IH Hin). lia.
Qed.

Lemma nextID_fresh (ids : list Z) : ¬ In (nextID ids) ids.
Proof. intros H. apply nextID_above in H. lia. Qed.

Lemma NoDup_snoc {A} (l : list A) (x : A) : NoDup l → ¬ In x l → NoDup (l ++ [x]).
Proof.
  intros Hl Hx. apply NoDup_app. split; [exact Hl|]. split.
  - intros y Hy Hy'. apply list_elem_of_singleton in Hy'. subst y.
    apply Hx. by apply list_elem_of_In.
  - apply NoDup_singleton.
Qed.

Lemma NoDup_map_filter {A B} (f : A → B) (P : A → bool) (l : list A) :
  NoDup (map f l) → NoDup (map f (List.filter P l)).
Proof.
  induction l as [|x l IH]; simpl; [done|]. intros H. apply NoDup_cons in H as [Hx Hl].
  destruct (P x); simpl; [|by apply IH]. apply NoDup_cons. split; [|by apply IH].
  intros Hin. apply Hx. apply list_elem_of_In in Hin. apply list_elem_of_In.
  apply in_map_iff in Hin as (y & Hy & Hin). apply filter_In in Hin as [Hin _].
  apply in_map_iff. eauto.
Qed.

Lemma existsb_ID (l : list Device) (id : Z) :
  existsb (fun d => ID d =? id) l = true ↔ In id (map ID l).
Proof.
  rewrite existsb_exists, in_map_iff. split; intros (d & H1 & H2).
  - exists d. split; [lia | done].
  - exists d. split; [done | lia].
Qed.

Lemma tokenRow_ID tok id d : ID (tokenRow tok id d) = ID d.
Proof. unfold tokenRow. destruct (ID d =? id); reflexivity. Qed.

Lemma tokenRow_other tok id d : ID d ≠ id → tokenRow tok id d = d.
Proof. unfold tokenRow. intros H. destruct (ID d =? id) eqn:E; [lia | reflexivity]. Qed.

Lemma tokenRow_hit tok id d : ID d = id → Token (tokenRow tok id d) = tok.
Proof. unfold tokenRow. intros H. destruct (ID d =? id) eqn:E; [reflexivity | lia]. Qed.

Lemma map_tokenRow_absent tok id (l : list Device) :
  ¬ In id (map ID l) → map (tokenRow tok id) l = l.
Proof.
  induction l as [|d l IH]; simpl; [done|]. intros H.
  rewrite tokenRow_other by tauto. f_equal. apply IH. tauto.
Qed.

(** Rotating the token of one row keeps the tokens distinct when no other
    row holds the new token. *)
Lemma NoDup_tokenRow tok id (l : list Device) :
  NoDup (map ID l) → NoDup (map Token l) →
  (∀ d, In d l → ID d ≠ id → Token d ≠ tok) →
  NoDup (map Token (map (tokenRow tok id) l)).
Proof.
  induction l as [|d l IH]; simpl; [constructor|].
  intros Hid Htok Hnew. apply NoDup_cons in Hid as [Hd Hid].
  apply NoDup_cons in Htok as [Ht Htok]. apply NoDup_cons.
  split; [|apply IH; auto].
  intros Hin. apply list_elem_of_In, in_map_iff in Hin as (r' & Heq & Hin).
  apply in_map_iff in Hin as (r & <- & Hin).
  destruct (decide (ID d = id)) as [Hdid|Hdid].
  - rewrite (tokenRow_hit _ _ _ Hdid) in Heq.
    assert (ID r ≠ id) as Hr.
    { intros Hr. apply Hd. apply list_elem_of_In, in_map_iff. exists r. split; [lia | done]. }
    rewrite (tokenRow_other _ _ _ Hr) in Heq. exact (Hnew r (or_intror Hin) Hr Heq).
  - rewrite (tokenRow_other _ _ d Hdid) in Heq.
    destruct (decide (ID r = id)) as [Hr|Hr].
    + rewrite (tokenRow_hit _ _ _ Hr) in Heq. exact (Hnew d (or_introl eq_refl) Hdid (eq_sym Heq)).
    + rewrite (tokenRow_other _ _ _ Hr) in Heq. apply Ht.
      apply list_elem_of_In, in_map_iff. eauto.
Qed.

Lemma editRow_ID txt ty ex id p : PatternID (editRow txt ty ex id p) = PatternID p.
Proof. unfold editRow. destruct (PatternID p =? id); reflexivity. Qed.

Lemma editRow_device txt ty ex id p :
  PatternDeviceID (editRow txt ty ex id p) = PatternDeviceID p.
Proof. unfold editRow. destruct (PatternID p =? id); reflexivity. Qed.

Lemma enableRow_device b id p : PatternDeviceID (enableRow b id p) = PatternDeviceID p.
Proof. unfold enableRow. destruct (PatternID p =? id); reflexivity. Qed.

Lemma heartbeatRow_Token now id d : Token (heartbeatRow now id d) = Token d.
Proof. unfold heartbeatRow. destruct (ID d =? id); reflexivity. Qed.

Lemma heartbeatRow_key now id d : ID (heartbeatRow now id d) = ID d.
Proof. unfold heartbeatRow. destruct (ID d =? id); reflexivity. Qed.

Lemma statusRow_keys st id d :
  ID (statusRow st id d) = ID d ∧ Token (statusRow st id d) = Token d.
Proof. unfold statusRow. destruct (ID d =? id); done. Qed.

Lemma inactiveRow_keys cutoff d :
  ID (inactiveRow cutoff d) = ID d ∧ Token (inactiveRow cutoff d) = Token d.
Proof. unfold inactiveRow. destruct (isStale cutoff d); done. Qed.

Lemma resolveRow_keys st now id r :
  RequestID (resolveRow st now id r) = RequestID r
  ∧ RequestDeviceID (resolveRow st now id r) = RequestDeviceID r.
Proof. unfold resolveRow. destruct (RequestID r =? id); done. Qed.

Lemma map_key_ext {A B} (f : A → A) (key : A → B) (l : list A) :
  (∀ x, key (f x) = key x) → map key (map f l) = map key l.
Proof. intros H. rewrite map_map. apply map_ext. exact H. Qed.

(** Rewriting the rows of the device table without touching ids or tokens
    keeps the keys. *)
Lemma wellKeyed_devices (f : Device → Device) (db : DB) :
  (∀ d, ID (f d) = ID d) → (∀ d, Token (f d) = Token d) →
  wellKeyed db → wellKeyed (setDevices (map f (devices db)) db).
Proof.
  intros Hid Htok (H1 & H2 & H3 & H4 & H5 & H6). unfold wellKeyed. simpl.
  rewrite (map_key_ext f ID _ Hid), (map_key_ext f Token _ Htok). done.
Qed.

Lemma wellKeyed_patterns (f : Pattern → Pattern) (db : DB) :
  (∀ p, PatternID (f p) = PatternID p) →
  (∀ p, PatternDeviceID (f p) = PatternDeviceID p) →
  wellKeyed db → wellKeyed (setPatterns (map f (patterns db)) db).
Proof.
  intros Hid Hdev (H1 & H2 & H3 & H4 & H5 & H6). unfold wellKeyed. simpl.
  rewrite (map_key_ext f PatternID _ Hid). do 4 (split; [done|]). split; [|done].
  intros p Hin. apply in_map_iff in Hin as (p0 & <- & Hin). rewrite Hdev. by apply H5.
Qed.

Lemma wellKeyed_requests (f : Request → Request) (db : DB) :
  (∀ r, RequestID (f r) = RequestID r) →
  (∀ r, RequestDeviceID (f r) = RequestDeviceID r) →
  wellKeyed db → wellKeyed (setRequests (map f (requests db)) db).
Proof.
  intros Hid Hdev (H1 & H2 & H3 & H4 & H5 & H6). unfold wellKeyed. simpl.
  rewrite (map_key_ext f RequestID _ Hid). do 5 (split; [done|]).
  intros r Hin. apply in_map_iff in Hin as (r0 & <- & Hin). rewrite Hdev. by apply H6.
Qed.

Lemma wellKeyed_CreateDevice ok now db name token :
  wellKeyed db → wellKeyed (fst (CreateDevice ok now db name token)).
Proof.
  intros Hk. unfold CreateDevice. destruct token as [tok|]; [|done].
  destruct ok; [|done].
  destruct (existsb _ (devices db)) eqn:E; [done|].
  destruct Hk as (H1 & H2 & H3 & H4 & H5 & H6). unfold wellKeyed. simpl.
  rewrite !map_app. simpl. split; [|split; [|split; [done|split; [done|split]]]].
  - apply NoDup_snoc; [done | apply nextID_fresh].
  - apply NoDup_snoc; [done|]. intros Hin. apply in_map_iff in Hin as (d & Hd & Hin).
    assert (existsb (fun d => bool_decide (Token d = tok)) (devices db) = true) as Hex.
    { apply existsb_exists. exists d. split; [done|]. by apply bool_decide_eq_true. }
    congruence.
  - intros p Hin. apply in_or_app. left. by apply H5.
  - intros r Hin. apply in_or_app. left. by apply H6.
Qed.

Lemma wellKeyed_RegenerateDeviceToken ok okGet db id token :
  wellKeyed db → wellKeyed (fst (RegenerateDeviceToken ok okGet db id token)).
Proof.
  intros Hk. unfold RegenerateDeviceToken. destruct token as [tok|]; [|done].
  destruct ok; [|done].
  destruct (existsb _ (devices db) && existsb _ (devices db)) eqn:E; [done|].
  assert (wellKeyed (setDevices (map (tokenRow tok id) (devices db)) db)) as Hk'.
  { apply andb_false_iff in E.
    destruct (existsb (fun d => ID d =? id) (devices db)) eqn:Hex0.
    - destruct E as [E|E]; [|discriminate E].
      destruct Hk as (H1 & H2 & H3 & H4 & H5 & H6). unfold wellKeyed. simpl.
      rewrite (map_key_ext (tokenRow tok id) ID _ (tokenRow_ID tok id)).
      split; [done|]. split; [|done]. apply NoDup_tokenRow; [done | done|].
      intros d Hd Hne Htok.
      assert (existsb (fun d => bool_decide (Token d = tok) && negb (ID d =? id))
                (devices db) = true) as Hex; [|congruence].
      apply existsb_exists. exists d. split; [done|]. apply andb_true_iff.
      split; [by apply bool_decide_eq_true | apply negb_true_iff; lia].
    - rewrite map_tokenRow_absent; [by destruct db|].
      intros Hin. apply existsb_ID in Hin. congruence. }
  destruct okGet; [|exact Hk'].
  destruct (GetDeviceByID _ id); exact Hk'.
Qed.

Lemma wellKeyed_DeleteDevice ok db id :
  wellKeyed db → wellKeyed (fst (DeleteDevice ok db id)).
Proof.
  intros Hk. unfold DeleteDevice. destruct ok; [|done].
  destruct Hk as (H1 & H2 & H3 & H4 & H5 & H6). unfold wellKeyed. simpl.
  assert (Hkeep : ∀ x, In x (map ID (devices db)) → x ≠ id →
                       In x (map ID (List.filter (fun d => negb (ID d =? id)) (devices db)))).
  { intros x Hx Hne. apply in_map_iff in Hx as (d & <- & Hd). apply in_map_iff.
    exists d. split; [done|]. apply filter_In. split; [done|]. apply negb_true_iff. lia. }
  split; [by apply NoDup_map_filter|]. split; [by apply NoDup_map_filter|].
  split; [by apply NoDup_map_filter|]. split; [by apply NoDup_map_filter|]. split.
  - intros p Hin. apply filter_In in Hin as [Hin Hne]. apply negb_true_iff in Hne.
    apply Hkeep; [by apply H5 | lia].
  - intros r Hin. apply filter_In in Hin as [Hin Hne]. apply negb_true_iff in Hne.
    apply Hkeep; [by apply H6 | lia].
Qed.

Lemma wellKeyed_CreatePattern ok now db dev pat ty ex :
  wellKeyed db → wellKeyed (fst (Models.CreatePattern ok now db dev pat ty ex)).
Proof.
  intros Hk. unfold Models.CreatePattern. destruct ok; [|done].
  destruct (parsePatternType ty); [|done].
  destruct (existsb _ (devices db)) eqn:E; [|done].
  destruct Hk as (H1 & H2 & H3 & H4 & H5 & H6). unfold wellKeyed. simpl.
  rewrite map_app. simpl. do 2 (split; [done|]).
  split; [apply NoDup_snoc; [done | apply nextID_fresh]|]. split; [done|]. split; [|done].
  intros q Hin. apply in_app_or in Hin as [Hin|[<-|[]]]; [by apply H5|].
  simpl. by apply existsb_ID.
Qed.

Lemma wellKeyed_CreateRequest ok now db dev url sug :
  wellKeyed db → wellKeyed (fst (CreateRequest ok now db dev url sug)).
Proof.
  intros Hk. unfold CreateRequest. destruct ok; [|done].
  destruct (existsb _ (devices db)) eqn:E; [|done].
  destruct Hk as (H1 & H2 & H3 & H4 & H5 & H6). unfold wellKeyed. simpl.
  rewrite map_app. simpl. do 3 (split; [done|]).
  split; [apply NoDup_snoc; [done | apply nextID_fresh]|]. split; [done|].
  intros r Hin. apply in_app_or in Hin as [Hin|[<-|[]]]; [by apply H6|].
  simpl. by apply existsb_ID.
Qed.

Lemma wellKeyed_UpdatePattern ok okGet db id pat ty ex :
  wellKeyed db → wellKeyed (fst (UpdatePattern ok okGet db id pat ty ex)).
Proof.
  intros Hk. unfold UpdatePattern. destruct ok; [|done].
  destruct (parsePatternType ty) as [t|].
  - simpl. apply wellKeyed_patterns; [apply editRow_ID | apply editRow_device | done].
  - destruct (existsb _ (patterns db)); done.
Qed.

Lemma wellKeyed_DeletePattern ok db id :
  wellKeyed db → wellKeyed (fst (DeletePattern ok db id)).
Proof.
  intros Hk. unfold DeletePattern. destruct ok; [|done].
  destruct Hk as (H1 & H2 & H3 & H4 & H5 & H6). unfold wellKeyed. simpl.
  do 2 (split; [done|]). split; [by apply NoDup_map_filter|]. split; [done|].
  split; [|done]. intros p Hin. apply filter_In in Hin as [Hin _]. by apply H5.
Qed.

Lemma wellKeyed_exec db op : wellKeyed db → wellKeyed (exec db op).
Proof.
  intros Hk. destruct op; simpl.
  - by apply wellKeyed_CreateDevice.
  - by apply wellKeyed_RegenerateDeviceToken.
  - by apply wellKeyed_DeleteDevice.
  - unfold UpdateDeviceHeartbeat. destruct ok; [|done]. simpl.
    apply wellKeyed_devices; [apply heartbeatRow_key | apply heartbeatRow_Token | done].
  - unfold UpdateDeviceStatus. destruct ok; [|done].
    destruct (parseDeviceStatus status) as [st|]; [|destruct (existsb _ _); done].
    simpl. apply wellKeyed_devices; [apply statusRow_keys | apply statusRow_keys | done].
  - unfold MarkInactiveDevices. destruct okQuery; [|done]. destruct okExec; [|done].
    simpl. apply wellKeyed_devices; [apply inactiveRow_keys | apply inactiveRow_keys | done].
  - by apply wellKeyed_CreatePattern.
  - by apply wellKeyed_UpdatePattern.
  - unfold TogglePatternEnabled. destruct ok; [|done]. simpl.
    apply wellKeyed_patterns; [apply enableRow_ID | apply enableRow_device | done].
  - by apply wellKeyed_DeletePattern.
  - by apply wellKeyed_CreateRequest.
  - unfold Models.ApproveRequest. destruct ok; [|done]. simpl.
    apply wellKeyed_requests; [apply resolveRow_keys | apply resolveRow_keys | done].
  - unfold Models.DenyRequest. destruct ok; [|done]. simpl.
    apply wellKeyed_requests; [apply resolveRow_keys | apply resolveRow_keys | done].
Qed.

Lemma wellKeyed_fold ops : ∀ db, wellKeyed db → wellKeyed (fold_left exec ops db).
Proof.
  induction ops as [|op ops IH]; intros db Hk; [exact Hk|].
  simpl. apply IH. by apply wellKeyed_exec.
Qed.

Lemma wellKeyed_empty : wellKeyed emptyDB.
Proof.
  unfold wellKeyed, emptyDB. simpl. repeat split; try constructor; intros ? [].
Qed.

(** X4. Whatever statements of the models package have run on the three
    tables since the migrations, and whichever of them failed, device ids,
    device tokens, pattern ids and request ids are pairwise distinct, and
    every pattern and every access request belongs to a device that is still
    in the device table. *)
Theorem store_keys_preserved (ops : list StoreOp) : wellKeyed (reached ops).
Proof. apply wellKeyed_fold, wellKeyed_empty. Qed.

(** A device is created, gets a rule and is deleted again. *)
Lemma store_keys_preserved_witness :
  wellKeyed (reached [DoCreateDevice true 0 "phone" (Some "tok-phone");
                      DoCreatePattern true 0 1 "ads.example/*" "deny" None;
                      DoDeleteDevice true 1]).
Proof. apply store_keys_preserved. Defined.

Lemma wellKeyed_exampleStore : wellKeyed exampleStore.
Proof.
  unfold wellKeyed, exampleStore. simpl.
  split; [|split; [|split; [|split; [|split]]]]; try (repeat constructor; set_solver).
  intros p [<-|[<-|[<-|[]]]]; simpl; auto.
Qed.

(** *** Device tokens *)

Lemma key_unique {A B} (key : A → B) (l : list A) (a b : A) :
  NoDup (map key l) → In a l → In b l → key a = key b → a = b.
Proof.
  induction l as [|x l IH]; simpl; [done|]. intros Hnd Ha Hb Hk.
  apply NoDup_cons in Hnd as [Hx Hnd].
  destruct Ha as [->|Ha], Hb as [->|Hb]; [done| | |by apply IH].
  - exfalso. apply Hx. rewrite Hk. apply list_elem_of_In, in_map. done.
  - exfalso. apply Hx. rewrite <- Hk. apply list_elem_of_In, in_map. done.
Qed.

Lemma find_rotated tok id (l : list Device) :
  (∀ d, In d l → ID d ≠ id → Token d ≠ tok) →
  List.find (fun d => bool_decide (Token d = tok)) (map (tokenRow tok id) l)
  = tokenRow tok id <$> List.find (fun d => ID d =? id) l.
Proof.
  induction l as [|d l IH]; intros Hnew; [reflexivity|]. simpl.
  destruct (ID d =? id) eqn:E.
  - rewrite (tokenRow_hit tok id d) by lia. rewrite bool_decide_eq_true_2 by done. done.
  - rewrite (tokenRow_other tok id d) by lia.
    rewrite bool_decide_eq_false_2 by (apply Hnew; [by left | lia]).
    apply IH. intros r Hr. apply Hnew. by right.
Qed.

Lemma find_other_token tok id t (l : list Device) :
  (∀ d, In d l → ID d = id → Token d ≠ t) → t ≠ tok →
  List.find (fun d => bool_decide (Token d = t)) (map (tokenRow tok id) l)
  = List.find (fun d => bool_decide (Token d = t)) l.
Proof.
  induction l as [|d l IH]; intros Hold Hne; [reflexivity|]. simpl.
  destruct (decide (ID d = id)) as [Hid|Hid].
  - rewrite (tokenRow_hit tok id d Hid).
    rewrite (bool_decide_eq_false_2 (tok = t)) by congruence.
    rewrite (bool_decide_eq_false_2 (Token d = t)) by (apply Hold; [by left | done]).
    apply IH; [|done]. intros r Hr. apply Hold. by right.
  - rewrite (tokenRow_other tok id d Hid). destruct (bool_decide (Token d = t)); [done|].
    apply IH; [|done]. intros r Hr. apply Hold. by right.
Qed.

Lemma find_revoked tok id (l : list Device) (d0 : Device) :
  NoDup (map Token l) → In d0 l → ID d0 = id → Token d0 ≠ tok →
  List.find (fun d => bool_decide (Token d = Token d0)) (map (tokenRow tok id) l) = None.
Proof.
  intros Hnd Hin Hid Hne.
  destruct (List.find _ (map (tokenRow tok id) l)) as [r|] eqn:E; [|done]. exfalso.
  apply find_some in E as [Hr Ht]. apply bool_decide_eq_true in Ht.
  apply in_map_iff in Hr as (r0 & <- & Hr0).
  destruct (decide (ID r0 = id)) as [Hr|Hr].
  - rewrite (tokenRow_hit _ _ _ Hr) in Ht. congruence.
  - rewrite (tokenRow_other _ _ _ Hr) in Ht.
    assert (r0 = d0) by (by apply (key_unique Token l)). congruence.
Qed.

(** X5. Regenerating the token of a device in a store with distinct keys:
    when the call succeeds with a token other than the current one, the
    returned row is the old row with the new token, the new token resolves to
    it, the old token resolves to nothing any more, and every other token
    resolves as before; the handler answers 200 with that row. *)
Theorem token_rotation_revokes (db db' : DB) (id : Z) (tok : string) (d0 d : Device) :
  wellKeyed db →
  GetDeviceByID db id = Some d0 →
  Token d0 ≠ tok →
  RegenerateDeviceToken true true db id (Some tok) = (db', inl d) →
  d = mkDevice id tok (Name d0) (Status d0) (LastSeen d0) (CreatedAt d0)
  ∧ GetDeviceByToken true db' tok = inl d
  ∧ GetDeviceByToken true db' (Token d0) = inr ErrNoRows
  ∧ (∀ t, t ≠ tok → t ≠ Token d0 →
       GetDeviceByToken true db' t = GetDeviceByToken true db t)
  ∧ Admin.RegenerateDeviceToken true true db (Some id) (Some tok)
    = (db', Admin.Answer 200 d).
Proof.
  intros (Hid & Htok & _) Hd0 Hne Hreg.
  assert (Hhandler : Admin.RegenerateDeviceToken true true db (Some id) (Some tok)
                     = (db', Admin.Answer 200 d)).
  { unfold Admin.RegenerateDeviceToken. rewrite Hreg. reflexivity. }
  pose proof Hd0 as Hfind. unfold GetDeviceByID in Hfind.
  apply find_some in Hfind as [Hin Hd0id]. apply Z.eqb_eq in Hd0id.
  assert (existsb (fun d => ID d =? id) (devices db) = true) as Hex.
  { apply existsb_exists. exists d0. split; [done | lia]. }
  unfold RegenerateDeviceToken in Hreg. rewrite Hex, andb_true_r in Hreg.
  destruct (existsb _ (devices db)) eqn:Hclash; [discriminate|].
  assert (Hfree : ∀ r, In r (devices db) → ID r ≠ id → Token r ≠ tok).
  { intros r Hr Hrid Hrt.
    assert (existsb (fun d => bool_decide (Token d = tok) && negb (ID d =? id))
              (devices db) = true) as Habs; [|congruence].
    apply existsb_exists. exists r. split; [done|]. apply andb_true_iff.
    split; [by apply bool_decide_eq_true | apply negb_true_iff; lia]. }
  unfold GetDeviceByID in Hreg. simpl in Hreg.
  assert (List.find (fun d => ID d =? id) (map (tokenRow tok id) (devices db))
          = Some (tokenRow tok id d0)) as Hnew.
  { rewrite (BackendFacts.find_map_rows _ id _ (tokenRow_ID tok id)).
    unfold GetDeviceByID in Hd0. rewrite Hd0. reflexivity. }
  simpl in Hnew. rewrite Hnew in Hreg. injection Hreg as <- <-.
  assert (tokenRow tok id d0 = mkDevice id tok (Name d0) (Status d0) (LastSeen d0) (CreatedAt d0))
    as Hrow.
  { unfold tokenRow. rewrite Hd0id, Z.eqb_refl. reflexivity. }
  split; [exact Hrow|]. unfold GetDeviceByToken. simpl.
  split; [|split; [|split; [|exact Hhandler]]].
  - rewrite (find_rotated tok id _ Hfree). unfold GetDeviceByID in Hd0. rewrite Hd0. done.
  - rewrite (find_revoked tok id _ d0); done.
  - intros t Ht1 Ht2. rewrite find_other_token; [done | | done].
    intros r Hr Hrid. assert (r = d0) as ->; [|congruence].
    apply (key_unique ID (devices db)); [done | done | done | congruence].
Qed.

(** The phone gets a new token: the new one resolves to the phone, the
    old one to nothing. *)
Lemma token_rotation_revokes_witness :
  GetDeviceByToken true (fst (RegenerateDeviceToken true true exampleStore 1 (Some "tok-new")))
    "tok-new"
  = inl (mkDevice 1 "tok-new" "phone" active (Some 0) 0)
  ∧ GetDeviceByToken true
      (fst (RegenerateDeviceToken true true exampleStore 1 (Some "tok-new"))) "tok-phone"
    = inr ErrNoRows.
Proof.
  destruct (token_rotation_revokes exampleStore
              (fst (RegenerateDeviceToken true true exampleStore 1 (Some "tok-new")))
              1 "tok-new" phone (mkDevice 1 "tok-new" "phone" active (Some 0) 0)
              wellKeyed_exampleStore eq_refl ltac:(discriminate) eq_refl)
    as (_ & Hnew & Hold & _ & _).
  split; [exact Hnew | exact Hold].
Defined.

Lemma find_append {A} (P : A → bool) (l1 l2 : list A) :
  List.find P (l1 ++ l2)
  = match List.find P l1 with Some y => Some y | None => List.find P l2 end.
Proof.
  induction l1 as [|x l1 IH]; [reflexivity|]. simpl. destruct (P x); [reflexivity | exact IH].
Qed.

Lemma CreateDevice_inl now db db' name tok d :
  CreateDevice true now db name (Some tok) = (db', inl d) →
  d = mkDevice (nextID (map ID (devices db))) tok name active (Some now) now
  ∧ db' = setDevices (devices db ++ [d]) db
  ∧ List.find (fun r => bool_decide (Token r = tok)) (devices db) = None.
Proof.
  unfold CreateDevice. destruct (existsb _ (devices db)) eqn:E; [discriminate|].
  intros [= <- <-]. split; [reflexivity|]. split; [reflexivity|].
  destruct (List.find _ (devices db)) as [r|] eqn:F; [|done].
  apply find_some in F as [Hr Ht].
  assert (existsb (fun d => bool_decide (Token d = tok)) (devices db) = true); [|congruence].
  apply existsb_exists. eauto.
Qed.

Lemma filter_nothing {A} (P : A → bool) (l : list A) :
  (∀ x, In x l → P x = false) → List.filter P l = [].
Proof.
  induction l as [|x l IH]; intros H; [reflexivity|]. simpl.
  rewrite (H x) by (by left). apply IH. intros y Hy. apply H. by right.
Qed.



End StoreFacts.

(** ** The administration handlers *)

Module AdminFacts.
Import Models Handlers Store StoreFacts.

(** *** Durations *)

Lemma parseDuration_named duration m :
  duration ≠ "custom" →
  snd (parseDuration duration m) = true →
  fst (parseDuration duration m) ∈ [0; 15 * Minute; 30 * Minute; Hour; 8 * Hour; 24 * Hour;
                                    7 * 24 * Hour].
Proof.
  intros Hc. unfold parseDuration.
  do 6 (match goal with
        | |- context [bool_decide ?P] =>
            destruct (bool_decide P); [simpl; intros _; set_solver|]
        end).
  rewrite (bool_decide_eq_false_2 _ Hc).
  destruct (_ || _); simpl; [intros _; set_solver | discriminate].
Qed.

Lemma wrap64_small z : 0 ≤ z < 2 ^ 63 → wrap64 z = z.
Proof.
  intros H. unfold wrap64.
  rewrite Z.mod_small by lia. lia.
Qed.

(** X7. The expiry the pattern handlers compute for a custom duration of
    [m] minutes: a request with [m <= 0] is refused; for [m] up to
    153722867 the expiry is [m] minutes after the call; and when the
    64-bit product of [m] and a minute is not positive the pattern is given
    no expiry at all. *)
Theorem custom_duration_expiry (now m : Z) :
  (m ≤ 0 → Admin.expiryFor now "custom" m = None)
  ∧ (0 < m ≤ 153722867 → Admin.expiryFor now "custom" m = Some (Some (now + m * Minute)))
  ∧ (0 < m → wrap64 (m * Minute) ≤ 0 → Admin.expiryFor now "custom" m = Some None).
Proof.
  unfold Admin.expiryFor, parseDuration. simpl. split; [|split].
  - intros H. destruct (0 <? m) eqn:E; [lia | reflexivity].
  - intros H. destruct (0 <? m) eqn:E; [|lia]. simpl.
    rewrite wrap64_small by (unfold Minute; lia).
    destruct (0 <? m * Minute) eqn:E'; [reflexivity | unfold Minute in E'; lia].
  - intros H Hw. destruct (0 <? m) eqn:E; [|lia]. simpl.
    destruct (0 <? wrap64 (m * Minute)) eqn:E'; [lia | reflexivity].
Qed.

(** Ninety minutes expire ninety minutes later; 153722868 minutes, one
    more than the last that fits, give a pattern that never expires. *)
Lemma custom_duration_expiry_witness :
  Admin.expiryFor 1000 "custom" 90 = Some (Some (1000 + 90 * Minute))
  ∧ Admin.expiryFor 1000 "custom" 153722868 = Some None.
Proof.
  destruct (custom_duration_expiry 1000 90) as (_ & H90 & _).
  destruct (custom_duration_expiry 1000 153722868) as (_ & _ & Hbig).
  split; [apply H90; lia | apply Hbig; [lia | vm_compute; discriminate]].
Defined.

(** The expiry of a named duration lies between a quarter of an hour and a
    week after the call. *)
Lemma expiryFor_named now duration m e :
  duration ≠ "custom" →
  Admin.expiryFor now duration m = Some (Some e) →
  now + 15 * Minute ≤ e ≤ now + 7 * 24 * Hour.
Proof.
  intros Hc. unfold Admin.expiryFor.
  destruct (negb _ && negb _); [|discriminate].
  pose proof (parseDuration_named duration m Hc) as Hn.
  destruct (parseDuration duration m) as [d ok]. simpl in Hn.
  destruct ok; [|discriminate]. simpl. destruct (0 <? d) eqn:E; [|discriminate].
  intros [= <-]. specialize (Hn eq_refl). unfold Hour, Minute in *.
  repeat (apply elem_of_cons in Hn as [->|Hn]; [lia|]). by apply elem_of_nil in Hn.
Qed.


(** *** Creating a pattern *)

Lemma CreatePattern_inl ok now db dev pat ty ex db' p :
  Models.CreatePattern ok now db dev pat ty ex = (db', inl p) →
  db' = setPatterns (patterns db ++ [p]) db
  ∧ PatternDeviceID p = dev ∧ PatternText p = pat ∧ Enabled p = true
  ∧ ExpiresAt p = ex ∧ PatternCreatedAt p = now
  ∧ parsePatternType ty = Some (Type_ p)
  ∧ In dev (map ID (devices db)).
Proof.
  unfold Models.CreatePattern. destruct ok; [|discriminate].
  destruct (parsePatternType ty) as [t|]; [|discriminate].
  destruct (existsb _ (devices db)) eqn:E; [|discriminate].
  intros [= <- <-]. simpl. repeat split; try done. by apply existsb_ID.
Qed.

Lemma CreatePattern_inr ok now db dev pat ty ex db' e :
  Models.CreatePattern ok now db dev pat ty ex = (db', inr e) → db' = db.
Proof.
  unfold Models.CreatePattern. destruct ok; [|by intros [= <-]].
  destruct (parsePatternType ty) as [t|]; [|by intros [= <-]].
  destruct (existsb _ (devices db)); [discriminate | by intros [= <-]].
Qed.



(** *** Approving an access request *)

(** The handler, with the computation of the expiry named. *)
Lemma ApproveRequest_unfold okGet okCreate okApprove now db id reqBody :
  Handlers.ApproveRequest okGet okCreate okApprove now db (Some id) (Some reqBody)
  = if bool_decide (Pattern_ reqBody = "")
    then (db, mkHttp 400 (ErrorText "Pattern is required"), [])
    else
      match GetRequestByID okGet db id with
      | inr _ => (db, mkHttp 404 (ErrorText "Request not found"), [])
      | inl accessReq =>
          match Admin.expiryFor now (Duration reqBody) (CustomMinutes reqBody) with
          | None => (db, mkHttp 400 (ErrorText "Invalid duration"), [])
          | Some expiresAt =>
              match Models.CreatePattern okCreate now db (RequestDeviceID accessReq)
                      (Pattern_ reqBody)
                      (if bool_decide (BodyType reqBody = "") then "allow"
                       else BodyType reqBody) expiresAt with
              | (db1, inr _) => (db1, mkHttp 500 (ErrorText "Failed to create pattern"), [])
              | (db1, inl pattern) =>
                  match Models.ApproveRequest okApprove now db1 id with
                  | (db2, Some _) =>
                      (db2, mkHttp 500 (ErrorText "Failed to update request"), [])
                  | (db2, None) =>
                      (db2, mkHttp 200 (ApprovedJSON pattern),
                       [NotifyDevicePatternUpdate (RequestDeviceID accessReq)])
                  end
              end
          end
      end.
Proof. reflexivity. Qed.



(** X10. When the approval handler does not answer 200 it dispatches
    nothing and leaves the devices and the access requests as they were.
    The pattern table is untouched as well, except after the answer
    [Failed to update request]: then the pattern has been created, enabled
    and for the device that asked, although the request is still
    unresolved. *)
Theorem approval_failure_modes (okGet okCreate okApprove : bool) (now : Z)
    (db db' : DB) (id : option Z) (reqBody : option ApproveRequestBody)
    (resp : HttpResponse) (effects : list SideEffect) :
  Handlers.ApproveRequest okGet okCreate okApprove now db id reqBody
  = (db', resp, effects) →
  status resp ≠ 200 →
  effects = []
  ∧ 400 ≤ status resp
  ∧ devices db' = devices db
  ∧ requests db' = requests db
  ∧ (body resp ≠ ErrorText "Failed to update request" → db' = db)
  ∧ (body resp = ErrorText "Failed to update request" →
     ∃ i r p, id = Some i
              ∧ GetRequestByID okGet db i = inl r
              ∧ patterns db' = patterns db ++ [p]
              ∧ PatternDeviceID p = RequestDeviceID r
              ∧ Enabled p = true
              ∧ requestStatus db' i = requestStatus db i).
Proof.
  destruct id as [i|]; [|intros [= <- <- <-] _; simpl; repeat split; done].
  destruct reqBody as [b|]; [|intros [= <- <- <-] _; simpl; repeat split; done].
  rewrite ApproveRequest_unfold.
  case_bool_decide as Hpat; [intros [= <- <- <-] _; simpl; repeat split; done|].
  destruct (GetRequestByID okGet db i) as [r|e] eqn:Hget;
    [|intros [= <- <- <-] _; simpl; repeat split; done].
  destruct (Admin.expiryFor now _ _) as [ex|] eqn:Hex;
    [|intros [= <- <- <-] _; simpl; repeat split; done].
  destruct (Models.CreatePattern _ _ _ _ _ _ _) as [db1 [q|e]] eqn:Hc.
  - apply CreatePattern_inl in Hc as (-> & Hdev & Htxt & Hen & Hexp & Hcr & Hty & Hin).
    unfold Models.ApproveRequest. destruct okApprove.
    + intros [= <- <- <-] Hst. exfalso. by apply Hst.
    + intros [= <- <- <-] _. simpl. do 4 (split; [done|]). split; [done|].
      intros _. exists i, r, q. done.
  - apply CreatePattern_inr in Hc as ->. intros [= <- <- <-] _. simpl. repeat split; done.
Qed.

(** The store refuses the last statement: the answer is 500, the rule for
    the phone exists and is served, the request is still pending. *)
Lemma approval_failure_modes_witness :
  ∃ db' p,
    Handlers.ApproveRequest true true false 0 exampleStore (Some 1)
      (Some (mkApproveBody "news.example/*" "" "1h" 0))
    = (db', mkHttp 500 (ErrorText "Failed to update request"), [])
    ∧ patterns db' = patterns exampleStore ++ [p]
    ∧ requestStatus db' 1 = Some pending.
Proof.
  pose (p := mkPattern 4 1 "news.example/*" allowType true (Some Hour) 0).
  pose (db' := setPatterns (patterns exampleStore ++ [p]) exampleStore).
  assert (E : Handlers.ApproveRequest true true false 0 exampleStore (Some 1)
                (Some (mkApproveBody "news.example/*" "" "1h" 0))
              = (db', mkHttp 500 (ErrorText "Failed to update request"), []))
    by (vm_compute; reflexivity).
  exists db', p. split; [exact E|].
  destruct (approval_failure_modes true true false 0 exampleStore db' _ _ _ _ E
              ltac:(discriminate)) as (_ & _ & _ & _ & _ & H).
  destruct (H eq_refl) as (i & r & q & [= <-] & _ & Hq & _ & _ & Hst).
  split; [reflexivity|]. rewrite Hst. reflexivity.
Defined.

(** *** The [Authorization] header *)

Lemma ToLower_space s c :
  In c (list_ascii_of_string s) → c = " "%char →
  In " "%char (list_ascii_of_string (Admin.ToLower s)).
Proof.
  induction s as [|a s IH]; simpl; [done|].
  intros [->|Hin] ->; [left; reflexivity | right; by apply (IH Hin)].
Qed.

Lemma cut_append a b :
  ¬ In " "%char (list_ascii_of_string a) →
  Admin.cut (a +:+ " " +:+ b) = Some (a, b).
Proof.
  induction a as [|c a IH]; simpl; [done|]. intros Hn.
  destruct (Ascii.eqb c " ") eqn:E; [apply Ascii.eqb_eq in E; tauto|].
  change (String.append a (String " " b)) with (a +:+ " " +:+ b).
  rewrite IH by tauto. reflexivity.
Qed.

Lemma cut_inv s a b :
  Admin.cut s = Some (a, b) →
  s = a +:+ " " +:+ b ∧ ¬ In " "%char (list_ascii_of_string a).
Proof.
  revert a. induction s as [|c s IH]; simpl; [discriminate|]. intros a.
  destruct (Ascii.eqb c " ") eqn:E.
  - apply Ascii.eqb_eq in E as ->. intros [= <- <-]. simpl. tauto.
  - destruct (Admin.cut s) as [[a' b']|]; [|discriminate]. intros [= <- <-].
    destruct (IH a' eq_refl) as [-> Hn]. split; [reflexivity|].
    simpl. intros [Hc|Hin]; [|tauto]. subst c. discriminate E.
Qed.

Lemma bearer_no_space scheme :
  Admin.ToLower scheme = "bearer" → ¬ In " "%char (list_ascii_of_string scheme).
Proof.
  intros Hl Hin. pose proof (ToLower_space scheme _ Hin eq_refl) as H.
  rewrite Hl in H. simpl in H. repeat (destruct H as [H|H]; [discriminate H|]). done.
Qed.

Lemma readAuthorization_bearer s tok :
  Admin.ToLower s = "bearer" → Admin.readAuthorization (s +:+ " " +:+ tok) = Bearer tok.
Proof.
  intros Hs. unfold Admin.readAuthorization.
  rewrite (cut_append s tok (bearer_no_space s Hs)).
  rewrite (bool_decide_eq_true_2 _ Hs).
  rewrite bool_decide_eq_false_2; [reflexivity|].
  destruct s; simpl; discriminate.
Qed.

(** X11. The authorization header is accepted exactly when it is a scheme
    that reads [bearer] in any mix of upper and lower case, one space, and
    the token: the token is everything after the first space, further spaces
    included.  With the header [Bearer <token>] the patterns route answers
    with the snapshot of the device the token belongs to, whatever the
    status of that device is. *)
Theorem bearer_header_resolves (scheme tok : string) :
  (Admin.ToLower scheme = "bearer" →
   Admin.readAuthorization (scheme +:+ " " +:+ tok) = Bearer tok)
  ∧ (∀ h, Admin.readAuthorization h = Bearer tok →
          ∃ s, h = s +:+ " " +:+ tok ∧ Admin.ToLower s = "bearer")
  ∧ (∀ now db d, GetDeviceByToken true db tok = inl d →
       Admin.patternsRoute true true now db ("Bearer " +:+ tok)
       = match GetPatternsByDevice true now db (ID d) with
         | inl l => Admin.Answer 200 l
         | inr _ => Admin.Refuse 500 "Failed to get patterns"
         end).
Proof.
  pose proof (fun s => readAuthorization_bearer s tok) as Hread.
  split; [apply Hread|]. split.
  - intros h. unfold Admin.readAuthorization. case_bool_decide as Hh; [discriminate|].
    destruct (Admin.cut h) as [[s t]|] eqn:Hc; [|discriminate].
    case_bool_decide as Hs; [|discriminate]. intros [= ->].
    exists s. split; [by apply cut_inv in Hc as [-> _] | exact Hs].
  - intros now db d Hd. unfold Admin.patternsRoute.
    change ("Bearer " +:+ tok) with ("Bearer" +:+ " " +:+ tok).
    rewrite (Hread "Bearer" eq_refl). unfold TokenAuth. rewrite Hd.
    unfold Admin.GetPatterns. reflexivity.
Qed.

(** The header of the phone in upper case; the phone's snapshot at second
    three, newest rule first. *)
Lemma bearer_header_resolves_witness :
  Admin.readAuthorization "BEARER tok-phone" = Bearer "tok-phone"
  ∧ Admin.patternsRoute true true (3 * Second) exampleStore "Bearer tok-phone"
    = Admin.Answer 200 [allowNews; denyAds].
Proof.
  destruct (bearer_header_resolves "BEARER" "tok-phone") as (Hup & _ & _).
  destruct (bearer_header_resolves "Bearer" "tok-phone") as (_ & _ & Hroute).
  split; [exact (Hup eq_refl)|].
  exact (Hroute (3 * Second) exampleStore phone eq_refl).
Defined.

(** *** The notification text *)

Lemma length_firstBytes n s :
  String.length (Admin.firstBytes n s) = Nat.min n (String.length s).
Proof.
  revert s. induction n as [|n IH]; intros [|c s]; simpl; try reflexivity.
  by rewrite IH.
Qed.

Lemma firstBytes_prefix n s : ∃ rest, s = Admin.firstBytes n s +:+ rest.
Proof.
  revert s. induction n as [|n IH]; intros s.
  - exists s. by destruct s.
  - destruct s as [|c s]; [by exists ""|]. destruct (IH s) as [rest Hr].
    exists rest.
    change (String c s = String c (Admin.firstBytes n s +:+ rest)). f_equal. exact Hr.
Qed.

Lemma length_append_string a b :
  String.length (a +:+ b) = (String.length a + String.length b)%nat.
Proof. induction a as [|c a IH]; simpl; [reflexivity | by rewrite IH]. Qed.

(** X12. The URL quoted in the notification of a new request is never
    longer than 50 bytes: a URL of at most 50 bytes is quoted in full, a
    longer one as its first 47 bytes followed by three dots. *)
Theorem truncateURL_bounded (url : string) :
  (String.length (Admin.truncateURL url) ≤ 50)%nat
  ∧ ((String.length url ≤ 50)%nat → Admin.truncateURL url = url)
  ∧ ((50 < String.length url)%nat →
     String.length (Admin.truncateURL url) = 50%nat
     ∧ ∃ head rest, url = head +:+ rest ∧ String.length head = 47%nat
                    ∧ Admin.truncateURL url = head +:+ "...").
Proof.
  unfold Admin.truncateURL. destruct (50 <? String.length url)%nat eqn:E.
  - apply Nat.ltb_lt in E.
    assert (String.length (Admin.firstBytes 47 url) = 47%nat) as Hlen.
    { rewrite length_firstBytes. lia. }
    assert (String.length (Admin.firstBytes 47 url +:+ "...") = 50%nat) as Hall.
    { rewrite length_append_string, Hlen. reflexivity. }
    split; [lia|]. split; [lia|]. intros _. split; [exact Hall|].
    destruct (firstBytes_prefix 47 url) as [rest Hrest].
    exists (Admin.firstBytes 47 url), rest. done.
  - apply Nat.ltb_ge in E. split; [lia|]. split; [done | lia].
Qed.

(** A URL of sixty bytes is cut to fifty. *)
Lemma truncateURL_bounded_witness :
  String.length
    (Admin.truncateURL "http://news.example/2024/05/17/a-very-long-headline-indeed-x")
  = 50%nat.
Proof.
  destruct (truncateURL_bounded "http://news.example/2024/05/17/a-very-long-headline-indeed-x")
    as (_ & _ & H).
  destruct H as [H _]; [vm_compute; lia | exact H].
Defined.

(** *** Access requests from creation to resolution *)

Lemma In_ListRequests db st l name r :
  Store.ListRequests true db st = inl l →
  In (name, r) l
  ↔ In r (requests db)
    ∧ (st = "" ∨ parseRequestStatus st = Some (RequestStatus_ r))
    ∧ ∃ d, deviceOf db r = Some d ∧ Name d = name.
Proof.
  unfold Store.ListRequests. intros [= <-]. rewrite In_sortDesc.
  rewrite <- list_elem_of_In, list_elem_of_omap. split.
  - intros (r0 & Hin & Hr0). apply list_elem_of_In in Hin.
    destruct (bool_decide (st = "")) eqn:Hst.
    + apply bool_decide_eq_true in Hst.
      destruct (deviceOf db r0) as [d|] eqn:Hd; [|discriminate]. simpl in Hr0.
      injection Hr0 as <- <-. split; [done|]. split; [by left|]. eauto.
    + destruct (parseRequestStatus st) as [s|] eqn:Hp; [|discriminate].
      case_bool_decide as Hs; [|discriminate].
      destruct (deviceOf db r0) as [d|] eqn:Hd; [|discriminate]. simpl in Hr0.
      injection Hr0 as <- <-. split; [done|]. split; [right; congruence|]. eauto.
  - intros (Hin & Hst & d & Hd & <-). exists r. split; [by apply list_elem_of_In|].
    rewrite Hd. simpl. destruct Hst as [->|Hp].
    + reflexivity.
    + case_bool_decide as He; [reflexivity|]. rewrite Hp.
      rewrite bool_decide_eq_true_2 by done. reflexivity.
Qed.




Lemma map_resolveRow_status st now id (l : list Request) r :
  In r (map (resolveRow st now id) l) → RequestID r = id → RequestStatus_ r = st.
Proof.
  intros Hin Hid. apply in_map_iff in Hin as (r0 & <- & _). unfold resolveRow in *.
  destruct (RequestID r0 =? id) eqn:E; [reflexivity | lia].
Qed.

Lemma map_resolveRow_absent st now id (l : list Request) :
  (∀ r, In r l → RequestID r ≠ id) → map (resolveRow st now id) l = l.
Proof.
  induction l as [|r l IH]; intros H; [reflexivity|]. simpl.
  rewrite IH by (intros; apply H; by right). f_equal.
  unfold resolveRow. destruct (RequestID r =? id) eqn:E; [|reflexivity].
  exfalso. apply (H r); [by left | lia].
Qed.

(** X14. After the deny handler has answered 200 no request with the given
    id is listed as pending or approved any more, and every request with
    that id carries the instant of the call as its resolution time; the
    other requests, the devices and the patterns are as before.  When no
    request has the id the answer is 200 all the same and the store is
    unchanged. *)
Theorem deny_resolves_or_ignores (now : Z) (db : DB) (id : Z) :
  let '(db', resp) := Handlers.DenyRequest true now db (Some id) in
  resp = mkHttp 200 SuccessJSON
  ∧ devices db' = devices db ∧ patterns db' = patterns db
  ∧ (∀ r, In r (requests db') → RequestID r = id →
          RequestStatus_ r = denied ∧ ResolvedAt r = Some now)
  ∧ (∀ r, RequestID r ≠ id → (In r (requests db') ↔ In r (requests db)))
  ∧ (∀ st l name r, st = "pending" ∨ st = "approved" →
       Store.ListRequests true db' st = inl l → In (name, r) l → RequestID r ≠ id)
  ∧ ((∀ r, In r (requests db) → RequestID r ≠ id) → db' = db).
Proof.
  simpl. split; [done|]. split; [done|]. split; [done|]. split; [|split; [|split]].
  - intros r Hin Hid. apply in_map_iff in Hin as (r0 & <- & _). unfold resolveRow in *.
    destruct (RequestID r0 =? id) eqn:E; [done | lia].
  - intros r Hne. rewrite in_map_iff. split.
    + intros (r0 & <- & Hin). unfold resolveRow in *.
      destruct (RequestID r0 =? id) eqn:E; [simpl in Hne; lia | done].
    + intros Hin. exists r. split; [|done]. unfold resolveRow.
      destruct (RequestID r =? id) eqn:E; [lia | done].
  - intros st l name r Hst Hl Hin Hid.
    apply (In_ListRequests _ _ _ _ _ Hl) in Hin as (Hin & Hp & _). simpl in Hin.
    pose proof (map_resolveRow_status _ _ _ _ _ Hin Hid) as Hden.
    rewrite Hden in Hp. destruct Hst as [-> | ->]; destruct Hp as [Hp|Hp]; discriminate Hp.
  - intros Habs. rewrite map_resolveRow_absent by done. by destruct db.
Qed.

(** The pending request of the phone is denied at instant nine. *)
Lemma deny_resolves_or_ignores_witness :
  requestStatus (fst (Handlers.DenyRequest true 9 exampleStore (Some 1))) 1 = Some denied
  ∧ fst (Handlers.DenyRequest true 9 exampleStore (Some 7)) = exampleStore.
Proof.
  pose proof (deny_resolves_or_ignores 9 exampleStore 7) as H7.
  destruct (Handlers.DenyRequest true 9 exampleStore (Some 7)) as [db7 resp7] eqn:E7.
  destruct H7 as (_ & _ & _ & _ & _ & _ & Hsame).
  split; [reflexivity|]. simpl. apply Hsame.
  intros r [<-|[]]. discriminate.
Defined.

(** *** Pattern ids that name no row *)

Lemma GetPatternByID_absent ok db id :
  (∀ p, In p (patterns db) → PatternID p ≠ id) →
  ∃ e, Store.GetPatternByID ok db id = inr e.
Proof.
  intros Habs. unfold Store.GetPatternByID. destruct ok; [|by eexists].
  destruct (List.find _ (patterns db)) as [p|] eqn:F; [|by eexists].
  apply find_some in F as [Hin Hid]. exfalso. apply (Habs p Hin). lia.
Qed.

Lemma map_enableRow_absent b id (l : list Pattern) :
  (∀ p, In p l → PatternID p ≠ id) → map (enableRow b id) l = l.
Proof.
  induction l as [|p l IH]; intros H; [reflexivity|]. simpl.
  rewrite IH by (intros; apply H; by right).
  rewrite enableRow_other by (apply H; by left). reflexivity.
Qed.

(** X15. For a pattern id that names no row the three handlers that take
    one change nothing and dispatch nothing, but do not answer alike: update
    and delete answer 404, toggle answers 500. *)
Theorem unknown_pattern_id_answers (okFind okUpdate okGet okDelete okToggle : bool)
    (now : Z) (db : DB) (id : Z) (upd : option Admin.UpdatePatternRequest)
    (enabled : bool) :
  (∀ p, In p (patterns db) → PatternID p ≠ id) →
  Admin.UpdatePattern okFind okUpdate okGet now db (Some id) upd
  = (db, Admin.Refuse 404 "Pattern not found", [])
  ∧ Admin.DeletePattern okFind okDelete db (Some id)
    = (db, Admin.Refuse 404 "Pattern not found", [])
  ∧ (okToggle = true →
     Admin.TogglePattern okToggle okGet db (Some id) (Some enabled)
     = (db, Admin.Refuse 500 "Failed to get pattern", [])).
Proof.
  intros Habs. split; [|split].
  - unfold Admin.UpdatePattern.
    destruct (GetPatternByID_absent okFind db id Habs) as [e ->]. reflexivity.
  - unfold Admin.DeletePattern.
    destruct (GetPatternByID_absent okFind db id Habs) as [e ->]. reflexivity.
  - intros ->. unfold Admin.TogglePattern, TogglePatternEnabled.
    rewrite map_enableRow_absent by done.
    assert (setPatterns (patterns db) db = db) as -> by (by destruct db).
    destruct (GetPatternByID_absent okGet db id Habs) as [e ->]. reflexivity.
Qed.

(** No pattern of the example store has id 9. *)
Lemma unknown_pattern_id_answers_witness :
  Admin.DeletePattern true true exampleStore (Some 9)
  = (exampleStore, Admin.Refuse 404 "Pattern not found", [])
  ∧ Admin.TogglePattern true true exampleStore (Some 9) (Some false)
    = (exampleStore, Admin.Refuse 500 "Failed to get pattern", []).
Proof.
  destruct (unknown_pattern_id_answers true true true true true 0 exampleStore 9 None false)
    as (_ & Hdel & Htog).
  - intros p [<-|[<-|[<-|[]]]]; discriminate.
  - split; [exact Hdel | exact (Htog eq_refl)].
Defined.

(** *** Editing and deleting a pattern *)

Lemma find_map_pattern (f : Pattern → Pattern) (id : Z) (l : list Pattern) :
  (∀ p, PatternID (f p) = PatternID p) →
  List.find (fun p => PatternID p =? id) (map f l)
  = f <$> List.find (fun p => PatternID p =? id) l.
Proof.
  intros Hf. induction l as [|p l IH]; [reflexivity|].
  simpl. rewrite Hf. destruct (PatternID p =? id); [reflexivity | exact IH].
Qed.

Lemma expiryFor_permanent now duration m :
  duration = "" ∨ duration = "permanent" → Admin.expiryFor now duration m = Some None.
Proof. intros [-> | ->]; reflexivity. Qed.

(** X26. When the update handler answers 200, the pattern in the answer is
    the old row with the new text, type and expiry: its id, device, creation
    time and its enabled flag are the old ones, so that editing a disabled
    pattern does not put it back into any snapshot; and an edit without a
    duration, or with the duration [permanent], removes the expiry the
    pattern had.  The update is dispatched to the device of the pattern. *)
Theorem update_keeps_switch_resets_expiry (okFind okUpdate okGet : bool) (now : Z)
    (db db' : DB) (id : Z) (req : Admin.UpdatePatternRequest) (p : Pattern)
    (effects : list SideEffect) :
  Admin.UpdatePattern okFind okUpdate okGet now db (Some id) (Some req)
  = (db', Admin.Answer 200 p, effects) →
  ∃ p0 ty ex,
    Store.GetPatternByID okFind db id = inl p0
    ∧ parsePatternType (Admin.UpdType req) = Some ty
    ∧ Admin.expiryFor now (Admin.UpdDuration req) (Admin.UpdCustomMinutes req) = Some ex
    ∧ p = mkPattern (PatternID p0) (PatternDeviceID p0) (Admin.UpdPattern req) ty
            (Enabled p0) ex (PatternCreatedAt p0)
    ∧ effects = [NotifyDevicePatternUpdate (PatternDeviceID p0)]
    ∧ (Admin.UpdDuration req = "" ∨ Admin.UpdDuration req = "permanent" →
       ExpiresAt p = None)
    ∧ (Enabled p0 = false → ∀ t dev, ¬ served t db' dev p)
    ∧ devices db' = devices db ∧ requests db' = requests db.
Proof.
  unfold Admin.UpdatePattern.
  destruct (Store.GetPatternByID okFind db id) as [p0|e] eqn:Hfind; [|discriminate].
  destruct (_ || _); [discriminate|]. destruct (negb _ && negb _); [discriminate|].
  destruct (Admin.expiryFor now _ _) as [ex|] eqn:Hex; [|discriminate].
  unfold Store.UpdatePattern. destruct okUpdate; [|discriminate].
  assert (Hp0 : List.find (fun p => PatternID p =? id) (patterns db) = Some p0).
  { unfold Store.GetPatternByID in Hfind. destruct okFind; [|discriminate].
    destruct (List.find _ (patterns db)); [congruence | discriminate]. }
  destruct (parsePatternType (Admin.UpdType req)) as [ty|] eqn:Hty.
  2:{ destruct (existsb _ (patterns db)) eqn:Hex'; [discriminate|].
      exfalso. apply find_some in Hp0 as [Hin Hid].
      assert (existsb (fun p => PatternID p =? id) (patterns db) = true); [|congruence].
      apply existsb_exists. eauto. }
  unfold Store.GetPatternByID. destruct okGet; [|discriminate]. simpl.
  rewrite (find_map_pattern _ id _ (editRow_ID _ _ _ id)), Hp0. simpl.
  intros [= <- <- <-]. exists p0, ty, ex.
  assert (Hrow : editRow (Admin.UpdPattern req) ty ex id p0
                 = mkPattern (PatternID p0) (PatternDeviceID p0) (Admin.UpdPattern req) ty
                     (Enabled p0) ex (PatternCreatedAt p0)).
  { unfold editRow. apply find_some in Hp0 as [_ ->]. reflexivity. }
  rewrite Hrow. do 5 (split; [done|]). split; [|split; [|done]].
  - intros Hd. simpl. rewrite (expiryFor_permanent now _ _ Hd) in Hex. congruence.
  - intros Hoff t dev. rewrite served_iff, isLive_spec. simpl. rewrite Hoff.
    intros (_ & _ & Hon & _). discriminate Hon.
Qed.

(** The allow rule of the phone, which expired after ten seconds, is edited
    without a duration: it has no expiry any more. *)
Lemma update_keeps_switch_resets_expiry_witness :
  ∃ db' p,
    Admin.UpdatePattern true true true 0 exampleStore (Some 2)
      (Some (Admin.mkUpdatePattern "news.example/**" "allow" "" 0))
    = (db', Admin.Answer 200 p, [NotifyDevicePatternUpdate 1])
    ∧ ExpiresAt allowNews = Some (10 * Second)
    ∧ ExpiresAt p = None.
Proof.
  pose (p := mkPattern 2 1 "news.example/**" allowType true None (2 * Second)).
  pose (db' := setPatterns (map (editRow "news.example/**" allowType None 2)
                              (patterns exampleStore)) exampleStore).
  assert (E : Admin.UpdatePattern true true true 0 exampleStore (Some 2)
                (Some (Admin.mkUpdatePattern "news.example/**" "allow" "" 0))
              = (db', Admin.Answer 200 p, [NotifyDevicePatternUpdate 1]))
    by (vm_compute; reflexivity).
  exists db', p. split; [exact E|]. split; [reflexivity|].
  destruct (update_keeps_switch_resets_expiry true true true 0 exampleStore db' 2 _ p _ E)
    as (p0 & ty & ex & _ & _ & _ & _ & _ & Hperm & _).
  apply Hperm. by left.
Defined.

(** X27. When the delete handler answers 200, the pattern it found under
    the id is in no snapshot any more, every other pattern is served exactly
    as before, the devices and requests are untouched, and one update is
    dispatched, to the device the pattern belonged to. *)
Theorem deleted_pattern_leaves_snapshots (okFind okDelete : bool) (db db' : DB) (id : Z)
    (effects : list SideEffect) :
  Admin.DeletePattern okFind okDelete db (Some id) = (db', Admin.Answer 200 tt, effects) →
  ∃ p0, Store.GetPatternByID okFind db id = inl p0
        ∧ effects = [NotifyDevicePatternUpdate (PatternDeviceID p0)]
        ∧ (∀ t dev q, served t db' dev q ↔ served t db dev q ∧ PatternID q ≠ id)
        ∧ devices db' = devices db ∧ requests db' = requests db.
Proof.
  unfold Admin.DeletePattern.
  destruct (Store.GetPatternByID okFind db id) as [p0|e] eqn:Hfind; [|discriminate].
  unfold Store.DeletePattern. destruct okDelete; [|discriminate].
  intros [= <- <-]. exists p0. split; [done|]. split; [done|]. split; [|done].
  intros t dev q. rewrite !served_iff. simpl. rewrite filter_In, negb_true_iff, Z.eqb_neq.
  tauto.
Qed.

(** The deny rule of the phone is deleted: the allow rule is all that is
    left of its snapshot. *)
Lemma deleted_pattern_leaves_snapshots_witness :
  ∃ db', Admin.DeletePattern true true exampleStore (Some 1)
         = (db', Admin.Answer 200 tt, [NotifyDevicePatternUpdate 1])
         ∧ ¬ served 0 db' 1 denyAds
         ∧ served 0 db' 1 allowNews.
Proof.
  eexists. split; [reflexivity|].
  destruct (deleted_pattern_leaves_snapshots true true exampleStore _ 1 _ eq_refl)
    as (p0 & _ & _ & Hs & _).
  split.
  - intros H. apply Hs in H as [_ H]. by apply H.
  - apply Hs. split; [|discriminate]. eexists. split; [reflexivity|]. vm_compute. auto.
Defined.

(** *** A new device *)


(** X28. A device created through the admin handler can report at once:
    the handler answers 201 only for a non-empty name and a generated token,
    the device in the answer is active and carries that name and token, and
    with the header [Bearer <token>] the heartbeat route then answers 200
    with status [active].  In a store with consistent keys the snapshot of
    the new device is empty. *)
Theorem new_device_can_report (now t : Z) (db db' : DB) (req token : option string)
    (d : Device) :
  Admin.CreateDevice true now db req token = (db', Admin.Answer 201 d) →
  ∃ name tok,
    req = Some name ∧ name ≠ "" ∧ token = Some tok
    ∧ d = mkDevice (nextID (map ID (devices db))) tok name active (Some now) now
    ∧ heartbeatRoute true true t db' (Admin.readAuthorization ("Bearer " +:+ tok))
      = (fst (UpdateDeviceHeartbeat true t db' (ID d)), mkHttp 200 (HeartbeatJSON "active"))
    ∧ (wellKeyed db → Store.GetPatternsByDevice true t db' (ID d) = inl []).
Proof.
  unfold Admin.CreateDevice. destruct req as [name|]; [|discriminate].
  case_bool_decide as Hname; [discriminate|].
  destruct (Store.CreateDevice true now db name token) as [db1 [d1|e]] eqn:Hc; [|discriminate].
  intros [= <- <-]. destruct token as [tok|]; [|discriminate Hc].
  destruct (CreateDevice_inl now db db1 name tok d1 Hc) as (Hd & -> & Hnone).
  exists name, tok. do 4 (split; [done|]). split.
  - change ("Bearer " +:+ tok) with ("Bearer" +:+ " " +:+ tok).
    rewrite (readAuthorization_bearer "Bearer" tok eq_refl).
    unfold heartbeatRoute, TokenAuth, GetDeviceByToken. simpl.
    rewrite find_append, Hnone. simpl.
    rewrite bool_decide_eq_true_2 by (rewrite Hd; reflexivity). reflexivity.
  - intros (_ & _ & _ & _ & Hfk & _). unfold Store.GetPatternsByDevice. simpl.
    rewrite filter_nothing; [reflexivity|].
    intros p Hin. apply andb_false_iff. left. apply Z.eqb_neq. intros Heq.
    apply (nextID_fresh (map ID (devices db))).
    rewrite Hd in Heq. simpl in Heq. rewrite <- Heq. by apply Hfk.
Qed.

(** A television joins the example store and reports. *)
Lemma new_device_can_report_witness :
  ∃ db' d,
    Admin.CreateDevice true 7 exampleStore (Some "tv") (Some "tok-tv")
    = (db', Admin.Answer 201 d)
    ∧ snd (heartbeatRoute true true 9 db' (Admin.readAuthorization "Bearer tok-tv"))
      = mkHttp 200 (HeartbeatJSON "active").
Proof.
  pose (d := mkDevice 3 "tok-tv" "tv" active (Some 7) 7).
  pose (db' := setDevices (devices exampleStore ++ [d]) exampleStore).
  assert (E : Admin.CreateDevice true 7 exampleStore (Some "tv") (Some "tok-tv")
              = (db', Admin.Answer 201 d)) by (vm_compute; reflexivity).
  exists db', d. split; [exact E|].
  destruct (new_device_can_report 7 9 exampleStore db' (Some "tv") (Some "tok-tv") d E)
    as (name & tok & _ & _ & [= <-] & _ & Hbeat & _).
  exact (f_equal snd Hbeat).
Defined.

End AdminFacts.

(** ** Sending to the sessions of a device *)

Module DeliveryFacts.
Import Hub HubFacts Delivery.

(** On a trace that registers no client again after its removal, the
    sessions still registered have open channels. *)
Lemma run_open ops : ∀ h L gone h',
  nonEmptyEntries h → tracks h L → closed h ⊆ gone → L ## gone →
  fresh gone ops = true → run h ops = Some h' →
  live L ops ## closed h'.
Proof.
  induction ops as [|op ops IH]; intros h L gone h' Hinv Htr Hcl Hdis Hfresh Hrun.
  - injection Hrun as <-. simpl. set_solver.
  - simpl in Hrun. destruct (step h op) as [h1|] eqn:Hs; [|discriminate].
    rewrite live_cons. destruct op as [c|c]; simpl in Hfresh.
    + apply andb_true_iff in Hfresh as [Hc Hfresh]. apply bool_decide_eq_true in Hc.
      destruct (step_register_preserves h c L Hinv Htr) as (h2 & Hs2 & Hinv2 & Htr2 & Hcl2).
      rewrite Hs in Hs2. injection Hs2 as <-.
      apply (IH h1 _ gone h'); [done | done | by rewrite Hcl2 | set_solver | done | done].
    + destruct (step_unregister_preserves h c L h1 Hinv Htr Hs) as (Hinv1 & Htr1 & Hcl1).
      apply (IH h1 _ ({[c]} ∪ gone) h'); [done | done | set_solver | set_solver | done | done].
Qed.

Lemma dom_tracks h L :
  nonEmptyEntries h → tracks h L → dom (clients h) = set_map DeviceID L.
Proof.
  intros Hinv Htr. apply set_eq. intros id. rewrite elem_of_dom, elem_of_map. split.
  - intros [s Hs]. pose proof (Hinv id s Hs) as Hne.
    apply set_choose_L in Hne as [c Hc].
    assert (registered h id c) as Hr by (exists s; done).
    apply Htr in Hr as [HL Hid]. exists c. done.
  - intros (c & -> & Hc). assert (registered h (DeviceID c) c) as (s & Hs & _).
    { apply Htr. done. }
    by eexists.
Qed.

(** X16. After any sequence of register and unregister operations
    processed from a new hub, the connected-device count is the number of
    distinct device ids among the sessions still registered: two sessions of
    one device count once. *)
Theorem connected_count_is_distinct_devices (ops : list Op) (h : Hub) :
  run NewHub ops = Some h →
  GetConnectedDeviceCount h = size (set_map DeviceID (live ∅ ops) : gset Z).
Proof.
  intros Hrun.
  destruct (run_preserves ops NewHub ∅ h NewHub_nonEmpty NewHub_tracks Hrun) as [Hinv Htr].
  unfold GetConnectedDeviceCount. rewrite <- (dom_tracks h _ Hinv Htr).
  symmetry. apply size_dom.
Qed.

(** Of the three sessions of devices 7, 7 and 9 only the second of device 7
    is left: one device is connected. *)
Lemma connected_count_is_distinct_devices_witness :
  ∃ h, run NewHub exampleOps = Some h ∧ GetConnectedDeviceCount h = 1%nat.
Proof.
  assert (is_Some (run NewHub exampleOps)) as [h Hh].
  { apply (run_no_panic exampleOps NewHub ∅ ∅ NewHub_nonEmpty NewHub_tracks);
      [done | set_solver | reflexivity]. }
  exists h. split; [exact Hh|].
  rewrite (connected_count_is_distinct_devices exampleOps h Hh).
  assert (live ∅ exampleOps = {[mkClient 2 7]}) as ->.
  { unfold exampleOps. simpl. apply set_eq. intros c. set_solver. }
  rewrite set_map_singleton_L. apply size_singleton.
Defined.

(** What one [select] does to the buffer of a client. *)
Lemma buffered_insert {A} (q : Queues A) c buf x :
  buffered (<[c := buf]> q) x = if decide (x = c) then buf else buffered q x.
Proof.
  unfold buffered. destruct (decide (x = c)) as [->|Hne].
  - by rewrite lookup_insert_eq.
  - by rewrite lookup_insert_ne.
Qed.

Lemma fold_offer {A} (h : Hub) (data : A) (q : Queues A) (X : gset Client) :
  X ## closed h →
  ∃ q', set_fold (offer h data) (Some q) X = Some q'
        ∧ ∀ c, buffered q' c
               = if decide (c ∈ X)
                 then if (length (buffered q c) <? capacity)%nat
                      then buffered q c ++ [data] else buffered q c
                 else buffered q c.
Proof.
  revert X.
  apply (set_fold_ind_L
           (fun r (Y : gset Client) => Y ## closed h →
              ∃ q', r = Some q'
                    ∧ ∀ c, buffered q' c
                           = if decide (c ∈ Y)
                             then if (length (buffered q c) <? capacity)%nat
                                  then buffered q c ++ [data] else buffered q c
                             else buffered q c)).
  - intros _. exists q. split; [done|]. intros c.
    destruct (decide (c ∈ (∅ : gset Client))) as [Hc|_]; [set_solver | done].
  - intros x Y r Hx IH Hdis. destruct IH as (q1 & -> & Hq1); [set_solver|].
    unfold offer. destruct (decide (x ∈ closed h)) as [Hcl|_]; [set_solver|].
    assert (Hbx : buffered q1 x = buffered q x).
    { rewrite Hq1. destruct (decide (x ∈ Y)); [done | done]. }
    rewrite Hbx. destruct (length (buffered q x) <? capacity)%nat eqn:Hfull.
    + eexists. split; [reflexivity|]. intros c. rewrite buffered_insert.
      destruct (decide (c = x)) as [->|Hne].
      * destruct (decide (x ∈ {[x]} ∪ Y)) as [_|Hn]; [|set_solver]. by rewrite Hfull.
      * rewrite Hq1. destruct (decide (c ∈ Y)), (decide (c ∈ {[x]} ∪ Y)); try done; set_solver.
    + exists q1. split; [reflexivity|]. intros c. rewrite Hq1.
      destruct (decide (c = x)) as [->|Hne].
      * destruct (decide (x ∈ Y)); [done|].
        destruct (decide (x ∈ {[x]} ∪ Y)) as [_|Hn]; [|set_solver]. by rewrite Hfull.
      * destruct (decide (c ∈ Y)), (decide (c ∈ {[x]} ∪ Y)); try done; set_solver.
Qed.

Lemma SendToDevice_live {A} (ops : list Op) (h : Hub) (q : Queues A)
    (deviceID : Z) (data : A) :
  fresh ∅ ops = true →
  run NewHub ops = Some h →
  ∃ q', SendToDevice h q deviceID (Some data) = Some q'
        ∧ (∀ c, buffered q' c
                = if decide (c ∈ live ∅ ops ∧ DeviceID c = deviceID)
                  then if (length (buffered q c) <? capacity)%nat
                       then buffered q c ++ [data] else buffered q c
                  else buffered q c).
Proof.
  intros Hfresh Hrun.
  destruct (run_preserves ops NewHub ∅ h NewHub_nonEmpty NewHub_tracks Hrun) as [Hinv Htr].
  pose proof (run_open ops NewHub ∅ ∅ h NewHub_nonEmpty NewHub_tracks
                ltac:(done) ltac:(set_solver) Hfresh Hrun) as Hopen.
  unfold SendToDevice. destruct (clients h !! deviceID) as [s|] eqn:Hs.
  - assert (Hmem : ∀ c, c ∈ s ↔ c ∈ live ∅ ops ∧ DeviceID c = deviceID).
    { intros c. rewrite <- (Htr deviceID c). unfold registered. rewrite Hs. naive_solver. }
    destruct (fold_offer h data q s) as (q' & Hq' & Hbuf).
    { intros c Hc Hcl. apply Hmem in Hc as [Hc _]. exact (Hopen c Hc Hcl). }
    exists q'. split; [exact Hq'|]. intros c. rewrite Hbuf.
    destruct (decide (c ∈ s)) as [Hc|Hc], (decide (c ∈ live ∅ ops ∧ DeviceID c = deviceID))
      as [Hl|Hl]; try done; exfalso; [apply Hl | apply Hc]; by apply Hmem.
  - exists q. split; [done|]. intros c.
    destruct (decide (c ∈ live ∅ ops ∧ DeviceID c = deviceID)) as [Hl|Hl]; [|done].
    exfalso. apply (Htr deviceID c) in Hl as (s & Hs' & _). congruence.
Qed.

(** X17. On a hub reached by a trace that registers no client again after
    its removal, sending to a device never panics; the message is appended,
    once, to the buffer of every session of that device that is still
    registered and whose buffer holds fewer than 256 messages, it is dropped
    for a session whose buffer is full, and no other buffer changes; so no
    buffer ever grows beyond 256. *)
Theorem send_reaches_live_sessions {A} (ops : list Op) (h : Hub) (q : Queues A)
    (deviceID : Z) (data : A) :
  fresh ∅ ops = true →
  run NewHub ops = Some h →
  ∃ q', SendToDevice h q deviceID (Some data) = Some q'
        ∧ (∀ c, buffered q' c
                = if decide (c ∈ live ∅ ops ∧ DeviceID c = deviceID)
                  then if (length (buffered q c) <? capacity)%nat
                       then buffered q c ++ [data] else buffered q c
                  else buffered q c)
        ∧ ((∀ c, (length (buffered q c) ≤ capacity)%nat) →
           ∀ c, (length (buffered q' c) ≤ capacity)%nat).
Proof.
  intros Hfresh Hrun.
  destruct (SendToDevice_live ops h q deviceID data Hfresh Hrun) as (q' & Hq' & Hbuf).
  exists q'. split; [exact Hq'|]. split; [exact Hbuf|].
  intros Hcap c. rewrite Hbuf. specialize (Hcap c).
  destruct (decide _); [|done].
  destruct (length (buffered q c) <? capacity)%nat eqn:E; [|done].
  apply Nat.ltb_lt in E. rewrite length_app. simpl. lia.
Qed.

(** One message for device 7 after the example trace: it is in the buffer
    of the session that is left, and not in the one of the session that has
    gone. *)
Lemma send_reaches_live_sessions_witness :
  ∃ h q', run NewHub exampleOps = Some h
          ∧ SendToDevice h (∅ : Queues nat) 7 (Some 42%nat) = Some q'
          ∧ buffered q' (mkClient 2 7) = [42%nat]
          ∧ buffered q' (mkClient 1 7) = [].
Proof.
  assert (is_Some (run NewHub exampleOps)) as [h Hh].
  { apply (run_no_panic exampleOps NewHub ∅ ∅ NewHub_nonEmpty NewHub_tracks);
      [done | set_solver | reflexivity]. }
  destruct (send_reaches_live_sessions exampleOps h (∅ : Queues nat) 7 42%nat eq_refl Hh)
    as (q' & Hq' & Hbuf & _).
  exists h, q'. split; [exact Hh|]. split; [exact Hq'|].
  assert (live ∅ exampleOps = {[mkClient 2 7]}) as Hlive.
  { unfold exampleOps. simpl. apply set_eq. intros c. set_solver. }
  rewrite !Hbuf, Hlive. split.
  - destruct (decide _) as [_|Hn]; [reflexivity|]. exfalso. apply Hn. set_solver.
  - destruct (decide _) as [[Hin _]|_]; [|reflexivity].
    apply elem_of_singleton in Hin. discriminate Hin.
Defined.

(** X25. Two messages sent to a session before its writer runs leave the
    hub as one frame that carries both, and the agent, which parses a frame
    as one JSON value, drops the frame and keeps its state; a message that
    is alone in its frame is parsed as it was sent. *)
Theorem queued_updates_share_a_frame (ops : list Op) (h : Hub) (q : Queues Message)
    (c : Client) (m1 m2 : Message) (now : Z) (st : Agent.State) :
  fresh ∅ ops = true →
  run NewHub ops = Some h →
  c ∈ live ∅ ops →
  buffered q c = [] →
  ∃ q1 q2,
    SendToDevice h q (DeviceID c) (Some m1) = Some q1
    ∧ SendToDevice h q1 (DeviceID c) (Some m2) = Some q2
    ∧ fst (writePump q1 c) = Some [m1]
    ∧ fst (writePump q2 c) = Some [m1; m2]
    ∧ buffered (snd (writePump q2 c)) c = []
    ∧ parseFrame [m1] = Some (parsed m1)
    ∧ Agent.onmessage now (parseFrame [m1; m2]) st = st.
Proof.
  intros Hfresh Hrun Hc Hempty.
  destruct (SendToDevice_live ops h q (DeviceID c) m1 Hfresh Hrun) as (q1 & Hq1 & Hb1).
  destruct (SendToDevice_live ops h q1 (DeviceID c) m2 Hfresh Hrun) as (q2 & Hq2 & Hb2).
  exists q1, q2. split; [exact Hq1|]. split; [exact Hq2|].
  assert (H1 : buffered q1 c = [m1]).
  { rewrite Hb1, Hempty. destruct (decide _) as [_|Hn]; [reflexivity|]. by destruct Hn. }
  assert (H2 : buffered q2 c = [m1; m2]).
  { rewrite Hb2, H1. destruct (decide _) as [_|Hn]; [reflexivity|]. by destruct Hn. }
  unfold writePump. rewrite H1, H2. simpl. split; [done|]. split; [done|].
  split; [by rewrite buffered_insert, decide_True|]. done.
Qed.

(** Two updates for device 7 queued for the session that is left of the
    example trace. *)
Lemma queued_updates_share_a_frame_witness :
  ∃ h q2,
    run NewHub exampleOps = Some h
    ∧ fst (writePump q2 (mkClient 2 7))
      = Some [mkMessage "patterns_updated" []; mkMessage "patterns_updated" []]
    ∧ Agent.onmessage 1
        (parseFrame [mkMessage "patterns_updated" []; mkMessage "patterns_updated" []])
        (Agent.exampleState true)
      = Agent.exampleState true.
Proof.
  assert (is_Some (run NewHub exampleOps)) as [h Hh].
  { apply (run_no_panic exampleOps NewHub ∅ ∅ NewHub_nonEmpty NewHub_tracks);
      [done | set_solver | reflexivity]. }
  destruct (queued_updates_share_a_frame exampleOps h ∅ (mkClient 2 7)
              (mkMessage "patterns_updated" []) (mkMessage "patterns_updated" []) 1
              (Agent.exampleState true) eq_refl Hh)
    as (q1 & q2 & _ & _ & _ & Hframe & _ & _ & Hdrop).
  - unfold exampleOps. simpl. set_solver.
  - reflexivity.
  - exists h, q2. split; [exact Hh|]. split; [exact Hframe | exact Hdrop].
Defined.

End DeliveryFacts.

(** ** The agent: timers, requests, delivery *)

Module AgentRequestFacts.
Import Js Regex Agent AgentRequest RegexFacts PatternFacts AgentFacts.

(** *** The heartbeat timer *)

(** X18. A tick of the heartbeat timer posts one heartbeat, with the stored
    address and token, exactly when the agent is configured and the
    persistent connection is not established; it never pulls the snapshot
    and never touches the cached patterns, the stored token or address, or
    the connection state; the heartbeat time is set to the instant of the
    tick exactly when a heartbeat was posted and answered with success. *)
Theorem heartbeat_tick_posts_when_disconnected (now : Z) (resp : option Response)
    (st : State) :
  let st' := fst (onAlarm (str "heartbeat") now resp st) in
  let sent := snd (onAlarm (str "heartbeat") now resp st) in
  let due := configured st && negb (wsConnected st) in
  let answered := match resp with Some r => respOk r | None => false end in
  sent = (if due then [PostHeartbeat (apiUrl (getConfig st)) (token (getConfig st))] else [])
  ∧ pulls sent = false
  ∧ storedPatterns st' = storedPatterns st
  ∧ token (getConfig st') = token (getConfig st)
  ∧ apiUrl (getConfig st') = apiUrl (getConfig st)
  ∧ lastSync (getConfig st') = lastSync (getConfig st)
  ∧ ws st' = ws st ∧ wsConnected st' = wsConnected st
  ∧ lastHeartbeat (getConfig st')
    = if due && answered then Some now else lastHeartbeat (getConfig st).
Proof.
  cbv zeta. unfold onAlarm.
  rewrite (bool_decide_eq_false_2 (str "heartbeat" = str "syncPatterns")) by discriminate.
  rewrite (bool_decide_eq_true_2 (str "heartbeat" = str "heartbeat")) by reflexivity.
  rewrite (bool_decide_eq_false_2 (str "heartbeat" = str "wsReconnect")) by discriminate.
  unfold periodicHeartbeat, sendHeartbeat, configured.
  destruct (truthy (token (getConfig st))) eqn:Ht; simpl; [|repeat split; done].
  destruct (wsConnected st) eqn:Hw; simpl; [rewrite andb_false_r; repeat split; done|].
  destruct (truthy (apiUrl (getConfig st))) eqn:Ha; simpl; [|repeat split; done].
  destruct resp as [r|]; simpl; [|repeat split; done].
  destruct (respOk r); simpl; repeat split; done.
Qed.

(** *** What no event changes *)

Lemma fetchPatterns_credentials now resp st :
  let st' := fst (fst (fetchPatterns now resp st)) in
  token (getConfig st') = token (getConfig st)
  ∧ apiUrl (getConfig st') = apiUrl (getConfig st)
  ∧ (snd (fst (fetchPatterns now resp st)) = None → st' = st).
Proof.
  cbv zeta. unfold fetchPatterns.
  destruct (negb _ || negb _); [done|].
  destruct resp as [r|]; [|done]. destruct (negb (respOk r)); [done|].
  destruct (respJson r); [|done]. simpl. split; [done|]. split; [done | discriminate].
Qed.

(** X19. Neither a timer tick nor a message pushed over the connection
    changes the stored token or the server address; a pull that fails (no
    answer, an error status, a body that is not JSON) and a message that
    does not parse, is not a pattern update or has no data leave the whole
    state, cache included, as it was. *)
Theorem events_keep_credentials (now : Z) (st : State) :
  (∀ name resp,
     token (getConfig (fst (onAlarm name now resp st))) = token (getConfig st)
     ∧ apiUrl (getConfig (fst (onAlarm name now resp st))) = apiUrl (getConfig st))
  ∧ (∀ event,
       token (getConfig (onmessage now event st)) = token (getConfig st)
       ∧ apiUrl (getConfig (onmessage now event st)) = apiUrl (getConfig st))
  ∧ (∀ resp, snd (fst (fetchPatterns now resp st)) = None →
             fst (fst (fetchPatterns now resp st)) = st)
  ∧ onmessage now None st = st
  ∧ (∀ m, msgType m ≠ str "patterns_updated" ∨ msgData m = None →
          onmessage now (Some m) st = st).
Proof.
  split; [|split; [|split; [|split]]].
  - intros name resp. unfold onAlarm.
    assert (Hsync : ∀ s, token (getConfig (fst (periodicSync now resp s))) = token (getConfig s)
                         ∧ apiUrl (getConfig (fst (periodicSync now resp s)))
                           = apiUrl (getConfig s)).
    { intros s. unfold periodicSync. destruct (truthy (token (getConfig s))); [|done].
      pose proof (fetchPatterns_credentials now resp s) as (H1 & H2 & _).
      destruct (fetchPatterns now resp s) as [[s' o] e]. done. }
    assert (Hbeat : ∀ s, token (getConfig (fst (periodicHeartbeat now resp s)))
                         = token (getConfig s)
                         ∧ apiUrl (getConfig (fst (periodicHeartbeat now resp s)))
                           = apiUrl (getConfig s)).
    { intros s. unfold periodicHeartbeat, sendHeartbeat.
      destruct (truthy (token (getConfig s)) && negb (wsConnected s)); [|done].
      destruct (negb _ || negb _); [done|]. destruct resp as [r|]; [|done].
      destruct (negb (respOk r)); done. }
    assert (Hconn : ∀ s, token (getConfig (fst (ensureWebSocketConnected s)))
                         = token (getConfig s)
                         ∧ apiUrl (getConfig (fst (ensureWebSocketConnected s)))
                           = apiUrl (getConfig s)).
    { intros s. unfold ensureWebSocketConnected, connectWebSocket.
      destruct (truthy (token (getConfig s)) && negb (wsConnected s)); [|done].
      destruct (negb _ || negb _); done. }
    destruct (bool_decide (name = str "syncPatterns")).
    + destruct (Hsync st) as [H1 H2]. destruct (periodicSync now resp st) as [s1 e1].
      simpl in H1, H2.
      destruct (bool_decide (name = str "heartbeat")).
      * destruct (Hbeat s1) as [H3 H4]. destruct (periodicHeartbeat now resp s1) as [s2 e2].
        simpl in H3, H4.
        destruct (bool_decide (name = str "wsReconnect")).
        -- destruct (Hconn s2) as [H5 H6]. destruct (ensureWebSocketConnected s2) as [s3 e3].
           simpl in *. split; congruence.
        -- simpl. split; congruence.
      * destruct (bool_decide (name = str "wsReconnect")).
        -- destruct (Hconn s1) as [H5 H6]. destruct (ensureWebSocketConnected s1) as [s3 e3].
           simpl in *. split; congruence.
        -- simpl. split; congruence.
    + destruct (bool_decide (name = str "heartbeat")).
      * destruct (Hbeat st) as [H3 H4]. destruct (periodicHeartbeat now resp st) as [s2 e2].
        simpl in H3, H4.
        destruct (bool_decide (name = str "wsReconnect")).
        -- destruct (Hconn s2) as [H5 H6]. destruct (ensureWebSocketConnected s2) as [s3 e3].
           simpl in *. split; congruence.
        -- simpl. split; congruence.
      * destruct (bool_decide (name = str "wsReconnect")).
        -- destruct (Hconn st) as [H5 H6]. destruct (ensureWebSocketConnected st) as [s3 e3].
           simpl in *. split; congruence.
        -- simpl. done.
  - intros [m|]; [|done]. unfold onmessage.
    destruct (bool_decide _); [|done]. destruct (msgData m); done.
  - intros resp. apply fetchPatterns_credentials.
  - reflexivity.
  - intros m [Hty|Hdata]; unfold onmessage.
    + rewrite bool_decide_eq_false_2 by done. reflexivity.
    + rewrite Hdata. destruct (bool_decide _); reflexivity.
Qed.

(** An unknown message and a failed pull leave the example state alone. *)
Lemma events_keep_credentials_witness :
  onmessage 5 (Some (mkMessage (str "ping") None)) (exampleState true) = exampleState true
  ∧ fst (fst (fetchPatterns 5 (Some (mkResponse false None)) (exampleState true)))
    = exampleState true.
Proof.
  destruct (events_keep_credentials 5 (exampleState true)) as (_ & _ & Hpull & _ & Hmsg).
  split.
  - apply Hmsg. left. discriminate.
  - apply Hpull. reflexivity.
Defined.

(** *** An http URL the platform does not parse *)

(** X20. On a device with a token, an http(s) URL for which the URL
    constructor throws matches no pattern: the deny list cannot block it,
    and it is blocked exactly when the allow list is not empty. *)
Theorem unparsed_url_blocked_by_allow_list (URL : jsstring → option ParsedURL)
    (st : State) (url : jsstring) :
  isHttp url = true →
  token (getConfig st) ≠ [] →
  URL url = None →
  (∀ ps, matchesPattern URL url ps = false)
  ∧ shouldBlockUrl URL st url = (0 <? length (allow (getPatterns st)))%nat.
Proof.
  intros Hhttp Htok Hurl.
  assert (Hno : ∀ ps, matchesPattern URL url ps = false).
  { intros ps. unfold matchesPattern. rewrite Hurl. reflexivity. }
  split; [exact Hno|].
  assert (Ht : truthy (token (getConfig st)) = true) by (by apply truthy_spec).
  unfold shouldBlockUrl. rewrite Ht, !Hno. unfold isHttp in Hhttp.
  destruct (startsWith url (str "http://")), (startsWith url (str "https://"));
    try discriminate Hhttp; simpl; rewrite ?andb_false_r; simpl;
    destruct (0 <? length (allow (getPatterns st)))%nat; reflexivity.
Qed.

(** With a parser that rejects the URL, it is blocked once the cache holds
    an allow pattern, and let through while the allow list is empty. *)
Lemma unparsed_url_blocked_by_allow_list_witness :
  shouldBlockUrl (fun _ => None) (deliver ByPush 1 snapshotA (exampleState true))
    (str "http://exa mple/") = true
  ∧ shouldBlockUrl (fun _ => None) (exampleState true) (str "http://exa mple/") = false.
Proof.
  destruct (unparsed_url_blocked_by_allow_list (fun _ => None)
              (deliver ByPush 1 snapshotA (exampleState true)) (str "http://exa mple/")
              eq_refl ltac:(discriminate) eq_refl) as [_ H1].
  destruct (unparsed_url_blocked_by_allow_list (fun _ => None)
              (exampleState true) (str "http://exa mple/")
              eq_refl ltac:(discriminate) eq_refl) as [_ H2].
  split; [rewrite H1 | rewrite H2]; reflexivity.
Defined.

(** *** The suggested pattern *)

Lemma tokenize_lit c r : isStar c = false → tokenize (c :: r) = TLit c :: tokenize r.
Proof. intros H. cbn [tokenize]. rewrite H. reflexivity. Qed.

Lemma tokenize_dstar c c2 r :
  isStar c = true → isStar c2 = true → tokenize (c :: c2 :: r) = TDStar :: tokenize r.
Proof. intros H1 H2. cbn [tokenize]. rewrite H1, H2. reflexivity. Qed.

Lemma tokenize_star c c2 r :
  isStar c = true → isStar c2 = false → tokenize (c :: c2 :: r) = TStar :: tokenize (c2 :: r).
Proof. intros H1 H2. cbn [tokenize]. rewrite H1, H2. reflexivity. Qed.

Lemma tokenize_last c : isStar c = true → tokenize [c] = [TStar].
Proof. intros H. cbn [tokenize]. rewrite H. reflexivity. Qed.

Lemma tokenize_slash_star n : ∀ h,
  (length h ≤ n)%nat → tokenize (h ++ str "/*") = tokenize h ++ [TLit "/"%char; TStar].
Proof.
  induction n as [|n IH]; intros h Hlen.
  - destruct h; [reflexivity | simpl in Hlen; lia].
  - destruct h as [|c r]; [reflexivity|]. simpl in Hlen.
    change ((c :: r) ++ str "/*") with (c :: (r ++ str "/*")).
    destruct (isStar c) eqn:Ec.
    + destruct r as [|c2 r2].
      * rewrite (tokenize_last c Ec).
        change ([] ++ str "/*") with ("/"%char :: str "*").
        rewrite (tokenize_star c "/" (str "*") Ec eq_refl). reflexivity.
      * change ((c2 :: r2) ++ str "/*") with (c2 :: (r2 ++ str "/*")).
        simpl in Hlen. destruct (isStar c2) eqn:Ec2.
        -- rewrite !(tokenize_dstar c c2 _ Ec Ec2), IH by lia. reflexivity.
        -- rewrite !(tokenize_star c c2 _ Ec Ec2).
           change (c2 :: (r2 ++ str "/*")) with ((c2 :: r2) ++ str "/*").
           rewrite IH by (simpl; lia). reflexivity.
    + rewrite !(tokenize_lit c _ Ec), IH by lia. reflexivity.
Qed.

(** Every text is accepted by its own tokens, segment by segment. *)
Lemma tokenize_self n : ∀ h,
  (length h ≤ n)%nat →
  Forall dotChar h →
  ∃ segs, concat segs = h ∧ Forall2 (segmentOk dotChar) (tokenize h) segs.
Proof.
  induction n as [|n IH]; intros h Hlen Hdot.
  - destruct h; [|simpl in Hlen; lia]. exists []. split; [reflexivity | constructor].
  - destruct h as [|c r]; [exists []; split; [reflexivity | constructor]|].
    simpl in Hlen. apply Forall_cons in Hdot as [Hc Hr].
    destruct (isStar c) eqn:Ec.
    + assert (c ≠ "/"%char) as Hns.
      { intros ->. discriminate Ec. }
      destruct r as [|c2 r2].
      * rewrite (tokenize_last c Ec). exists [[c]]. split; [reflexivity|].
        repeat constructor. exact Hns.
      * simpl in Hlen. destruct (isStar c2) eqn:Ec2.
        -- rewrite (tokenize_dstar c c2 _ Ec Ec2).
           apply Forall_cons in Hr as [Hc2 Hr2].
           destruct (IH r2 ltac:(lia) Hr2) as (segs & Hcat & Hall).
           exists ([c; c2] :: segs). split; [simpl; by rewrite Hcat|].
           constructor; [|exact Hall]. simpl. by repeat constructor.
        -- rewrite (tokenize_star c c2 _ Ec Ec2).
           destruct (IH (c2 :: r2) ltac:(simpl; lia) Hr) as (segs & Hcat & Hall).
           exists ([c] :: segs). split; [simpl; by rewrite Hcat|].
           constructor; [|exact Hall]. simpl. repeat constructor. exact Hns.
    + rewrite (tokenize_lit c _ Ec).
      destruct (IH r ltac:(lia) Hr) as (segs & Hcat & Hall).
      exists ([c] :: segs). split; [simpl; by rewrite Hcat|].
      constructor; [|exact Hall]. simpl. by exists c.
Qed.

Lemma splitTrail_slash_star toks :
  splitTrail (toks ++ [TLit "/"%char; TStar]) = (toks, TrailSlash).
Proof.
  unfold splitTrail. rewrite rev_app_distr. cbn [rev app].
  rewrite rev_involutive. reflexivity.
Qed.

(** A pattern made of a host and [/*] accepts the host. *)
Lemma host_pattern_accepts_host h :
  Forall dotChar h →
  test (mkRegexp (compileTokens (h ++ str "/*")) true true true) h = true.
Proof.
  intros Hdot. apply test_tokens. unfold matchesTokens.
  rewrite (tokenize_slash_star (length h)) by lia. rewrite splitTrail_slash_star.
  destruct (tokenize_self (length h) h ltac:(lia) Hdot) as (segs & Hcat & Hall).
  exists segs, []. rewrite app_nil_r. split; [by rewrite Hcat|]. split; [exact Hall|].
  by left.
Qed.

(** X21. The pattern the agent suggests with an access request, and the
    blocked page shows, is the host name of the URL followed by [/*].  Once
    that pattern is in a list, every URL with that host name matches the
    list, whatever its path and query, because the host name alone is one of
    the two candidates tried; so with the suggestion in the allow list the
    URL is let through unless a deny pattern matches it. *)
Theorem suggested_pattern_matches_host (URL : jsstring → option ParsedURL)
    (url : jsstring) (parsed : ParsedURL) :
  URL url = Some parsed →
  Forall dotChar (hostname parsed) →
  let suggestion := hostname parsed ++ str "/*" in
  extractDomain URL url = suggestion
  ∧ (∀ resp st, configured st = true →
       snd (submitRequest URL resp st url)
       = [PostRequest (apiUrl (getConfig st)) (token (getConfig st)) url suggestion])
  ∧ (∀ url2 parsed2 ps,
       URL url2 = Some parsed2 → hostname parsed2 = hostname parsed →
       In suggestion ps → matchesPattern URL url2 ps = true)
  ∧ (∀ st, In suggestion (allow (getPatterns st)) →
       matchesPattern URL url (deny (getPatterns st)) = false →
       shouldBlockUrl URL st url = false).
Proof.
  intros Hurl Hdot. cbv zeta.
  assert (Hmatch : ∀ url2 parsed2 ps,
            URL url2 = Some parsed2 → hostname parsed2 = hostname parsed →
            In (hostname parsed ++ str "/*") ps → matchesPattern URL url2 ps = true).
  { intros url2 parsed2 ps Hu2 Hh Hin. apply matchesPattern_exists.
    exists (hostname parsed ++ str "/*"). split; [exact Hin|].
    unfold patternMatches, matchesPattern. rewrite Hu2, matchesLoop_total.
    cbn [existsb]. rewrite Hh, (host_pattern_accepts_host _ Hdot).
    rewrite orb_true_r. reflexivity. }
  split; [|split; [|split]].
  - unfold extractDomain. rewrite Hurl. reflexivity.
  - intros resp st Hc. unfold submitRequest. unfold configured in Hc.
    apply andb_true_iff in Hc as [-> ->]. simpl. rewrite Hurl.
    destruct resp as [r|]; [destruct (negb (respOk r))|]; reflexivity.
  - exact Hmatch.
  - intros st Hin Hdeny. unfold shouldBlockUrl.
    rewrite Hdeny, (Hmatch url parsed _ Hurl eq_refl Hin).
    rewrite !andb_false_r. simpl.
    destruct (negb _ && negb _); [reflexivity|].
    destruct (negb (truthy (token (getConfig st)))); reflexivity.
Qed.

(** The suggestion for a page two levels deep on the news site, approved
    as an allow rule: the page is let through. *)
Lemma suggested_pattern_matches_host_witness :
  extractDomain plainURL (str "http://news.example/a/b?x=1") = str "news.example/*"
  ∧ shouldBlockUrl plainURL (deliver ByPush 1 snapshotA (exampleState true))
      (str "http://news.example/a/b?x=1") = false.
Proof.
  destruct (suggested_pattern_matches_host plainURL
              (str "http://news.example/a/b?x=1")
              (mkURL (str "news.example") (str "/a/b") (str "?x=1")) eq_refl
              ltac:(repeat constructor)) as (Hs & _ & _ & Hallow).
  split; [exact Hs|]. apply Hallow.
  - left. reflexivity.
  - vm_compute. reflexivity.
Defined.

(** *** The socket address *)

(** X22. The socket address is the server address with its leading [http]
    replaced by [ws], followed by the socket path and the encoded token: an
    [https://] address gives a [wss://] address and an [http://] address a
    [ws://] address with the same rest, and an address that does not start
    with [http] in lower case is used as it is. *)
Theorem socket_address_scheme (encodeURIComponent : jsstring → jsstring) (config : Config)
    (rest : jsstring) :
  let tail := str "/api/ws?token=" ++ encodeURIComponent (token config) in
  (apiUrl config = str "https://" ++ rest →
   wsUrl encodeURIComponent config = str "wss://" ++ rest ++ tail)
  ∧ (apiUrl config = str "http://" ++ rest →
     wsUrl encodeURIComponent config = str "ws://" ++ rest ++ tail)
  ∧ (startsWith (apiUrl config) (str "http") = false →
     wsUrl encodeURIComponent config = apiUrl config ++ tail).
Proof.
  cbv zeta. unfold wsUrl, replaceScheme. split; [|split].
  - intros ->. reflexivity.
  - intros ->. reflexivity.
  - intros ->. reflexivity.
Qed.

(** The default server address. *)
Lemma socket_address_scheme_witness :
  wsUrl (fun s => s) exampleConfig = str "ws://localhost:8080/api/ws?token=secret".
Proof.
  destruct (socket_address_scheme (fun s => s) exampleConfig (str "localhost:8080"))
    as (_ & H & _).
  exact (H eq_refl).
Defined.

End AgentRequestFacts.

(** ** From the store to the cache of the agent *)

Module SnapshotFacts.
Import Models Store StoreFacts.

Lemma ofType_textsOf (ty : PatternType) (l : list Pattern) :
  Agent.ofType (Js.str (Delivery.typeText ty))
    (Agent.mkSnapshot (Some (map Delivery.patternObj l)))
  = Delivery.textsOf ty l.
Proof.
  unfold Agent.ofType, Delivery.textsOf. simpl. induction l as [|p l IH]; [reflexivity|].
  cbn [map List.filter]. rewrite filter_cons. cbn [Agent.type Delivery.patternObj].
  destruct (decide (Type_ p = ty)) as [Heq|Hne].
  - rewrite (bool_decide_eq_true_2 _ Heq). rewrite decide_True by (by rewrite Heq).
    cbn [map]. f_equal. exact IH.
  - rewrite (bool_decide_eq_false_2 _ Hne).
    rewrite decide_False; [exact IH|].
    intros H. apply Hne. destruct (Type_ p), ty; try reflexivity; discriminate H.
Qed.

Lemma In_textsOf ty l x :
  In x (Delivery.textsOf ty l)
  ↔ ∃ p, In p l ∧ Type_ p = ty ∧ x = Js.str (PatternText p).
Proof.
  unfold Delivery.textsOf. rewrite in_map_iff. split.
  - intros (p & <- & Hin). apply filter_In in Hin as [Hin Hty].
    apply bool_decide_eq_true in Hty. eauto.
  - intros (p & Hin & Hty & ->). exists p. split; [done|]. apply filter_In.
    split; [done | by apply bool_decide_eq_true].
Qed.

Lemma organize_wire (l : list Pattern) :
  Agent.organize (Agent.mkSnapshot (Some (map Delivery.patternObj l)))
  = Agent.mkPatterns (Delivery.textsOf allowType l) (Delivery.textsOf denyType l).
Proof.
  rewrite AgentFacts.organize_spec.
  rewrite <- (ofType_textsOf allowType), <- (ofType_textsOf denyType). reflexivity.
Qed.

Lemma pushed_cache (t : Z) (l : list Pattern) (st : Agent.State) :
  Agent.getPatterns
    (Agent.onmessage t (Some (Delivery.parsed (Delivery.mkMessage "patterns_updated" l))) st)
  = Agent.mkPatterns (Delivery.textsOf allowType l) (Delivery.textsOf denyType l).
Proof.
  unfold Agent.onmessage, Delivery.parsed.
  cbn [Agent.msgType Agent.msgData Delivery.MessageType Delivery.MessageData].
  rewrite bool_decide_eq_true_2 by reflexivity.
  unfold Agent.getPatterns, Agent.setConfig, Agent.setPatterns. simpl. apply organize_wire.
Qed.

(** X23. The snapshot of a device reaches the cache of its agent unchanged
    on both paths: after the agent has handled the message built by the
    update notification, or, when it is configured, the answer of the
    patterns route, its allow list holds the texts of exactly the enabled,
    unexpired allow patterns of the device and its deny list those of the
    deny patterns, newest first; so the two paths leave the same cache. *)
Theorem pushed_and_polled_agree (now t : Z) (db : DB) (id : Z) (l : list Pattern)
    (st : Agent.State) :
  GetPatternsByDevice true now db id = inl l →
  let cache := Agent.mkPatterns (Delivery.textsOf allowType l) (Delivery.textsOf denyType l) in
  Agent.getPatterns
    (Agent.onmessage t (Some (Delivery.parsed (Delivery.mkMessage "patterns_updated" l))) st)
  = cache
  ∧ (Agent.configured st = true →
     Agent.getPatterns (fst (fst (Agent.fetchPatterns t (Some (Delivery.polled l)) st)))
     = cache)
  ∧ (∀ x, In x (Agent.allow cache)
          ↔ ∃ p, served now db id p ∧ Type_ p = allowType ∧ x = Js.str (PatternText p))
  ∧ (∀ x, In x (Agent.deny cache)
          ↔ ∃ p, served now db id p ∧ Type_ p = denyType ∧ x = Js.str (PatternText p)).
Proof.
  intros Hl. cbv zeta.
  pose proof (organize_wire l) as Horg.
  assert (Hserved : ∀ p, In p l ↔ served now db id p).
  { intros p. unfold served. rewrite Hl. split; [eauto|]. by intros (l' & [= <-] & Hin). }
  split; [|split; [|split]].
  - apply pushed_cache.
  - intros Hc. unfold Agent.fetchPatterns, Delivery.polled.
    unfold Agent.configured in Hc. apply andb_true_iff in Hc as [-> ->].
    cbn [negb orb Agent.respOk Agent.respJson].
    unfold Agent.getPatterns, Agent.setConfig, Agent.setPatterns. simpl. exact Horg.
  - intros x. cbn [Agent.allow]. rewrite In_textsOf.
    split; intros (p & Hp & H); exists p; (split; [by apply Hserved | exact H]).
  - intros x. cbn [Agent.deny]. rewrite In_textsOf.
    split; intros (p & Hp & H); exists p; (split; [by apply Hserved | exact H]).
Qed.

(** The phone at second three: the news site is allowed, the ad server
    denied. *)
Lemma pushed_and_polled_agree_witness :
  Agent.getPatterns
    (Agent.onmessage 4
       (Some (Delivery.parsed (Delivery.mkMessage "patterns_updated" [allowNews; denyAds])))
       (Agent.exampleState true))
  = Agent.mkPatterns [Js.str "news.example/*"] [Js.str "ads.example/*"].
Proof.
  destruct (pushed_and_polled_agree (3 * Second) 4 exampleStore 1 [allowNews; denyAds]
              (Agent.exampleState true) eq_refl) as (H & _).
  exact H.
Defined.

End SnapshotFacts.

(** ** Heartbeats against the sweep *)

Module LivenessFacts.
Import Models Handlers.




End LivenessFacts.

(** ** From the admin's decision to the agent *)

Module EndToEndFacts.
Import Models Handlers Store StoreFacts AdminFacts Hub HubFacts Delivery DeliveryFacts
  SnapshotFacts.

(** X29. An approval reaches the agent: when the approval handler has
    answered 200, the update it dispatches for the device, run against a hub
    on which a session of that device is registered with room in its buffer,
    appends one message to that buffer; and once the agent has handled that
    message, the text of the approved pattern is in its allow list if the
    pattern is an allow pattern and in its deny list if it is a deny
    pattern, provided the update is built before the second of the
    pattern's expiry. *)
Theorem approval_reaches_agent (ops : list Op) (h : Hub) (q : Queues Message)
    (now t t' : Z) (db db' : DB) (id : Z) (reqBody : ApproveRequestBody) (p : Pattern)
    (effects : list SideEffect) (c : Client) (st : Agent.State) :
  fresh ∅ ops = true →
  run NewHub ops = Some h →
  c ∈ live ∅ ops →
  DeviceID c = PatternDeviceID p →
  (length (buffered q c) < capacity)%nat →
  Handlers.ApproveRequest true true true now db (Some id) (Some reqBody)
  = (db', mkHttp 200 (ApprovedJSON p), effects) →
  match ExpiresAt p with None => True | Some e => datetime t < datetime e end →
  effects = [Handlers.NotifyDevicePatternUpdate (PatternDeviceID p)]
  ∧ ∃ q' m,
      Delivery.NotifyDevicePatternUpdate true t db' (Some h) q (PatternDeviceID p) = Some q'
      ∧ buffered q' c = buffered q c ++ [m]
      ∧ In (Js.str (PatternText p))
           (match Type_ p with
            | allowType => Agent.allow
            | denyType => Agent.deny
            end (Agent.getPatterns (Agent.onmessage t' (Some (parsed m)) st))).
Proof.
  intros Hfresh Hrun Hc Hdev Hroom Happ Hlive.
  rewrite ApproveRequest_unfold in Happ. case_bool_decide as Hpat; [discriminate|].
  destruct (GetRequestByID true db id) as [r|e]; [|discriminate].
  destruct (Admin.expiryFor now _ _) as [ex|]; [|discriminate].
  destruct (Models.CreatePattern _ _ _ _ _ _ _) as [db1 [p1|e]] eqn:Hcreate; [|discriminate].
  unfold Models.ApproveRequest in Happ. injection Happ as <- <- <-.
  apply CreatePattern_inl in Hcreate as (-> & Hpdev & _ & Hen & _ & _ & _ & _).
  split; [by rewrite Hpdev|].
  unfold Delivery.NotifyDevicePatternUpdate.
  destruct (GetPatternsByDevice true t _ (PatternDeviceID p1)) as [l|e] eqn:Hl;
    [|discriminate Hl].
  assert (Hin : In p1 l).
  { match type of Hl with
    | GetPatternsByDevice _ _ ?d _ = _ =>
        assert (served t d (PatternDeviceID p1) p1) as (l' & Hl' & Hin')
    end.
    { apply served_iff. simpl. split; [apply in_or_app; right; by left|]. split; [done|].
      apply isLive_spec. done. }
    rewrite Hl in Hl'. by injection Hl' as <-. }
  destruct (SendToDevice_live ops h q (PatternDeviceID p1) (mkMessage "patterns_updated" l)
              Hfresh Hrun) as (q' & Hq' & Hbuf).
  exists q', (mkMessage "patterns_updated" l). split; [exact Hq'|]. split.
  - rewrite Hbuf. destruct (decide _) as [_|Hn]; [|by destruct Hn].
    apply Nat.ltb_lt in Hroom. by rewrite Hroom.
  - rewrite pushed_cache. destruct (Type_ p1) eqn:Hty; simpl;
      apply In_textsOf; exists p1; done.
Qed.

(** The request of the phone is approved for an hour while a session of
    the phone is registered: the site is in the allow list of the agent. *)
Lemma approval_reaches_agent_witness :
  ∃ h db' p q' m,
    run NewHub [Register (mkClient 1 1)] = Some h
    ∧ Handlers.ApproveRequest true true true 0 exampleStore (Some 1)
        (Some (mkApproveBody "news.example/*" "" "1h" 0))
      = (db', mkHttp 200 (ApprovedJSON p), [Handlers.NotifyDevicePatternUpdate 1])
    ∧ Delivery.NotifyDevicePatternUpdate true 1 db' (Some h) ∅ 1 = Some q'
    ∧ buffered q' (mkClient 1 1) = [m]
    ∧ In (Js.str "news.example/*")
         (Agent.allow (Agent.getPatterns
                         (Agent.onmessage 2 (Some (parsed m)) (Agent.exampleState true)))).
Proof.
  pose (p := mkPattern 4 1 "news.example/*" allowType true (Some Hour) 0).
  pose (db' := setRequests (map (resolveRow approved 0 1) (requests exampleStore))
                 (setPatterns (patterns exampleStore ++ [p]) exampleStore)).
  assert (E : Handlers.ApproveRequest true true true 0 exampleStore (Some 1)
                (Some (mkApproveBody "news.example/*" "" "1h" 0))
              = (db', mkHttp 200 (ApprovedJSON p), [Handlers.NotifyDevicePatternUpdate 1]))
    by (vm_compute; reflexivity).
  assert (is_Some (run NewHub [Register (mkClient 1 1)])) as [h Hh] by (by eexists).
  assert (Hc : mkClient 1 1 ∈ live ∅ [Register (mkClient 1 1)]) by (simpl; set_solver).
  assert (Hroom : (length (buffered (∅ : Queues Message) (mkClient 1 1)) < capacity)%nat).
  { unfold buffered. rewrite lookup_empty. simpl. unfold capacity. lia. }
  destruct (approval_reaches_agent [Register (mkClient 1 1)] h ∅ 0 1 2 exampleStore db' 1
              (mkApproveBody "news.example/*" "" "1h" 0) p
              [Handlers.NotifyDevicePatternUpdate 1] (mkClient 1 1) (Agent.exampleState true)
              eq_refl Hh Hc eq_refl Hroom E ltac:(vm_compute; reflexivity))
    as (_ & q' & m & Hq' & Hbuf & Hin).
  exists h, db', p, q', m. split; [exact Hh|]. split; [exact E|]. split; [exact Hq'|].
  split; [exact Hbuf | exact Hin].
Defined.



End EndToEndFacts.
